(** * Cross-regional Dask on AWS: the inter-region connectivity graph

    A shallow embedding of the CDK application of this repository
    (bin/cross-region-dask-aws.ts and the stack classes under lib/) and
    of the properties its specification states about the transit-gateway
    mesh: which peering attachments, parameters and routes the
    application declares, in which stack, and with which build-order
    dependencies.

    Layout:
    - the data model (descriptors, tokens, resources, constructs, stacks);
    - one module per stack class, each constructor following its source
      method by method;
    - the main program [app], which returns the stacks it creates, or
      nothing when a constructor throws;
    - the custom-resource calls, the reading of an application, the
      dependency graph and a small deployment interpreter;
    - the theorems.

    Resources that belong to the excluded subsystems (Lustre mirror, ECS
    pools, OpenSearch domain, notebook) are kept only where another
    resource of the mesh refers to them, as [Elided] constructs. *)

From Stdlib Require Import Ascii.
From stdpp Require Import base strings gmap list pretty.

Local Open Scope string_scope.
Local Open Scope list_scope.

(** ** Descriptors (bin/interface.ts) *)

Record IClient := { region : string; cidr : string }.

(** An [IWorker] has every field of an [IClient]; the main program passes
    workers where a client is expected (structural typing), which the
    coercion renders. *)
Record IWorker := {
  asClient :> IClient;
  dataset : string;
  lustreFileSystemPath : string
}.

(** ** Tokens, resources, constructs, stacks *)

(** A construct is addressed by the id of its stack and its own id. *)
Definition Path : Type := string * string.

(** Deploy-time values as the program writes them: literals, attributes
    of a construct ([tgw.ref], [attrTransitGatewayAttachmentId],
    [getResponseField]) and attributes of the i-th private subnet of a
    network. *)
Inductive Value :=
| Lit (s : string)
| Attr (p : Path) (a : string)
| SubnetAttr (p : Path) (i : nat) (a : string).

Global Instance Value_eq_dec : EqDecision Value.
Proof. solve_decision. Defined.

Inductive Resource :=
| Vpc (ipAddresses : string)
| CfnTransitGateway
| CfnTransitGatewayAttachment (subnetIds : list Value) (transitGatewayId vpcId : Value)
| CfnTransitGatewayPeeringAttachment (peerRegion : string)
    (peerTransitGatewayId transitGatewayId : Value)
| CfnRoute (routeTableId : Value) (destinationCidrBlock : string) (transitGatewayId : Value)
| CfnTransitGatewayRoute (transitGatewayRouteTableId : Value)
    (destinationCidrBlock : string) (transitGatewayAttachmentId : Value)
| StringParameter (parameterName : string) (stringValue : Value)
| SSMParameterReader (parameterName : string) (readRegion : string)
| AcceptTGWRequestClient (attachmentId : Value) (acceptRegion : string)
| TransitGatewayRouteTable (parameterName : Value) (lookupRegion : string)
| Elided (kind : string) (uses : list Value).

Global Instance Resource_eq_dec : EqDecision Resource.
Proof. solve_decision. Defined.

Record Construct := {
  cid : string;
  resource : Resource;
  dependsOn : list string   (* addDependsOn / node.addDependency, by construct id *)
}.

Record Stack := {
  sid : string;
  env_region : string;             (* env.region, which is this.region *)
  constructs : list Construct;     (* in creation order *)
  dependencies : list string       (* addDependency, by stack id *)
}.

Definition mk (id : string) (r : Resource) : Construct :=
  {| cid := id; resource := r; dependsOn := [] |}.

Definition addDependsOn (c : Construct) (target : string) : Construct :=
  {| cid := cid c; resource := resource c; dependsOn := dependsOn c ++ [target] |}.

Definition addDependency (s : Stack) (target : Stack) : Stack :=
  {| sid := sid s; env_region := env_region s; constructs := constructs s;
     dependencies := dependencies s ++ [sid target] |}.

(** The attributes the program reads. *)
Definition ref (p : Path) : Value := Attr p "ref".
Definition vpcId (p : Path) : Value := Attr p "vpcId".
Definition attrTransitGatewayAttachmentId (p : Path) : Value :=
  Attr p "attrTransitGatewayAttachmentId".
Definition getParameterValue (p : Path) : Value := Attr p "Parameter.Value".
Definition getDefaultRouteTableId (p : Path) : Value :=
  Attr p "TransitGateways.0.Options.AssociationDefaultRouteTableId".
Definition routeTableId (vpc : Path) (i : nat) : Value :=
  SubnetAttr vpc i "routeTable.routeTableId".
Definition subnetId (vpc : Path) (i : nat) : Value := SubnetAttr vpc i "subnetId".

(** A subnet interpolated into a construct id prints as its path. *)
Definition subnetName (vpc : Path) (i : nat) : string :=
  vpc.1 +:+ "/" +:+ vpc.2 +:+ "/PrivateSubnet" +:+ pretty (S i).

(** [s.split(sep)] of JavaScript, on one-character separators. *)
Fixpoint split_acc (sep : ascii) (acc : string) (s : string) : list string :=
  match s with
  | EmptyString => [String.rev acc]
  | String c s' =>
      if decide (c = sep) then String.rev acc :: split_acc sep EmptyString s'
      else split_acc sep (String c acc) s'
  end.

Definition split (sep : ascii) (s : string) : list string := split_acc sep EmptyString s.

(** [a.slice(from, to)] of JavaScript, for indices within the array. *)
Definition slice {A} (from to : nat) (l : list A) : list A := take (to - from) (drop from l).

(** The object [new Vpc(...)] returns: its path and its private subnets.
    The platform allots [azs r] private subnets to a network of region
    [r]; the program only iterates over them. *)
Record VpcObject := { vpcPath : Path; privateSubnets : list nat }.

Definition newVpc (azs : string → nat) (stack env id : string) : VpcObject :=
  {| vpcPath := (stack, id); privateSubnets := seq 0 (azs env) |}.

Definition subnetIds (vpc : VpcObject) : list Value :=
  (λ i, subnetId (vpcPath vpc) i) <$> privateSubnets vpc.

(** ** lib/ClientConstructs/client-region-stack.ts *)

Module ClientRegion.

Record t := { stack : Stack; clientTGW : Path; vpc : VpcObject }.

Definition setupEnvironment (azs : string → nat) (id env : string)
    (clientCidr : string) (workers : list IWorker) : list Construct :=
  let vpc := newVpc azs id env "Scheduler VPC" in
  let clientTGW : Path := (id, "TGW") in
  let attach := "tgw-attachment" in
  let PrivateNP : Path := (id, "local-dask") in
  [ mk "Scheduler VPC" (Vpc clientCidr);
    mk "TGW" CfnTransitGateway;
    mk "TGW Param" (StringParameter ("tgw-param-" +:+ env) (ref clientTGW));
    addDependsOn
      (mk attach (CfnTransitGatewayAttachment (subnetIds vpc) (ref clientTGW)
                    (vpcId (vpcPath vpc))))
      "TGW" ]
  ++ (workers ≫= λ worker : IWorker,
        (λ i, addDependsOn
                (mk ("Subnet to TGW - " +:+ subnetName (vpcPath vpc) i +:+ " - "
                       +:+ region worker)
                    (CfnRoute (routeTableId (vpcPath vpc) i) (cidr worker) (ref clientTGW)))
                attach)
        <$> privateSubnets vpc)
  ++ [ mk "local-dask" (Elided "PrivateDnsNamespace" [vpcId (vpcPath vpc)]);
       mk "PrivateNP Param"
         (StringParameter ("privatenp-hostedid-param-" +:+ env)
            (Attr PrivateNP "namespaceHostedZoneId")) ].

Definition setupOpenSearch (id env : string) (workers : list IWorker) : list Construct :=
  let openSearchDomain : Path := (id, "OpenSearch Domain") in
  [ mk "OpenSearch Domain" (Elided "Domain" [vpcId (id, "Scheduler VPC")]);
    mk "OpenSearch HostName"
      (StringParameter ("client-opensearch-domain-" +:+ env)
         (Attr openSearchDomain "domainEndpoint"));
    mk "OpenSearch ARN"
      (StringParameter ("client-opensearch-arn-" +:+ env)
         (Attr openSearchDomain "domainArn")) ].

(** [setupDaskScheduler] and [setupSagemaker] declare no resource of the
    mesh and no parameter. *)
Definition new (azs : string → nat) (id env : string)
    (clientCidr : string) (workers : list IWorker) : t :=
  {| stack := {| sid := id; env_region := env;
                 constructs := setupEnvironment azs id env clientCidr workers
                               ++ setupOpenSearch id env workers;
                 dependencies := [] |};
     clientTGW := (id, "TGW");
     vpc := newVpc azs id env "Scheduler VPC" |}.

End ClientRegion.

(** ** lib/WorkerConstructs/worker-region-stack.ts *)

Module WorkerRegion.

Record t := {
  stack : Stack;
  vpc : VpcObject;
  tgw : Path;
  attachmentID : Path;
  lustre : Path
}.

(** [acceptRequest(client)] *)
Definition acceptRequest (attachmentID : Path) (client : IClient) : list Construct :=
  [ mk "Accept Request"
      (AcceptTGWRequestClient (attrTransitGatewayAttachmentId attachmentID) (region client)) ].

Definition setupEnvironment (azs : string → nat) (id env : string)
    (client : IClient) (worker : IWorker) : list Construct :=
  let tgw : Path := (id, "TGW") in
  let peerTransitGatewayId := getParameterValue (id, "TGW Param") in
  let attachmentID : Path := (id, "Peering Connection") in
  let vpc := newVpc azs id env "Worker VPC" in
  let HostedZoneId := getParameterValue (id, "PrivateNP Param") in
  [ mk "TGW" CfnTransitGateway;
    mk ("TGW Param - " +:+ env) (StringParameter ("tgw-param-" +:+ env) (ref tgw));
    mk "TGW Param" (SSMParameterReader ("tgw-param-" +:+ region client) (region client));
    addDependsOn
      (mk "Peering Connection"
         (CfnTransitGatewayPeeringAttachment (region client) peerTransitGatewayId (ref tgw)))
      "TGW" ]
  ++ acceptRequest attachmentID client
  ++ [ mk "Worker VPC" (Vpc (cidr worker));
       addDependsOn
         (mk "tgw-attachment"
            (CfnTransitGatewayAttachment (subnetIds vpc) (ref tgw) (vpcId (vpcPath vpc))))
         "TGW";
       mk "TGW Attach Param"
         (StringParameter ("tgw-attachmentid-" +:+ env)
            (attrTransitGatewayAttachmentId attachmentID)) ]
  ++ ((λ i, addDependsOn
              (mk ("Subnet to TGW - " +:+ subnetName (vpcPath vpc) i)
                  (CfnRoute (routeTableId (vpcPath vpc) i) (cidr client) (ref tgw)))
              "Peering Connection")
      <$> privateSubnets vpc)
  ++ [ mk "PrivateNP Param"
         (SSMParameterReader ("privatenp-hostedid-param-" +:+ region client) (region client));
       mk "AssociateVPCWithHostedZone"
         (Elided "AwsCustomResource" [HostedZoneId; vpcId (vpcPath vpc)]) ].

Definition setupRegionalLustre (id : string) (worker : IWorker) : list Construct :=
  [ mk "Lustre File System" (Elided "LustreFileSystem" [vpcId (id, "Worker VPC")]) ].

(** [setupDaskWorkers] declares no resource of the mesh and no parameter. *)
Definition new (azs : string → nat) (id env : string)
    (client : IClient) (worker : IWorker) : t :=
  {| stack := {| sid := id; env_region := env;
                 constructs := setupEnvironment azs id env client worker
                               ++ setupRegionalLustre id worker;
                 dependencies := [] |};
     vpc := newVpc azs id env "Worker VPC";
     tgw := (id, "TGW");
     attachmentID := (id, "Peering Connection");
     lustre := (id, "Lustre File System") |}.

End WorkerRegion.

(** ** lib/WorkerConstructs/worker-region-tgw-route.ts *)

Module WorkerRegionTransitGatewayRoute.

Definition new (id env : string) (client : IClient) (tgw attachmentId : Path) : Stack :=
  let transitConstruct : Path := (id, "Transit Gateway") in
  let transitGatewayRouteTableId := getDefaultRouteTableId transitConstruct in
  {| sid := id; env_region := env;
     constructs :=
       [ mk "Transit Gateway" (TransitGatewayRouteTable (ref tgw) env);
         mk "TGW Route"
           (CfnTransitGatewayRoute transitGatewayRouteTableId (cidr client)
              (attrTransitGatewayAttachmentId attachmentId)) ];
     dependencies := [] |}.

End WorkerRegionTransitGatewayRoute.

(** ** lib/ClientConstructs/client-region-tgw-route.ts *)

Module ClientToWorkerTransitGatewayRoute.

Definition new (id env : string) (clientTgw : Path) (worker : IWorker) : Stack :=
  let transitGatewayConstruct : Path := (id, "Transit Gateway") in
  let transitGatewayRouteTableId := getDefaultRouteTableId transitGatewayConstruct in
  let reader := "Transit Attachment ID - " +:+ region worker in
  let transitGatewayAttachmentId := getParameterValue (id, reader) in
  {| sid := id; env_region := env;
     constructs :=
       [ mk "Transit Gateway" (TransitGatewayRouteTable (ref clientTgw) env);
         mk reader
           (SSMParameterReader ("tgw-attachmentid-" +:+ region worker) (region worker));
         mk ("TGW Route - " +:+ region worker)
           (CfnTransitGatewayRoute transitGatewayRouteTableId (cidr worker)
              transitGatewayAttachmentId) ];
     dependencies := [] |}.

End ClientToWorkerTransitGatewayRoute.

(** ** lib/WorkerConstructs/worker-to-worker-tgw.ts *)

Module WorkerToWorkerTGW.

Record t := { stack : Stack; attachmentID : Path }.

(** [acceptRequest(peerRegion)] *)
Definition acceptRequest (attachmentID : Path) (peerRegion : string) : list Construct :=
  [ mk "Accept Request"
      (AcceptTGWRequestClient (attrTransitGatewayAttachmentId attachmentID) peerRegion) ].

Definition new (id env : string) (peerWorker : IWorker) (vpc : VpcObject) : t :=
  let peerReader := "TGW Param - " +:+ region peerWorker in
  let localReader := "TGW Param - " +:+ env in
  let peerTransitGatewayId := getParameterValue (id, peerReader) in
  let transitGatewayId := getParameterValue (id, localReader) in
  let attachmentID : Path := (id, "Peering Connection") in
  {| stack :=
       {| sid := id; env_region := env;
          constructs :=
            [ mk peerReader
                (SSMParameterReader ("tgw-param-" +:+ region peerWorker) (region peerWorker));
              mk localReader (SSMParameterReader ("tgw-param-" +:+ env) env);
              mk "Peering Connection"
                (CfnTransitGatewayPeeringAttachment (region peerWorker)
                   peerTransitGatewayId transitGatewayId);
              mk ("Peering ID - " +:+ region peerWorker)
                (StringParameter
                   ("tgw-attachmentid-" +:+ env +:+ "-" +:+ region peerWorker)
                   (attrTransitGatewayAttachmentId attachmentID)) ]
            ++ acceptRequest attachmentID (region peerWorker)
            ++ ((λ i, addDependsOn
                        (mk ("Subnet to TGW - " +:+ subnetName (vpcPath vpc) i)
                            (CfnRoute (routeTableId (vpcPath vpc) i) (cidr peerWorker)
                               transitGatewayId))
                        "Peering Connection")
                <$> privateSubnets vpc);
          dependencies := [] |};
     attachmentID := attachmentID |}.

End WorkerToWorkerTGW.

(** ** lib/WorkerConstructs/interregion-worker-tgw-route.ts *)

Module InterRegionTransitGatewayRoute.

Definition new (id env : string) (peerWorker : IWorker) (tgw : Path) (vpc : VpcObject)
    : Stack :=
  let transitGatewayConstruct : Path := (id, "Transit Gateway") in
  let transitGatewayRouteTableId := getDefaultRouteTableId transitGatewayConstruct in
  let reader := "Transit Attachment ID - " +:+ env in
  let transitGatewayAttachmentId := getParameterValue (id, reader) in
  {| sid := id; env_region := env;
     constructs :=
       [ mk "Transit Gateway" (TransitGatewayRouteTable (ref tgw) env);
         mk reader
           (SSMParameterReader
              ("tgw-attachmentid-" +:+ region peerWorker +:+ "-" +:+ env)
              (region peerWorker));
         mk "TGW Route"
           (CfnTransitGatewayRoute transitGatewayRouteTableId (cidr peerWorker)
              transitGatewayAttachmentId) ]
       ++ ((λ i, mk ("Subnet to TGW - " +:+ subnetName (vpcPath vpc) i)
                    (CfnRoute (routeTableId (vpcPath vpc) i) (cidr peerWorker) (ref tgw)))
           <$> privateSubnets vpc);
     dependencies := [] |}.

End InterRegionTransitGatewayRoute.

(** ** lib/WorkerConstructs/sync-lustre-to-opensearch.ts *)

Module SyncLustreToOpenSearch.

(** The constructs of [setupOpenSearchUpdates] once
    [worker.dataset.split("/")[2]] has the value [bucket]. *)
Definition updates (env : string) (client : IClient) (bucket : string)
    (vpc : VpcObject) (lustre : Path) : list Construct :=
  [ mk "AutoScaling Group"
      (Elided "AutoScalingGroup" [vpcId (vpcPath vpc); Attr lustre "dnsName";
                                  Attr lustre "mountName"]);
    mk "OpenSearchARN"
      (SSMParameterReader ("client-opensearch-arn-" +:+ region client) (region client));
    mk "ClientRegionForEC2"
      (StringParameter ("client-region-for-dask-worker-" +:+ env) (Lit (region client)));
    mk "WorkerDataProjectForEC2"
      (StringParameter ("worker-region-data-bucket-for-dask-worker-" +:+ env)
         (Lit bucket)) ].

(** [worker.dataset.split("/")[2]] is undefined when the data set has
    fewer than three pieces; [new StringParameter] throws on an
    undefined [stringValue], and nothing catches the exception: the
    result is [None]. *)
Definition setupOpenSearchUpdates (env : string) (client : IClient) (worker : IWorker)
    (vpc : VpcObject) (lustre : Path) : option (list Construct) :=
  match split "/"%char (dataset worker) !! 2 with
  | Some bucket => Some (updates env client bucket vpc lustre)
  | None => None
  end.

Definition new (id env : string) (client : IClient) (worker : IWorker)
    (vpc : VpcObject) (lustre : Path) : option Stack :=
  match setupOpenSearchUpdates env client worker vpc lustre with
  | Some cs => Some {| sid := id; env_region := env; constructs := cs;
                       dependencies := [] |}
  | None => None
  end.

End SyncLustreToOpenSearch.

(** ** bin/cross-region-dask-aws.ts *)

(** [Worker.addDependency(clientStack)] acts on the stack the worker
    object holds. *)
Definition workerAddDependency (w : WorkerRegion.t) (target : Stack) : WorkerRegion.t :=
  {| WorkerRegion.stack := addDependency (WorkerRegion.stack w) target;
     WorkerRegion.vpc := WorkerRegion.vpc w;
     WorkerRegion.tgw := WorkerRegion.tgw w;
     WorkerRegion.attachmentID := WorkerRegion.attachmentID w;
     WorkerRegion.lustre := WorkerRegion.lustre w |}.

Definition newWorker (azs : string → nat) (client : IClient) (clientStack : ClientRegion.t)
    (worker : IWorker) : WorkerRegion.t :=
  workerAddDependency
    (WorkerRegion.new azs ("Worker-Region-" +:+ region worker) (region worker) client worker)
    (ClientRegion.stack clientStack).

(** The body of the first loop: the worker's stack and the two stacks
    that route the client link, in creation order. *)
Definition workerStacks (azs : string → nat) (client : IClient)
    (clientStack : ClientRegion.t) (worker : IWorker) : list Stack :=
  let Worker := newWorker azs client clientStack worker in
  [ WorkerRegion.stack Worker;
    addDependency
      (WorkerRegionTransitGatewayRoute.new
         ("Worker-Region-TGW-Route-" +:+ region worker) (region worker)
         client (WorkerRegion.tgw Worker) (WorkerRegion.attachmentID Worker))
      (WorkerRegion.stack Worker);
    addDependency
      (ClientToWorkerTransitGatewayRoute.new
         ("Client-Region-TGW-Route-" +:+ region worker) (region client)
         (ClientRegion.clientTGW clientStack) worker)
      (WorkerRegion.stack Worker) ].

(** The body of the inner loop for the indices [x] and [y]. Both indices
    come from [index], so the four lookups succeed; outside the arrays
    JavaScript would throw on the first field access. *)
Definition pairStacks (workers : list IWorker) (WorkerStacks : list WorkerRegion.t)
    (x y : nat) : list Stack :=
  match (workers !! x : option IWorker), (workers !! y : option IWorker),
        (WorkerStacks !! x : option WorkerRegion.t),
        (WorkerStacks !! y : option WorkerRegion.t) with
  | Some wx, Some wy, Some Wx, Some Wy =>
      let W2WTransitGateway :=
        WorkerToWorkerTGW.new
          ("TGW-Peer-Region-" +:+ region wx +:+ "-to-" +:+ region wy) (region wx)
          wy (WorkerRegion.vpc Wx) in
      [ WorkerToWorkerTGW.stack W2WTransitGateway;
        addDependency
          (WorkerRegionTransitGatewayRoute.new
             ("Worker-Region-TGW-Route-" +:+ region wx +:+ "-to-" +:+ region wy)
             (region wx) wy (WorkerRegion.tgw Wx)
             (WorkerToWorkerTGW.attachmentID W2WTransitGateway))
          (WorkerToWorkerTGW.stack W2WTransitGateway);
        addDependency
          (InterRegionTransitGatewayRoute.new
             ("Inter-Region-TGW-Route-" +:+ region wy +:+ "-to-" +:+ region wx)
             (region wy) wx (WorkerRegion.tgw Wy) (WorkerRegion.vpc Wy))
          (WorkerToWorkerTGW.stack W2WTransitGateway) ]
  | _, _, _, _ => []
  end.

Definition syncStack (client : IClient) (workers : list IWorker)
    (WorkerStacks : list WorkerRegion.t) (x : nat) : option (list Stack) :=
  match (workers !! x : option IWorker), (WorkerStacks !! x : option WorkerRegion.t) with
  | Some wx, Some Wx =>
      match SyncLustreToOpenSearch.new ("ZyncLustreToOpenSearch-" +:+ region wx)
              (region wx) client wx (WorkerRegion.vpc Wx) (WorkerRegion.lustre Wx) with
      | Some lustreToOS => Some [ lustreToOS ]
      | None => None
      end
  | _, _ => None
  end.

(** One round of the outer loop: the stacks of the inner loop, then
    the stack that closes the round. *)
Definition round (client : IClient) (workers : list IWorker)
    (WorkerStacks : list WorkerRegion.t) (index : list nat) (x : nat)
    : option (list Stack) :=
  match syncStack client workers WorkerStacks x with
  | Some lustreToOS =>
      Some ((slice (x + 1) (length index) index ≫= pairStacks workers WorkerStacks x)
            ++ lustreToOS)
  | None => None
  end.

(** [new Stack(app, id)] throws when [app] already holds a stack with
    that id. *)
Definition distinctIds (stacks : list Stack) : option (list Stack) :=
  if decide (NoDup (sid <$> stacks)) then Some stacks else None.

(** The stacks of the application, in the order the program creates
    them; [None] when a constructor throws. *)
Definition app (azs : string → nat) (client : IClient) (workers : list IWorker)
    : option (list Stack) :=
  let clientStack :=
    ClientRegion.new azs "Client-Region" (region client) (cidr client) workers in
  let WorkerStacks : list WorkerRegion.t := newWorker azs client clientStack <$> workers in
  let index := seq 0 (length workers) in
  match mapM (round client workers WorkerStacks index) index with
  | Some rounds =>
      distinctIds ([ ClientRegion.stack clientStack ]
                   ++ (workers ≫= workerStacks azs client clientStack)
                   ++ mjoin rounds)
  | None => None
  end.

(** ** bin/variables.ts *)

Definition client : IClient := {| region := "eu-west-2"; cidr := "10.0.0.0/16" |}.

Definition workers : list IWorker :=
  [ {| asClient := {| region := "us-east-1"; cidr := "10.1.0.0/16" |};
       dataset := "s3://era5-pds";
       lustreFileSystemPath := "era5-pds" |};
    {| asClient := {| region := "us-west-2"; cidr := "10.2.0.0/16" |};
       dataset := "s3://cmip6-pds/CMIP6/ScenarioMIP/MOHC";
       lustreFileSystemPath := "CMIP6/ScenarioMIP/MOHC" |} ].

(** The account has no fixed identity in [env], so every stack is
    agnostic of its availability zones and a network gets two private
    subnets. *)
Definition defaultAzs : string → nat := λ _, 2.

(** ** Custom resources (lib/SdkConstructs) *)

Record AwsSdkCall := {
  service : string;
  action : string;
  parameters : list (string * Value);
  callRegion : string;
  physicalResourceId : string;
  ignoreErrorCodesMatching : option string
}.

Record AwsCustomResource := {
  onCreate : option AwsSdkCall;
  onUpdate : option AwsSdkCall
}.

(** The call each custom-resource class of the repository builds in its
    constructor and hands over as [onUpdate]. None sets [onCreate] or
    [ignoreErrorCodesMatching]. *)
Definition customResource (r : Resource) : option AwsCustomResource :=
  match r with
  | SSMParameterReader parameterName region =>
      Some {| onCreate := None;
              onUpdate := Some {| service := "SSM"; action := "getParameter";
                                  parameters := [("Name", Lit parameterName)];
                                  callRegion := region;
                                  physicalResourceId := "getParameter";
                                  ignoreErrorCodesMatching := None |} |}
  | AcceptTGWRequestClient attachmentId region =>
      Some {| onCreate := None;
              onUpdate := Some {| service := "EC2";
                                  action := "acceptTransitGatewayPeeringAttachment";
                                  parameters := [("TransitGatewayAttachmentId", attachmentId)];
                                  callRegion := region;
                                  physicalResourceId :=
                                    "acceptTransitGatewayPeeringAttachment";
                                  ignoreErrorCodesMatching := None |} |}
  | TransitGatewayRouteTable parameterName region =>
      Some {| onCreate := None;
              onUpdate := Some {| service := "EC2"; action := "describeTransitGateways";
                                  parameters := [("TransitGatewayIds", parameterName)];
                                  callRegion := region;
                                  physicalResourceId :=
                                    "TransitGateways-AssociationDefaultRouteTableId";
                                  ignoreErrorCodesMatching := None |} |}
  | _ => None
  end.

(** The call made when a custom resource is created: [onCreate], and
    [onUpdate] in its absence. *)
Definition createCall (r : AwsCustomResource) : option AwsSdkCall :=
  match onCreate r with
  | Some call => Some call
  | None => onUpdate r
  end.

(** ** Reading an application *)

Definition lookupConstruct (s : Stack) (id : string) : option Construct :=
  list_find (λ c, cid c = id) (constructs s) ≫= λ ic, Some ic.2.

(** The parameter a token is fetched from, as (region, key), when the
    token is the value of a reader of the same stack. *)
Definition fetchedFrom (s : Stack) (v : Value) : option (string * string) :=
  match v with
  | Attr p "Parameter.Value" =>
      if decide (p.1 = sid s) then
        match resource <$> lookupConstruct s p.2 with
        | Some (SSMParameterReader name r) => Some (r, name)
        | _ => None
        end
      else None
  | _ => None
  end.

(** [call] accepts the peering attachment [p]. *)
Definition acceptsAttachment (p : Path) (call : AwsSdkCall) : Prop :=
  service call = "EC2"
  ∧ action call = "acceptTransitGatewayPeeringAttachment"
  ∧ parameters call = [("TransitGatewayAttachmentId", attrTransitGatewayAttachmentId p)].

Global Instance acceptsAttachment_dec p call : Decision (acceptsAttachment p call).
Proof. unfold acceptsAttachment. apply _. Defined.

(** The region in which the call the construct [c] makes when it is
    created accepts the attachment [p], if it makes such a call. *)
Definition acceptOf (p : Path) (c : Construct) : option string :=
  match customResource (resource c) ≫= createCall with
  | Some call => if decide (acceptsAttachment p call) then Some (callRegion call) else None
  | None => None
  end.

Record Link := {
  createdIn : string;                       (* region of the creating stack *)
  linkStack : string;                       (* id of the creating stack *)
  peerRegion : string;
  peerGateway : option (string * string);   (* (region, key) the peer gateway is read from *)
  acceptedIn : list string                  (* regions of the accept calls *)
}.

Inductive RouteTable :=
| SubnetTable (vpc : Path) (i : nat)      (* the table of the i-th private subnet *)
| GatewayTable (tgw : Value)              (* the default table of a gateway *)
| UnknownTable (v : Value).

Global Instance RouteTable_eq_dec : EqDecision RouteTable.
Proof. solve_decision. Defined.

(** The table a route id denotes: a subnet's table, or the table the
    [TransitGatewayRouteTable] lookup of the same stack describes. *)
Definition tableOf (s : Stack) (v : Value) : RouteTable :=
  match v with
  | SubnetAttr p i "routeTable.routeTableId" => SubnetTable p i
  | Attr p "TransitGateways.0.Options.AssociationDefaultRouteTableId" =>
      if decide (p.1 = sid s) then
        match resource <$> lookupConstruct s p.2 with
        | Some (TransitGatewayRouteTable g _) => GatewayTable g
        | _ => UnknownTable v
        end
      else UnknownTable v
  | _ => UnknownTable v
  end.

Inductive Level := SubnetLevel | GatewayLevel.

Global Instance Level_eq_dec : EqDecision Level.
Proof. solve_decision. Defined.

Record Route := {
  level : Level;
  table : RouteTable;
  destination : string;
  via : Value;                          (* the gateway or attachment, as written *)
  viaKey : option (string * string)     (* the parameter [via] is read from, if any *)
}.

(** What a construct contributes to the mesh. *)
Inductive Item :=
| INetwork (p : Path) (block : string)
| IGateway (r : string) (p : Path)
| IAttachment (r : string) (subnets : list Value) (gateway network : Value)
| ILink (l : Link)
| IPublish (key : string * string) (v : Value)
| IFetch (stack : string) (key : string * string)
| IRoute (r : Route)
| IOther.

Definition describe (s : Stack) (c : Construct) : Item :=
  match resource c with
  | Vpc block => INetwork (sid s, cid c) block
  | CfnTransitGateway => IGateway (env_region s) (sid s, cid c)
  | CfnTransitGatewayAttachment subnets g v => IAttachment (env_region s) subnets g v
  | CfnTransitGatewayPeeringAttachment peer peerTgw _ =>
      ILink {| createdIn := env_region s;
               linkStack := sid s;
               peerRegion := peer;
               peerGateway := fetchedFrom s peerTgw;
               acceptedIn := omap (acceptOf (sid s, cid c)) (constructs s) |}
  | CfnRoute rt d g =>
      IRoute {| level := SubnetLevel; table := tableOf s rt; destination := d;
                via := g; viaKey := fetchedFrom s g |}
  | CfnTransitGatewayRoute rt d att =>
      IRoute {| level := GatewayLevel; table := tableOf s rt; destination := d;
                via := att; viaKey := fetchedFrom s att |}
  | StringParameter name v => IPublish (env_region s, name) v
  | SSMParameterReader name r => IFetch (sid s) (r, name)
  | AcceptTGWRequestClient _ _ => IOther
  | TransitGatewayRouteTable _ _ => IOther
  | Elided _ _ => IOther
  end.

Definition stackSummary (s : Stack) : list Item := describe s <$> constructs s.

(** The items of all stacks, in creation order. *)
Definition summary (a : list Stack) : list Item := a ≫= stackSummary.

Definition asLink (it : Item) : option Link :=
  match it with ILink l => Some l | _ => None end.
Definition asPublish (it : Item) : option ((string * string) * Value) :=
  match it with IPublish k v => Some (k, v) | _ => None end.
Definition asFetch (it : Item) : option (string * (string * string)) :=
  match it with IFetch s k => Some (s, k) | _ => None end.
Definition asGateway (it : Item) : option (string * Path) :=
  match it with IGateway r p => Some (r, p) | _ => None end.
Definition asAttachment (it : Item) : option (string * (Value * Value)) :=
  match it with IAttachment r _ g v => Some (r, (g, v)) | _ => None end.
Definition asVpcAttachment (it : Item) : option (string * (list Value * Value * Value)) :=
  match it with IAttachment r subnets g v => Some (r, (subnets, g, v)) | _ => None end.
Definition asNetwork (it : Item) : option (Path * string) :=
  match it with INetwork p b => Some (p, b) | _ => None end.
Definition asRoute (it : Item) : option Route :=
  match it with IRoute r => Some r | _ => None end.
Definition asRouteAt (l : Level) (it : Item) : option Route :=
  match it with
  | IRoute r => if decide (level r = l) then Some r else None
  | _ => None
  end.

Definition links (a : list Stack) : list Link := omap asLink (summary a).

(** A peering attachment as (region that creates it, peer region). *)
Definition peeringAttachments (a : list Stack) : list (string * string) :=
  (λ l, (createdIn l, peerRegion l)) <$> links a.

(** The published parameters: ((owning region, key), value). *)
Definition published (a : list Stack) : list ((string * string) * Value) :=
  omap asPublish (summary a).

Definition fetches (a : list Stack) : list (string * (string * string)) :=
  omap asFetch (summary a).

Definition gateways (a : list Stack) : list (string * Path) := omap asGateway (summary a).

Definition routes (a : list Stack) : list Route := omap asRoute (summary a).
Definition subnetRoutes (a : list Stack) : list Route := omap (asRouteAt SubnetLevel) (summary a).
Definition gatewayRoutes (a : list Stack) : list Route :=
  omap (asRouteAt GatewayLevel) (summary a).

(** The (route table, destination block) of every route entry. *)
Definition routeKeys (a : list Stack) : list (RouteTable * string) :=
  (λ r, (table r, destination r)) <$> routes a.

(** The parameters of an application as a store: what a fetch of
    (region, key) reads once every stack is deployed. *)
Definition exchangeOf (a : list Stack) : gmap (string * string) Value :=
  list_to_map (published a).

(** The attachment or gateway a route goes through: a token read from
    the exchange stands for the published value. *)
Definition resolvedVia (a : list Stack) (r : Route) : Value :=
  match viaKey r with
  | Some key => default (via r) (exchangeOf a !! key)
  | None => via r
  end.

(** ** The dependency graph *)

Definition valuePaths (v : Value) : list Path :=
  match v with
  | Attr p _ => [p]
  | SubnetAttr p _ _ => [p]
  | _ => []
  end.

Definition resourceValues (r : Resource) : list Value :=
  match r with
  | Vpc _ => []
  | CfnTransitGateway => []
  | CfnTransitGatewayAttachment subnets g v => subnets ++ [g; v]
  | CfnTransitGatewayPeeringAttachment _ peer g => [peer; g]
  | CfnRoute rt _ g => [rt; g]
  | CfnTransitGatewayRoute rt _ att => [rt; att]
  | StringParameter _ v => [v]
  | SSMParameterReader _ _ => []
  | AcceptTGWRequestClient att _ => [att]
  | TransitGatewayRouteTable g _ => [g]
  | Elided _ uses => uses
  end.

Definition constructPaths (c : Construct) : list Path :=
  resourceValues (resource c) ≫= valuePaths.

(** Stacks whose constructs this stack refers to; the toolkit turns such
    a reference into a dependency between the stacks. *)
Definition stackReferences (s : Stack) : list string :=
  filter (λ id, id ≠ sid s) ((constructs s ≫= constructPaths).*1).

(** All stacks that must complete before [s] starts. *)
Definition stackDeps (s : Stack) : list string := dependencies s ++ stackReferences s.

Inductive Requires (a : list Stack) : string → string → Prop :=
| requires_direct s d : s ∈ a → d ∈ stackDeps s → Requires a (sid s) d
| requires_trans x y z : Requires a x y → Requires a y z → Requires a x z.

(** Within a stack, a construct waits for the constructs it names in
    [dependsOn] and for those whose attributes it reads. *)
Definition constructDeps (s : Stack) (c : Construct) : list string :=
  dependsOn c ++ (filter (λ p : Path, p.1 = sid s) (constructPaths c)).*2.

Inductive Needs (s : Stack) : string → string → Prop :=
| needs_direct c d : c ∈ constructs s → d ∈ constructDeps s c → Needs s (cid c) d
| needs_trans x y z : Needs s x y → Needs s y z → Needs s x z.

(** [closed a S]: the set [S] of stack ids contains the dependencies of
    each of its members. *)
Definition closed (a : list Stack) (S : list string) : Prop :=
  ∀ s, s ∈ a → sid s ∈ S → ∀ d, d ∈ stackDeps s → d ∈ S.

Definition depsWithin (a : list Stack) (x : string) (S : list string) : Prop :=
  ∀ s, s ∈ a → sid s = x → ∀ d, d ∈ stackDeps s → d ∈ S.

(** ** Deployment *)

Inductive ProvisioningError :=
| ParameterNotFound (region key : string).

Global Instance ProvisioningError_eq_dec : EqDecision ProvisioningError.
Proof. solve_decision. Defined.

(** The state a deployment acts on: the parameter exchange, keyed by
    (owning region, key), and the stacks completed so far. *)
Record Cloud := {
  exchange : gmap (string * string) Value;
  completed : list string
}.

Definition emptyCloud : Cloud := {| exchange := ∅; completed := [] |}.

(** Modelled from the spec: the parameter service behind [getParameter]
    is not part of the repository. Section 4.1: a fetch is one blocking
    read of (key, region) that fails with ParameterNotFound when the key
    was never published in that region. Calls to other services are not
    constrained here. *)
Definition invoke (cl : Cloud) (call : AwsSdkCall) : option ProvisioningError :=
  if decide (service call = "SSM" ∧ action call = "getParameter") then
    match parameters call with
    | [(_, Lit name)] =>
        match exchange cl !! (callRegion call, name) with
        | Some _ => None
        | None => Some (ParameterNotFound (callRegion call) name)
        end
    | _ => None
    end
  else None.

(** Modelled from the spec: the handler of a custom resource is library
    code. It issues the call once and reports its error, unless the call
    carries a pattern of error codes to ignore. Returns the calls issued
    and the error, if any. *)
Definition handleCreate (cl : Cloud) (r : AwsCustomResource)
    : list AwsSdkCall * option ProvisioningError :=
  match createCall r with
  | None => ([], None)
  | Some call =>
      ([call],
       match invoke cl call with
       | Some e =>
           match ignoreErrorCodesMatching call with
           | Some _ => None
           | None => Some e
           end
       | None => None
       end)
  end.

(** Creating one construct of a stack of region [env]: a parameter is
    written to the exchange of that region (overwriting), a custom
    resource runs its handler, and the other resources do not touch the
    exchange. *)
Definition createConstruct (env : string) (cl : Cloud) (c : Construct)
    : list AwsSdkCall * (Cloud + ProvisioningError) :=
  match resource c with
  | StringParameter name v =>
      ([], inl {| exchange := <[(env, name) := v]> (exchange cl);
                  completed := completed cl |})
  | r =>
      match customResource r with
      | Some cr =>
          match handleCreate cl cr with
          | (calls, Some e) => (calls, inr e)
          | (calls, None) => (calls, inl cl)
          end
      | None => ([], inl cl)
      end
  end.

Fixpoint createAll (env : string) (cl : Cloud) (cs : list Construct)
    : Cloud + ProvisioningError :=
  match cs with
  | [] => inl cl
  | c :: cs' =>
      match (createConstruct env cl c).2 with
      | inl cl' => createAll env cl' cs'
      | inr e => inr e
      end
  end.

(** Modelled from the spec: the orchestrator is not part of the
    repository. Section 5: the constructs of a stack are created in an
    order that respects their dependencies (their creation order is
    one); the first failure fails the stack, which is rolled back. *)
Definition deployStack (cl : Cloud) (s : Stack) : Cloud + ProvisioningError :=
  match createAll (env_region s) cl (constructs s) with
  | inl cl' => inl {| exchange := exchange cl'; completed := completed cl' ++ [sid s] |}
  | inr e => inr e
  end.

Inductive Outcome :=
| Completed
| Failed (e : ProvisioningError)
| Blocked.

Global Instance Outcome_eq_dec : EqDecision Outcome.
Proof. solve_decision. Defined.

(** Modelled from the spec: section 5, a step starts only once all its
    declared dependencies have completed successfully, and a failed step
    leaves unrelated branches unaffected. [order] is the order in which
    the orchestrator considers the stacks. *)
Fixpoint deploy (cl : Cloud) (order : list Stack) : Cloud * list (Stack * Outcome) :=
  match order with
  | [] => (cl, [])
  | s :: rest =>
      if decide (Forall (λ d, d ∈ completed cl) (stackDeps s)) then
        match deployStack cl s with
        | inl cl' => let '(c, o) := deploy cl' rest in (c, (s, Completed) :: o)
        | inr e => let '(c, o) := deploy cl rest in (c, (s, Failed e) :: o)
        end
      else let '(c, o) := deploy cl rest in (c, (s, Blocked) :: o)
  end.

(** The outcome of a run, stack id by stack id. *)
Definition report (run : Cloud * list (Stack * Outcome)) : list (string * Outcome) :=
  (λ o, (sid o.1, o.2)) <$> run.2.

(** An order in which every stack comes after the stacks it depends
    on. *)
Fixpoint respectsDeps (seen : list string) (order : list Stack) : Prop :=
  match order with
  | [] => True
  | s :: rest => Forall (λ d, d ∈ seen) (stackDeps s) ∧ respectsDeps (seen ++ [sid s]) rest
  end.

(** ** The application when no constructor throws *)

(** The third piece of the worker's data set. *)
Definition bucketOf (w : IWorker) : string :=
  default "" (split "/"%char (dataset w) !! 2).

(** The stack [SyncLustreToOpenSearch.new] returns when the third piece
    of the data set is [bucket]. *)
Definition syncStackWith (id env : string) (c : IClient) (bucket : string)
    (vpc : VpcObject) (lustre : Path) : Stack :=
  {| sid := id; env_region := env;
     constructs := SyncLustreToOpenSearch.updates env c bucket vpc lustre;
     dependencies := [] |}.

Definition syncStackAt (c : IClient) (ws : list IWorker)
    (WorkerStacks : list WorkerRegion.t) (x : nat) : list Stack :=
  match (ws !! x : option IWorker), (WorkerStacks !! x : option WorkerRegion.t) with
  | Some wx, Some Wx =>
      [ syncStackWith ("ZyncLustreToOpenSearch-" +:+ region wx) (region wx)
          c (bucketOf wx) (WorkerRegion.vpc Wx) (WorkerRegion.lustre Wx) ]
  | _, _ => []
  end.

(** The stacks [app] returns when it returns (lemma [app_some]). *)
Definition stacksOf (azs : string → nat) (c : IClient) (ws : list IWorker) : list Stack :=
  let clientStack := ClientRegion.new azs "Client-Region" (region c) (cidr c) ws in
  let WorkerStacks : list WorkerRegion.t := newWorker azs c clientStack <$> ws in
  let index := seq 0 (length ws) in
  [ ClientRegion.stack clientStack ]
  ++ (ws ≫= workerStacks azs c clientStack)
  ++ (index ≫= λ x : nat,
        (slice (x + 1) (length index) index ≫= pairStacks ws WorkerStacks x)
        ++ syncStackAt c ws WorkerStacks x).

(** The shipped application (lemma [app_shipped]). *)
Definition shipped : list Stack := default [] (app defaultAzs client workers).


(** ** The items of each stack class *)

Definition subnetRoute (vpc : Path) (dest : string) (g : Value)
    (k : option (string * string)) (i : nat) : Item :=
  IRoute {| level := SubnetLevel; table := SubnetTable vpc i; destination := dest;
            via := g; viaKey := k |}.

Definition gatewayRoute (tgw : Path) (dest : string) (att : Value)
    (k : option (string * string)) : Item :=
  IRoute {| level := GatewayLevel; table := GatewayTable (ref tgw); destination := dest;
            via := att; viaKey := k |}.

Definition workerId (w : IClient) : string := "Worker-Region-" +:+ region w.
Definition workerVpc (w : IClient) : Path := (workerId w, "Worker VPC").
Definition workerTgw (w : IClient) : Path := (workerId w, "TGW").
Definition workerPeering (w : IClient) : Path := (workerId w, "Peering Connection").
Definition clientVpc : Path := ("Client-Region", "Scheduler VPC").
Definition clientTgw : Path := ("Client-Region", "TGW").
Definition gatewayKey (n : IClient) : string * string := (region n, "tgw-param-" +:+ region n).
Definition clientLinkKey (w : IClient) : string * string :=
  (region w, "tgw-attachmentid-" +:+ region w).
Definition pairId (wx wy : IClient) : string :=
  "TGW-Peer-Region-" +:+ region wx +:+ "-to-" +:+ region wy.
Definition pairPeering (wx wy : IClient) : Path := (pairId wx wy, "Peering Connection").
Definition pairLinkKey (wx wy : IClient) : string * string :=
  (region wx, "tgw-attachmentid-" +:+ region wx +:+ "-" +:+ region wy).

Definition clientLink (c w : IClient) : Link :=
  {| createdIn := region w; linkStack := workerId w; peerRegion := region c;
     peerGateway := Some (gatewayKey c); acceptedIn := [region c] |}.

Definition pairLink (wx wy : IClient) : Link :=
  {| createdIn := region wx; linkStack := pairId wx wy; peerRegion := region wy;
     peerGateway := Some (gatewayKey wy); acceptedIn := [region wy] |}.

Definition clientItems (azs : string → nat) (c : IClient) (ws : list IWorker) : list Item :=
  [ INetwork clientVpc (cidr c);
    IGateway (region c) clientTgw;
    IPublish (gatewayKey c) (ref clientTgw);
    IAttachment (region c) (subnetId clientVpc <$> seq 0 (azs (region c)))
      (ref clientTgw) (vpcId clientVpc) ]
  ++ (ws ≫= λ w : IWorker,
        subnetRoute clientVpc (cidr w) (ref clientTgw) None <$> seq 0 (azs (region c)))
  ++ [ IOther;
       IPublish (region c, "privatenp-hostedid-param-" +:+ region c)
         (Attr ("Client-Region", "local-dask") "namespaceHostedZoneId");
       IOther;
       IPublish (region c, "client-opensearch-domain-" +:+ region c)
         (Attr ("Client-Region", "OpenSearch Domain") "domainEndpoint");
       IPublish (region c, "client-opensearch-arn-" +:+ region c)
         (Attr ("Client-Region", "OpenSearch Domain") "domainArn") ].

Definition workerItems (azs : string → nat) (c : IClient) (w : IWorker) : list Item :=
  [ IGateway (region w) (workerTgw w);
    IPublish (gatewayKey w) (ref (workerTgw w));
    IFetch (workerId w) (gatewayKey c);
    ILink (clientLink c w);
    IOther;
    INetwork (workerVpc w) (cidr w);
    IAttachment (region w) (subnetId (workerVpc w) <$> seq 0 (azs (region w)))
      (ref (workerTgw w)) (vpcId (workerVpc w));
    IPublish (clientLinkKey w) (attrTransitGatewayAttachmentId (workerPeering w)) ]
  ++ (subnetRoute (workerVpc w) (cidr c) (ref (workerTgw w)) None <$> seq 0 (azs (region w)))
  ++ [ IFetch (workerId w) (region c, "privatenp-hostedid-param-" +:+ region c);
       IOther;
       IOther ].

Definition workerRouteItems (c : IClient) (w : IWorker) : list Item :=
  [ IOther;
    gatewayRoute (workerTgw w) (cidr c) (attrTransitGatewayAttachmentId (workerPeering w))
      None ].

Definition clientRouteItems (c : IClient) (w : IWorker) : list Item :=
  let id := "Client-Region-TGW-Route-" +:+ region w in
  [ IOther;
    IFetch id (clientLinkKey w);
    gatewayRoute clientTgw (cidr w)
      (getParameterValue (id, "Transit Attachment ID - " +:+ region w))
      (Some (clientLinkKey w)) ].

Definition pairItems (azs : string → nat) (wx wy : IWorker) : list Item :=
  [ IFetch (pairId wx wy) (gatewayKey wy);
    IFetch (pairId wx wy) (gatewayKey wx);
    ILink (pairLink wx wy);
    IPublish (pairLinkKey wx wy) (attrTransitGatewayAttachmentId (pairPeering wx wy));
    IOther ]
  ++ (subnetRoute (workerVpc wx) (cidr wy)
        (getParameterValue (pairId wx wy, "TGW Param - " +:+ region wx))
        (Some (gatewayKey wx))
      <$> seq 0 (azs (region wx))).

Definition pairRouteItems (wx wy : IWorker) : list Item :=
  [ IOther;
    gatewayRoute (workerTgw wx) (cidr wy)
      (attrTransitGatewayAttachmentId (pairPeering wx wy)) None ].

Definition interRegionItems (azs : string → nat) (wx wy : IWorker) : list Item :=
  let id := "Inter-Region-TGW-Route-" +:+ region wy +:+ "-to-" +:+ region wx in
  [ IOther;
    IFetch id (pairLinkKey wx wy);
    gatewayRoute (workerTgw wy) (cidr wx)
      (getParameterValue (id, "Transit Attachment ID - " +:+ region wy))
      (Some (pairLinkKey wx wy)) ]
  ++ (subnetRoute (workerVpc wy) (cidr wx) (ref (workerTgw wy)) None
      <$> seq 0 (azs (region wy))).

Definition syncItems (c : IClient) (w : IWorker) : list Item :=
  [ IOther;
    IFetch ("ZyncLustreToOpenSearch-" +:+ region w)
      (region c, "client-opensearch-arn-" +:+ region c);
    IPublish (region w, "client-region-for-dask-worker-" +:+ region w) (Lit (region c));
    IPublish (region w, "worker-region-data-bucket-for-dask-worker-" +:+ region w)
      (Lit (bucketOf w)) ].


(** The stacks of the inner loop for the workers [wx] and [wy]. *)
Definition pairStacksOf (azs : string → nat) (c : IClient) (clientStack : ClientRegion.t)
    (wx wy : IWorker) : list Stack :=
  let Wx := newWorker azs c clientStack wx in
  let Wy := newWorker azs c clientStack wy in
  let W2WTransitGateway :=
    WorkerToWorkerTGW.new (pairId wx wy) (region wx) wy (WorkerRegion.vpc Wx) in
  [ WorkerToWorkerTGW.stack W2WTransitGateway;
    addDependency
      (WorkerRegionTransitGatewayRoute.new
         ("Worker-Region-TGW-Route-" +:+ region wx +:+ "-to-" +:+ region wy)
         (region wx) wy (WorkerRegion.tgw Wx)
         (WorkerToWorkerTGW.attachmentID W2WTransitGateway))
      (WorkerToWorkerTGW.stack W2WTransitGateway);
    addDependency
      (InterRegionTransitGatewayRoute.new
         ("Inter-Region-TGW-Route-" +:+ region wy +:+ "-to-" +:+ region wx)
         (region wy) wx (WorkerRegion.tgw Wy) (WorkerRegion.vpc Wy))
      (WorkerToWorkerTGW.stack W2WTransitGateway) ].

Definition workerAll (azs : string → nat) (c : IClient) (w : IWorker) : list Item :=
  workerItems azs c w ++ workerRouteItems c w ++ clientRouteItems c w.

Definition pairAll (azs : string → nat) (wx wy : IWorker) : list Item :=
  pairItems azs wx wy ++ pairRouteItems wx wy ++ interRegionItems azs wx wy.

(** The shape of the second loop of the main program: for every element
    [a], one block per later element [b], then one block for [a]. *)
Fixpoint triangle {A B} (pair : A → A → list B) (each : A → list B) (l : list A)
    : list B :=
  match l with
  | [] => []
  | a :: r => (r ≫= pair a) ++ each a ++ triangle pair each r
  end.

Definition atPair {A B} (pair : A → A → list B) (l : list A) (x y : nat) : list B :=
  match l !! x, l !! y with
  | Some a, Some b => pair a b
  | _, _ => []
  end.

Definition atIndex {A B} (each : A → list B) (l : list A) (x : nat) : list B :=
  match l !! x with
  | Some a => each a
  | None => []
  end.


(** ** The lists the theorems speak about, loop by loop *)

Definition clientKeys (c : IClient) : list ((string * string) * Value) :=
  [ (gatewayKey c, ref clientTgw);
    ((region c, "privatenp-hostedid-param-" +:+ region c),
     Attr ("Client-Region", "local-dask") "namespaceHostedZoneId");
    ((region c, "client-opensearch-domain-" +:+ region c),
     Attr ("Client-Region", "OpenSearch Domain") "domainEndpoint");
    ((region c, "client-opensearch-arn-" +:+ region c),
     Attr ("Client-Region", "OpenSearch Domain") "domainArn") ].

Definition workerKeys (w : IWorker) : list ((string * string) * Value) :=
  [ (gatewayKey w, ref (workerTgw w));
    (clientLinkKey w, attrTransitGatewayAttachmentId (workerPeering w)) ].

Definition pairKeys (wx wy : IWorker) : list ((string * string) * Value) :=
  [ (pairLinkKey wx wy, attrTransitGatewayAttachmentId (pairPeering wx wy)) ].

Definition syncKeys (c : IClient) (w : IWorker) : list ((string * string) * Value) :=
  [ ((region w, "client-region-for-dask-worker-" +:+ region w), Lit (region c));
    ((region w, "worker-region-data-bucket-for-dask-worker-" +:+ region w),
     Lit (bucketOf w)) ].

Definition mkSubnetRoute (vpc : Path) (dest : string) (g : Value)
    (k : option (string * string)) (i : nat) : Route :=
  {| level := SubnetLevel; table := SubnetTable vpc i; destination := dest;
     via := g; viaKey := k |}.

Definition mkGatewayRoute (tgw : Path) (dest : string) (att : Value)
    (k : option (string * string)) : Route :=
  {| level := GatewayLevel; table := GatewayTable (ref tgw); destination := dest;
     via := att; viaKey := k |}.

Definition clientRoutes (azs : string → nat) (c : IClient) (ws : list IWorker)
    : list Route :=
  ws ≫= λ w : IWorker,
    mkSubnetRoute clientVpc (cidr w) (ref clientTgw) None <$> seq 0 (azs (region c)).

Definition workerRoutes (azs : string → nat) (c : IClient) (w : IWorker) : list Route :=
  (mkSubnetRoute (workerVpc w) (cidr c) (ref (workerTgw w)) None
   <$> seq 0 (azs (region w)))
  ++ [ mkGatewayRoute (workerTgw w) (cidr c)
         (attrTransitGatewayAttachmentId (workerPeering w)) None;
       mkGatewayRoute clientTgw (cidr w)
         (getParameterValue ("Client-Region-TGW-Route-" +:+ region w,
                             "Transit Attachment ID - " +:+ region w))
         (Some (clientLinkKey w)) ].

Definition pairRoutes (azs : string → nat) (wx wy : IWorker) : list Route :=
  (mkSubnetRoute (workerVpc wx) (cidr wy)
     (getParameterValue (pairId wx wy, "TGW Param - " +:+ region wx))
     (Some (gatewayKey wx))
   <$> seq 0 (azs (region wx)))
  ++ [ mkGatewayRoute (workerTgw wx) (cidr wy)
         (attrTransitGatewayAttachmentId (pairPeering wx wy)) None;
       mkGatewayRoute (workerTgw wy) (cidr wx)
         (getParameterValue
            ("Inter-Region-TGW-Route-" +:+ region wy +:+ "-to-" +:+ region wx,
             "Transit Attachment ID - " +:+ region wy))
         (Some (pairLinkKey wx wy)) ]
  ++ (mkSubnetRoute (workerVpc wy) (cidr wx) (ref (workerTgw wy)) None
      <$> seq 0 (azs (region wy))).

Definition none {A B} (_ : A) : list B := [].

(** ** Configurations *)

(** The identifiers and the address blocks of the participating regions,
    the client first. *)
Definition regions (c : IClient) (ws : list IWorker) : list string :=
  region c :: ((λ w : IWorker, region w) <$> ws).

Definition cidrs (c : IClient) (ws : list IWorker) : list string :=
  cidr c :: ((λ w : IWorker, cidr w) <$> ws).



(** The non-peering attachments as (region, (gateway, network)), and
    the regional networks as (path, address block). *)
Definition attachments (a : list Stack) : list (string * (Value * Value)) :=
  omap asAttachment (summary a).

(** The same attachments with the subnets they are placed in:
    (region, (subnets, gateway, network)). *)
Definition vpcAttachments (a : list Stack)
    : list (string * (list Value * Value * Value)) :=
  omap asVpcAttachment (summary a).

Definition networks (a : list Stack) : list (Path * string) := omap asNetwork (summary a).

(** The stack of the outer loop that closes the iteration for [w]. *)
Definition syncStackOf (azs : string → nat) (c : IClient) (clientStack : ClientRegion.t)
    (w : IWorker) : list Stack :=
  let W := newWorker azs c clientStack w in
  [ syncStackWith ("ZyncLustreToOpenSearch-" +:+ region w) (region w)
      c (bucketOf w) (WorkerRegion.vpc W) (WorkerRegion.lustre W) ].

(** The stack that creates the link between the workers [wx] and [wy]. *)
Definition linkStackOf (azs : string → nat) (wx wy : IWorker) : Stack :=
  WorkerToWorkerTGW.stack
    (WorkerToWorkerTGW.new (pairId wx wy) (region wx) wy
       (newVpc azs (workerId wx) (region wx) "Worker VPC")).

(** ** Orderings the declared graph enforces *)

Global Instance Construct_eq_dec : EqDecision Construct.
Proof. solve_decision. Defined.

Global Instance Stack_eq_dec : EqDecision Stack.
Proof. solve_decision. Defined.

Global Instance Link_eq_dec : EqDecision Link.
Proof. solve_decision. Defined.

Global Instance respectsDeps_dec (order : list Stack) :
  ∀ seen, Decision (respectsDeps seen order).
Proof. induction order as [|s rest IH]; intros seen; cbn; apply _. Defined.

(** The regions that take part: the client and the workers. *)
Definition nodes (c : IClient) (ws : list IWorker) : list IClient :=
  c :: ((λ w : IWorker, asClient w) <$> ws).

(** [k] is a route entry, of either level, toward the block of [n]. *)
Definition isRouteToward (k : Construct) (n : IClient) : Prop :=
  match resource k with
  | CfnRoute _ d _ => d = cidr n
  | CfnTransitGatewayRoute _ d _ => d = cidr n
  | _ => False
  end.

(** [acc], a construct of [t], is the accept call of the link between
    the regions [r1] and [r2]. *)
Definition isAcceptBetween (t : Stack) (acc : Construct) (r1 r2 : string) : Prop :=
  match resource acc with
  | AcceptTGWRequestClient _ r =>
      (env_region t = r1 ∧ r = r2) ∨ (env_region t = r2 ∧ r = r1)
  | _ => False
  end.

(** The construct [k] of [s] cannot start before the construct [acc] of
    [t] has completed: within one stack by the dependencies between
    constructs, across stacks by those between stacks. *)
Definition orderedAfter (a : list Stack) (s : Stack) (k : Construct)
    (t : Stack) (acc : Construct) : Prop :=
  (sid s = sid t ∧ Needs s (cid k) (cid acc)) ∨ Requires a (sid s) (sid t).

(** Every route entry toward a peer is ordered after the accept call of
    the link with that peer. *)
Definition routesAfterAccept (a : list Stack) (ns : list IClient) : Prop :=
  ∀ s k t acc n,
    s ∈ a → k ∈ constructs s → t ∈ a → acc ∈ constructs t → n ∈ ns →
    isRouteToward k n → isAcceptBetween t acc (env_region s) (region n) →
    orderedAfter a s k t acc.

(** [t] is a stack of [a] that makes the accept call of the link
    between [r1] and [r2]. *)
Definition acceptStackFor (a : list Stack) (r1 r2 : string) (t : Stack) : Prop :=
  t ∈ a ∧ ∃ acc, acc ∈ constructs t ∧ isAcceptBetween t acc r1 r2.

(** Every link is created by a stack that is, or requires, the stack
    creating the gateway of each of its two regions. *)
Definition linksAfterBootstraps (a : list Stack) : Prop :=
  ∀ l r g,
    l ∈ links a → r = createdIn l ∨ r = peerRegion l → (r, g) ∈ gateways a →
    g.1 = linkStack l ∨ Requires a (linkStack l) g.1.

(** A schedule of the shipped application that the declared
    dependencies allow: the client, the first worker, then the link
    from the first worker to the second. *)
Definition earlyLinkSchedule : list Stack :=
  let a := shipped in
  take 2 a ++ take 1 (drop 7 a).

(** A schedule of all the stacks of the shipped application that the
    declared dependencies allow as well: the link between the two
    workers and its first route stack come right after the first
    worker's stack, before the second worker's stack. *)
Definition lateTargetSchedule : list Stack :=
  let a := shipped in
  take 2 a ++ take 2 (drop 7 a) ++ take 5 (drop 2 a) ++ drop 9 a.

(** The stack of the worker [w]. *)
Definition workerStackOf (azs : string → nat) (c : IClient) (ws : list IWorker)
    (w : IWorker) : Stack :=
  WorkerRegion.stack
    (newWorker azs c (ClientRegion.new azs "Client-Region" (region c) (cidr c) ws) w).

(** The three ways in which a route entry [k] of the stack [s] toward
    the node [n] is placed with respect to the handshake of its pair. *)
Definition afterAcceptStack (a : list Stack) (s : Stack) (n : IClient) : Prop :=
  ∃ t, acceptStackFor a (env_region s) (region n) t ∧ sid t ∈ dependencies s.

Definition afterRequestOnly (s : Stack) (k : Construct) (n : IClient) : Prop :=
  ∃ p tg ltg acc,
    p ∈ constructs s
    ∧ resource p = CfnTransitGatewayPeeringAttachment (region n) tg ltg
    ∧ dependsOn k = [cid p]
    ∧ acc ∈ constructs s
    ∧ isAcceptBetween s acc (env_region s) (region n)
    ∧ cid acc ∉ constructDeps s k.

Definition beforeHandshake (a : list Stack) (s : Stack) (n : IClient) : Prop :=
  dependencies s = []
  ∧ ∃ t, acceptStackFor a (env_region s) (region n) t ∧ sid s ∈ dependencies t.

(** The key of a route entry: the table it is written to and the
    destination it covers. *)
Definition routeKey (r : Route) : RouteTable * string := (table r, destination r).

(** Keeps a route entry of the given level. *)
Definition atLevel (l : Level) (r : Route) : option Route :=
  if decide (level r = l) then Some r else None.


(** ** The sites of the mesh *)

(** A participating region together with the network and the gateway
    its own stack creates: [Scheduler VPC] and [TGW] of the client's
    stack, [Worker VPC] and [TGW] of a worker's stack. *)
Record Site := { node : IClient; network : Path; gateway : Path }.

Definition clientSite (c : IClient) : Site :=
  {| node := c; network := clientVpc; gateway := clientTgw |}.

Definition workerSite (w : IWorker) : Site :=
  {| node := w; network := workerVpc w; gateway := workerTgw w |}.

Definition sites (c : IClient) (ws : list IWorker) : list Site :=
  clientSite c :: (workerSite <$> ws).

(** The constructs of an application that are peering attachments, each
    with its stack. *)
Definition isPeering (k : Construct) : Prop :=
  match resource k with
  | CfnTransitGatewayPeeringAttachment _ _ _ => True
  | _ => False
  end.

(** The region a peering attachment points at. *)
Definition peerOf (k : Construct) : string :=
  match resource k with
  | CfnTransitGatewayPeeringAttachment peer _ _ => peer
  | _ => ""
  end.

(** [t] publishes the parameter [name], and does so in the region [r]. *)
Definition publishes (t : Stack) (r name : string) : Prop :=
  env_region t = r
  ∧ ∃ p v, p ∈ constructs t ∧ resource p = StringParameter name v.

(** A string without the character [sep]. *)
Fixpoint free (sep : ascii) (s : string) : Prop :=
  match s with
  | EmptyString => True
  | String a r => a ≠ sep ∧ free sep r
  end.

(** ** lib/WorkerConstructs/worker-region-stack.ts, [setupDaskWorkers] *)

Module DaskWorkers.

(** [[...Array(n).keys()]], for [n] not negative. *)
Definition keys (n : Z) : list Z := seqZ 0 n.

Definition NWORKERS : Z := 10.
Definition THREADS : Z := 3.

(** The command of the worker container. *)
Definition command (region : string) (NWORKERS THREADS : Z) : list string :=
  [ "bin/sh"; "-c";
    "pip3 install --upgrade xarray[complete] intake_esm s3fs eccodes git+https://github.com/gjoseph92/dask-worker-pools.git@main && dask worker Dask-Scheduler.local-dask:8786 --worker-port 9000:"
    +:+ pretty (9000 + NWORKERS - 1)%Z
    +:+ " --nanny-port " +:+ pretty (9000 + NWORKERS)%Z +:+ ":"
    +:+ pretty (9000 + NWORKERS * 2 - 1)%Z
    +:+ " --resources pool-" +:+ region
    +:+ "=1 --nworkers " +:+ pretty NWORKERS
    +:+ " --nthreads " +:+ pretty THREADS +:+ " --no-dashboard" ].

(** The container ports of [portMappings]. *)
Definition portMappings (NWORKERS : Z) : list Z :=
  (λ x, 9000 + x)%Z <$> keys (NWORKERS * 2).

(** [Port.tcpRange(9000, 9000 + NWORKERS * 2 - 1)], the range of both
    ingress rules of the worker security group. *)
Definition ingressRange (NWORKERS : Z) : Z * Z := (9000, 9000 + NWORKERS * 2 - 1)%Z.

(** The ranges the command passes as [--worker-port] and
    [--nanny-port]. *)
Definition workerPorts (NWORKERS : Z) : Z * Z := (9000, 9000 + NWORKERS - 1)%Z.
Definition nannyPorts (NWORKERS : Z) : Z * Z :=
  (9000 + NWORKERS, 9000 + NWORKERS * 2 - 1)%Z.

Definition within (r : Z * Z) (p : Z) : Prop := (r.1 ≤ p ≤ r.2)%Z.

End DaskWorkers.

(** A creation order of the constructs of [s] in which every construct
    comes after the constructs of [s] it depends on, by [addDependsOn]
    or by reading one of their attributes. *)
Fixpoint respectsNeeds (s : Stack) (seen : list string) (ks : list Construct) : Prop :=
  match ks with
  | [] => True
  | k :: rest =>
      Forall (λ d, d ∈ seen) (constructDeps s k) ∧ respectsNeeds s (seen ++ [cid k]) rest
  end.

(** ** The program returns the normal form, or throws *)

Lemma sync_new_some id env c w vpc lustre s :
  SyncLustreToOpenSearch.new id env c w vpc lustre = Some s →
  s = syncStackWith id env c (bucketOf w) vpc lustre.
Proof.
  unfold SyncLustreToOpenSearch.new, SyncLustreToOpenSearch.setupOpenSearchUpdates,
    bucketOf, syncStackWith.
  destruct (split "/" (dataset w) !! 2) as [b|]; [|discriminate].
  intros [= <-]. reflexivity.
Qed.

Lemma sync_new_is_some id env c w vpc lustre :
  is_Some (SyncLustreToOpenSearch.new id env c w vpc lustre)
  ↔ is_Some (split "/" (dataset w) !! 2).
Proof.
  unfold SyncLustreToOpenSearch.new, SyncLustreToOpenSearch.setupOpenSearchUpdates.
  destruct (split "/" (dataset w) !! 2) as [b|]; split; intros [? H]; eauto; discriminate.
Qed.

Lemma syncStack_some c ws Ws x l :
  syncStack c ws Ws x = Some l → l = syncStackAt c ws Ws x.
Proof.
  unfold syncStack, syncStackAt.
  destruct (ws !! x) as [wx|]; [|discriminate].
  destruct (Ws !! x) as [Wx|]; [|discriminate].
  destruct (SyncLustreToOpenSearch.new _ _ _ _ _ _) as [s|] eqn:E; [|discriminate].
  apply sync_new_some in E as ->. intros [= <-]. reflexivity.
Qed.

Lemma round_some c ws Ws index x l :
  round c ws Ws index x = Some l →
  l = (slice (x + 1) (length index) index ≫= pairStacks ws Ws x) ++ syncStackAt c ws Ws x.
Proof.
  unfold round. destruct (syncStack c ws Ws x) as [s|] eqn:E; [|discriminate].
  apply syncStack_some in E as ->. intros [= <-]. reflexivity.
Qed.

Lemma mapM_some_bind {A B} (f : A → option (list B)) (g : A → list B) l r :
  (∀ x y, f x = Some y → y = g x) → mapM f l = Some r → mjoin r = l ≫= g.
Proof.
  intros Hf H. apply mapM_Some in H.
  induction H as [|x y l r Hx _ IH]; [reflexivity|].
  cbn [mjoin list_join mbind list_bind]. rewrite (Hf _ _ Hx). f_equal. exact IH.
Qed.

(** What the program returns is the normal form, and its stacks have
    pairwise distinct ids. *)
Lemma app_some azs c ws a : app azs c ws = Some a → a = stacksOf azs c ws.
Proof.
  unfold app, stacksOf, distinctIds.
  destruct (mapM _ _) as [rounds|] eqn:E; [|discriminate].
  case_decide; [|discriminate].
  intros [= <-]. do 2 f_equal.
  eapply mapM_some_bind; [|exact E].
  intros x y. apply round_some.
Qed.

Lemma app_distinct_ids azs c ws a : app azs c ws = Some a → NoDup (sid <$> a).
Proof.
  unfold app, distinctIds.
  destruct (mapM _ _) as [rounds|]; [|discriminate].
  case_decide; [|discriminate]. by intros [= <-].
Qed.

Lemma rounds_is_some azs c ws :
  let CS := ClientRegion.new azs "Client-Region" (region c) (cidr c) ws in
  let Ws := newWorker azs c CS <$> ws in
  is_Some (mapM (round c ws Ws (seq 0 (length ws))) (seq 0 (length ws)))
  ↔ ∀ w, w ∈ ws → is_Some (split "/" (dataset w) !! 2).
Proof.
  intros CS Ws.
  rewrite mapM_is_Some, Forall_forall. split.
  - intros H w Hw. apply list_elem_of_lookup in Hw as [x Hx].
    assert (Hin : x ∈ seq 0 (length ws)).
    { apply elem_of_seq. apply lookup_lt_Some in Hx. lia. }
    specialize (H x Hin). unfold compose, round, syncStack in H.
    subst Ws. rewrite list_lookup_fmap, Hx in H. cbn [fmap option_fmap option_map] in H.
    destruct (SyncLustreToOpenSearch.new _ _ _ _ _ _) as [s|] eqn:E.
    + eapply sync_new_is_some. rewrite E. eauto.
    + destruct H as [? H]. discriminate.
  - intros H x Hin. apply elem_of_seq in Hin.
    destruct (lookup_lt_is_Some_2 ws x) as [w Hx]; [lia|].
    unfold compose, round, syncStack. subst Ws.
    rewrite list_lookup_fmap, Hx. cbn [fmap option_fmap option_map].
    destruct (proj2 (sync_new_is_some ("ZyncLustreToOpenSearch-" +:+ region w) (region w)
                      c w (WorkerRegion.vpc (newWorker azs c CS w))
                      (WorkerRegion.lustre (newWorker azs c CS w)))
                (H w (list_elem_of_lookup_2 _ _ _ Hx))) as [s ->].
    eauto.
Qed.

(** The program returns exactly when each data set has a third piece
    and no two stacks get the same id. *)
Lemma app_is_some azs c ws :
  is_Some (app azs c ws)
  ↔ (∀ w, w ∈ ws → is_Some (split "/" (dataset w) !! 2))
    ∧ NoDup (sid <$> stacksOf azs c ws).
Proof.
  split.
  - intros [a Ha]. split.
    + apply (rounds_is_some azs c ws). unfold app in Ha.
      destruct (mapM _ _) as [rounds|]; [eauto|discriminate].
    + pose proof (app_some _ _ _ _ Ha) as <-. by eapply app_distinct_ids.
  - intros [Hw Hnd]. apply (rounds_is_some azs c ws) in Hw as [rounds E].
    assert (Hj : mjoin rounds
                 = seq 0 (length ws) ≫= λ x,
                     (slice (x + 1) (length (seq 0 (length ws))) (seq 0 (length ws))
                        ≫= pairStacks ws
                             (newWorker azs c
                                (ClientRegion.new azs "Client-Region" (region c) (cidr c) ws)
                              <$> ws) x)
                     ++ syncStackAt c ws
                          (newWorker azs c
                             (ClientRegion.new azs "Client-Region" (region c) (cidr c) ws)
                           <$> ws) x).
    { eapply mapM_some_bind; [|exact E]. intros x y. apply round_some. }
    unfold app. rewrite E, Hj. unfold distinctIds.
    rewrite decide_True by exact Hnd. eauto.
Qed.

Lemma app_returns azs c ws :
  (∀ w, w ∈ ws → is_Some (split "/" (dataset w) !! 2)) →
  NoDup (sid <$> stacksOf azs c ws) →
  app azs c ws = Some (stacksOf azs c ws).
Proof.
  intros Hw Hnd. destruct (proj2 (app_is_some azs c ws) (conj Hw Hnd)) as [a Ha].
  rewrite Ha. f_equal. by apply app_some.
Qed.

Lemma app_shipped : app defaultAzs client workers = Some shipped.
Proof. reflexivity. Qed.

Lemma shipped_stacks : shipped = stacksOf defaultAzs client workers.
Proof. apply app_some. exact app_shipped. Qed.

(** * Proofs *)

(** List lemmas used to read the loops. *)
Lemma fmap_bind_ext {A B C} (g : B → C) (f : A → list B) (h : A → list C) (l : list A) :
  (∀ x, g <$> f x = h x) → g <$> (l ≫= f) = l ≫= h.
Proof.
  intros E. induction l as [|x l IH]; [done|].
  cbn. rewrite fmap_app, E. f_equal. exact IH.
Qed.

Lemma fmap_fmap_ext {A B C} (g : B → C) (f : A → B) (h : A → C) (l : list A) :
  (∀ x, g (f x) = h x) → g <$> (f <$> l) = h <$> l.
Proof.
  intros E. induction l as [|x l IH]; [done|]. cbn. rewrite E. f_equal. exact IH.
Qed.

Lemma bind_ext_in {A B} (f g : A → list B) (l : list A) :
  (∀ x, x ∈ l → f x = g x) → l ≫= f = l ≫= g.
Proof.
  induction l as [|x l IH]; intros E; [done|].
  cbn. rewrite E by left. f_equal. apply IH. intros y Hy. apply E. by right.
Qed.

Lemma bind_bind {A B C} (f : A → list B) (g : B → list C) (l : list A) :
  (l ≫= f) ≫= g = l ≫= λ x, f x ≫= g.
Proof.
  induction l as [|x l IH]; [done|]. cbn. rewrite bind_app. f_equal. exact IH.
Qed.

Lemma app_eq {A} (l1 l2 k1 k2 : list A) : l1 = k1 → l2 = k2 → l1 ++ l2 = k1 ++ k2.
Proof. by intros -> ->. Qed.

Lemma cons_eq {A} (x y : A) (l k : list A) : x = y → l = k → x :: l = y :: k.
Proof. by intros -> ->. Qed.

Lemma omap_fmap_none {A B C} (f : B → option C) (g : A → B) (l : list A) :
  (∀ x, f (g x) = None) → omap f (g <$> l) = [].
Proof.
  intros E. induction l as [|x l IH]; [done|]. cbn. rewrite E. exact IH.
Qed.

(** Settles a decidable closed statement by evaluation. *)
Ltac decide_now := refine (bool_decide_unpack _ _); vm_compute; exact I.

Ltac dec_refl :=
  repeat match goal with
         | |- context [decide (?x = ?x)] =>
             rewrite (decide_True (P := x = x)) by reflexivity
         end.

(** Decides whether a call accepts an attachment. *)
Ltac accept_dec :=
  repeat match goal with
         | |- context [decide (acceptsAttachment ?p ?call)] =>
             first
               [ rewrite (decide_True (P := acceptsAttachment p call))
                   by (repeat split)
               | rewrite (decide_False (P := acceptsAttachment p call))
                   by (intros (H1 & H2 & _); cbn in H1, H2; discriminate) ]
         end.

(** Evaluates the description of one construct. *)
Ltac eval_items :=
  repeat (cbn -[String.append]; dec_refl; accept_dec; rewrite ?omap_app;
          try (rewrite omap_fmap_none by (intros; reflexivity)));
  try reflexivity.

(** Compares two lists built from explicit items and loop segments. *)
Ltac split_items :=
  rewrite ?fmap_app, <- ?app_assoc; cbn [fmap list_fmap app];
  repeat first
    [ apply cons_eq; [eval_items|]
    | apply app_eq
    | apply fmap_bind_ext; intros ?
    | apply fmap_fmap_ext; intros ?; eval_items
    | reflexivity ].

Section Triangle.
Context {A B : Type} (pair : A → A → list B) (each : A → list B).

Lemma bind_seq_shift (g : nat → list B) j n :
  seq (S j) n ≫= g = seq j n ≫= λ i, g (S i).
Proof.
  revert j. induction n as [|n IH]; intros j; [done|].
  cbn. f_equal. apply IH.
Qed.

Lemma bind_seq_lookup (g : A → list B) (l : list A) :
  seq 0 (length l) ≫= atIndex g l = l ≫= g.
Proof.
  induction l as [|a r IH]; [done|].
  cbn [length seq mbind list_bind]. rewrite bind_seq_shift. cbn. f_equal. exact IH.
Qed.

Lemma triangle_index (l : list A) :
  seq 0 (length l) ≫= (λ x,
     (seq (S x) (length l - S x) ≫= atPair pair l x) ++ atIndex each l x)
  = triangle pair each l.
Proof.
  induction l as [|a r IH]; [done|].
  cbn [length seq mbind list_bind triangle].
  rewrite <- app_assoc. apply app_eq; [|apply app_eq; [reflexivity|]].
  - replace (S (length r) - 1) with (length r) by lia. rewrite bind_seq_shift.
    rewrite <- (bind_seq_lookup (pair a) r).
    apply bind_ext_in. intros y _. reflexivity.
  - rewrite bind_seq_shift, <- IH. apply bind_ext_in. intros x _.
    apply app_eq; [|reflexivity].
    replace (S (length r) - S (S x)) with (length r - S x) by lia.
    rewrite bind_seq_shift. apply bind_ext_in. intros y _. reflexivity.
Qed.

Lemma elem_of_triangle (l : list A) (z : B) :
  z ∈ triangle pair each l ↔
    (∃ i j a b, i < j ∧ l !! i = Some a ∧ l !! j = Some b ∧ z ∈ pair a b)
    ∨ (∃ a, a ∈ l ∧ z ∈ each a).
Proof.
  induction l as [|a r IH].
  - cbn. split; [by intros ?%elem_of_nil|].
    intros [(i & j & ? & ? & _ & H & _)|(? & H%elem_of_nil & _)]; [|done].
    by rewrite lookup_nil in H.
  - cbn [triangle]. rewrite !elem_of_app, list_elem_of_bind, IH. split.
    + intros [(b & Hz & Hb)|[Hz|[(i & j & a' & b' & Hij & Hi & Hj & Hz)|(a' & Ha & Hz)]]].
      * apply list_elem_of_lookup in Hb as [j Hj].
        left. exists 0, (S j), a, b. split; [lia|]. done.
      * right. exists a. split; [left|done].
      * left. exists (S i), (S j), a', b'. split; [lia|]. done.
      * right. exists a'. split; [by right|done].
    + intros [(i & j & a' & b' & Hij & Hi & Hj & Hz)|(a' & Ha & Hz)].
      * destruct j as [|j]; [lia|]. cbn in Hj. destruct i as [|i].
        -- cbn in Hi. injection Hi as ->. left. exists b'. split; [done|].
           by apply list_elem_of_lookup_2 in Hj.
        -- cbn in Hi. right. right. left. exists i, j, a', b'. split; [lia|]. done.
      * apply elem_of_cons in Ha as [->|Ha]; [by right; left|].
        right. right. right. by exists a'.
Qed.

(** Blocks that come from different places share no element. *)
Lemma NoDup_triangle (l : list A) :
  (∀ i j a b, i < j → l !! i = Some a → l !! j = Some b → NoDup (pair a b)) →
  (∀ a, a ∈ l → NoDup (each a)) →
  (∀ i j i' j' a b a' b' z,
     i < j → i' < j' →
     l !! i = Some a → l !! j = Some b → l !! i' = Some a' → l !! j' = Some b' →
     z ∈ pair a b → z ∈ pair a' b' → i = i' ∧ j = j') →
  (∀ i i' a a' z, l !! i = Some a → l !! i' = Some a' → z ∈ each a → z ∈ each a' → i = i') →
  (∀ a b a' z, a ∈ l → b ∈ l → a' ∈ l → z ∈ pair a b → z ∉ each a') →
  NoDup l →
  NoDup (triangle pair each l).
Proof.
  induction l as [|a r IH]; intros Hp He Hpp Hee Hpe Hl; [constructor|].
  apply NoDup_cons in Hl as [Hnotin Hr].
  cbn [triangle]. apply NoDup_app. split; [|split].
  - apply NoDup_bind.
    + intros b1 b2 z [j1 H1]%list_elem_of_lookup [j2 H2]%list_elem_of_lookup Hz1 Hz2.
      destruct (Hpp 0 (S j1) 0 (S j2) a b1 a b2 z) as [_ E]; try done; try lia.
      injection E as ->. congruence.
    + intros b [j Hj]%list_elem_of_lookup. apply (Hp 0 (S j)); [lia|done|done].
    + exact Hr.
  - intros z (b & Hz & Hb)%list_elem_of_bind [Hz'|Hz']%elem_of_app.
    + revert Hz'. apply (Hpe a b a); [left|by right|left|done].
    + apply elem_of_triangle in Hz' as [(i & j & a' & b' & Hij & Hi & Hj & Hz')|(a' & Ha & Hz')].
      * apply list_elem_of_lookup in Hb as [jb Hjb].
        destruct (Hpp 0 (S jb) (S i) (S j) a b a' b' z); try done; lia.
      * revert Hz'. apply (Hpe a b a'); [left|by right|by right|done].
  - apply NoDup_app. split; [|split].
    + apply He. left.
    + intros z Hz Hz'.
      apply elem_of_triangle in Hz' as [(i & j & a' & b' & Hij & Hi & Hj & Hz')|(a' & Ha & Hz')].
      * revert Hz. apply (Hpe a' b' a); [right|right|left|done];
          by eapply list_elem_of_lookup_2.
      * apply list_elem_of_lookup in Ha as [i Hi].
        specialize (Hee 0 (S i) a a' z). cbn in Hee. discriminate Hee; done.
    + apply IH.
      * intros i j a1 b1 ? ? ?. apply (Hp (S i) (S j)); [lia|done|done].
      * intros; apply He; by right.
      * intros i j i' j' a1 b1 a2 b2 z ? ? ? ? ? ? ? ?.
        destruct (Hpp (S i) (S j) (S i') (S j') a1 b1 a2 b2 z); try done; lia.
      * intros i i' a1 a2 z ? ? ? ?.
        specialize (Hee (S i) (S i') a1 a2 z). cbn in Hee. 
        assert (S i = S i') by (apply Hee; done). lia.
      * intros a1 b1 a2 z ? ? ? ?. apply (Hpe a1 b1 a2); try done; by right.
      * exact Hr.
Qed.

End Triangle.

Section Summaries.
Context (azs : string → nat) (c : IClient) (ws : list IWorker).

Let clientStack := ClientRegion.new azs "Client-Region" (region c) (cidr c) ws.

Lemma summary_client :
  stackSummary (ClientRegion.stack clientStack) = clientItems azs c ws.
Proof.
  unfold stackSummary, clientItems.
  cbn [ClientRegion.stack clientStack ClientRegion.new constructs].
  unfold ClientRegion.setupEnvironment, ClientRegion.setupOpenSearch.
  split_items.
Qed.

Lemma summary_worker w :
  workerStacks azs c clientStack w ≫= stackSummary = workerAll azs c w.
Proof.
  unfold workerAll.
  unfold workerStacks. cbn [mbind list_bind]. rewrite app_nil_r.
  apply app_eq; [|apply app_eq].
  - unfold stackSummary, workerItems.
    cbn [newWorker workerAddDependency WorkerRegion.stack WorkerRegion.new addDependency
         constructs].
    unfold WorkerRegion.setupEnvironment, WorkerRegion.acceptRequest,
      WorkerRegion.setupRegionalLustre.
    split_items.
  - unfold stackSummary, workerRouteItems.
    cbn [WorkerRegionTransitGatewayRoute.new addDependency constructs]. split_items.
  - unfold stackSummary, clientRouteItems.
    cbn [ClientToWorkerTransitGatewayRoute.new addDependency constructs]. split_items.
Qed.


Lemma pairStacks_lookup x y wx wy :
  ws !! x = Some wx → ws !! y = Some wy →
  pairStacks ws (newWorker azs c clientStack <$> ws) x y = pairStacksOf azs c clientStack wx wy.
Proof.
  intros Hx Hy. unfold pairStacks. rewrite !list_lookup_fmap, Hx, Hy. reflexivity.
Qed.

Lemma summary_pair wx wy :
  pairStacksOf azs c clientStack wx wy ≫= stackSummary = pairAll azs wx wy.
Proof.
  unfold pairAll.
  unfold pairStacksOf. cbn [mbind list_bind]. rewrite app_nil_r.
  apply app_eq; [|apply app_eq].
  - unfold stackSummary, pairItems.
    cbn [WorkerToWorkerTGW.stack WorkerToWorkerTGW.new constructs].
    unfold WorkerToWorkerTGW.acceptRequest.
    split_items.
    case_decide as E; [apply (inj _) in E; rewrite E|]; reflexivity.
  - unfold stackSummary, pairRouteItems.
    cbn [WorkerRegionTransitGatewayRoute.new addDependency constructs]. split_items.
  - unfold stackSummary, interRegionItems.
    cbn [InterRegionTransitGatewayRoute.new addDependency constructs].
    split_items.
Qed.

Lemma summary_sync x wx :
  ws !! x = Some wx →
  syncStackAt c ws (newWorker azs c clientStack <$> ws) x ≫= stackSummary = syncItems c wx.
Proof.
  intros Hx. unfold syncStackAt. rewrite list_lookup_fmap, Hx.
  cbn [fmap option_fmap option_map mbind list_bind]. rewrite app_nil_r.
  unfold stackSummary, syncItems.
  unfold syncStackWith. cbn [constructs].
  unfold SyncLustreToOpenSearch.updates. split_items.
Qed.

(** The inner loop visits the indices after [x]. *)
Lemma slice_index x n :
  slice (x + 1) (length (seq 0 n)) (seq 0 n) = seq (S x) (n - S x).
Proof.
  unfold slice. rewrite length_seq, drop_seq, Nat.add_1_r.
  apply take_ge. rewrite length_seq. lia.
Qed.



(** The items of the application, loop by loop. *)
Lemma summary_app :
  summary (stacksOf azs c ws)
  = clientItems azs c ws ++ (ws ≫= workerAll azs c)
    ++ triangle (pairAll azs) (syncItems c) ws.
Proof.
  unfold summary, stacksOf. fold clientStack.
  rewrite !bind_app. cbn [mbind list_bind]. rewrite app_nil_r.
  rewrite summary_client. apply app_eq; [reflexivity|]. apply app_eq.
  - rewrite bind_bind. apply bind_ext_in. intros w _. apply summary_worker.
  - rewrite bind_bind, <- triangle_index. apply bind_ext_in. intros x Hx.
    apply elem_of_seq in Hx.
    destruct (lookup_lt_is_Some_2 ws x) as [wx Hwx]; [lia|].
    rewrite bind_app, slice_index. apply app_eq.
    + rewrite bind_bind. apply bind_ext_in. intros y Hy.
      apply elem_of_seq in Hy.
      destruct (lookup_lt_is_Some_2 ws y) as [wy Hwy]; [lia|].
      rewrite (pairStacks_lookup x y wx wy Hwx Hwy).
      unfold atPair. rewrite Hwx, Hwy. apply summary_pair.
    + unfold atIndex. rewrite Hwx. by apply summary_sync.
Qed.

End Summaries.

(** ** The lists read off the summary *)

Lemma omap_bind {A B C} (f : B → option C) (g : A → list B) (l : list A) :
  omap f (l ≫= g) = l ≫= λ x, omap f (g x).
Proof.
  induction l as [|x l IH]; [done|]. cbn. rewrite omap_app. f_equal. exact IH.
Qed.

Lemma omap_triangle {A B C} (f : B → option C) (pair : A → A → list B)
    (each : A → list B) (l : list A) :
  omap f (triangle pair each l)
  = triangle (λ a b, omap f (pair a b)) (λ a, omap f (each a)) l.
Proof.
  induction l as [|a r IH]; [done|].
  cbn [triangle]. rewrite !omap_app, omap_bind. by rewrite IH.
Qed.

Lemma triangle_ext {A B} (p p' : A → A → list B) (e e' : A → list B) (l : list A) :
  (∀ a b, p a b = p' a b) → (∀ a, e a = e' a) → triangle p e l = triangle p' e' l.
Proof.
  intros Hp He. induction l as [|a r IH]; [done|].
  cbn [triangle]. rewrite He, IH. f_equal. apply bind_ext_in. intros; apply Hp.
Qed.

Lemma omap_fmap_some {A B C} (f : B → option C) (g : A → B) (h : A → C) (l : list A) :
  (∀ x, f (g x) = Some (h x)) → omap f (g <$> l) = h <$> l.
Proof.
  intros E. induction l as [|x l IH]; [done|]. cbn. rewrite E. cbn. f_equal. exact IH.
Qed.

Lemma bind_singleton {A B} (f : A → B) (l : list A) : l ≫= (λ x, [f x]) = f <$> l.
Proof. induction l as [|x l IH]; [done|]. cbn. by f_equal. Qed.

Lemma bind_nil {A B} (l : list A) : l ≫= (λ _, @nil B) = [].
Proof. induction l as [|x l IH]; [done|]. exact IH. Qed.

Lemma bind_none {A B} (f : A → list B) (l : list A) : (∀ x, f x = []) → l ≫= f = [].
Proof. intros E. induction l as [|x l IH]; [done|]. cbn. by rewrite E, IH. Qed.

Lemma triangle_nil {A B} (l : list A) : triangle (λ _ _, @nil B) (λ _, []) l = [].
Proof.
  induction l as [|a r IH]; [done|]. cbn [triangle]. by rewrite bind_nil, IH.
Qed.

(** Reads a selection off an explicit list of items. *)
Ltac omap_items :=
  rewrite ?omap_app;
  repeat first
    [ rewrite omap_fmap_none by (intros; reflexivity)
    | erewrite omap_fmap_some by (intros; reflexivity)
    | rewrite omap_bind
    | rewrite bind_none by (intros; by apply omap_fmap_none) ];
  cbn [omap list_omap app]; cbn -[String.append];
  rewrite ?app_nil_r, <- ?app_assoc; try reflexivity.

Section Lists.
Context (azs : string → nat) (c : IClient) (ws : list IWorker).

Lemma links_app :
  links (stacksOf azs c ws)
  = ((λ w : IWorker, clientLink c w) <$> ws)
    ++ triangle (λ wx wy : IWorker, [pairLink wx wy]) none ws.
Proof.
  unfold links. rewrite summary_app, !omap_app, omap_bind, omap_triangle.
  replace (omap asLink (clientItems azs c ws)) with (@nil Link).
  2:{ unfold clientItems. omap_items. }
  rewrite app_nil_l. apply app_eq.
  - rewrite <- bind_singleton. apply bind_ext_in. intros w _.
    unfold workerAll, workerItems, workerRouteItems, clientRouteItems. omap_items.
  - apply triangle_ext.
    + intros wx wy.
      unfold pairAll, pairItems, pairRouteItems, interRegionItems. omap_items.
    + intros w. reflexivity.
Qed.

Lemma published_app :
  published (stacksOf azs c ws)
  = clientKeys c ++ (ws ≫= workerKeys) ++ triangle pairKeys (syncKeys c) ws.
Proof.
  unfold published. rewrite summary_app, !omap_app, omap_bind, omap_triangle.
  apply app_eq; [|apply app_eq].
  - unfold clientItems. omap_items.
  - apply bind_ext_in. intros w _.
    unfold workerAll, workerItems, workerRouteItems, clientRouteItems. omap_items.
  - apply triangle_ext.
    + intros wx wy.
      unfold pairAll, pairItems, pairRouteItems, interRegionItems. omap_items.
    + intros w. reflexivity.
Qed.

Lemma gateways_app :
  gateways (stacksOf azs c ws)
  = (region c, clientTgw) :: ((λ w : IWorker, (region w, workerTgw w)) <$> ws).
Proof.
  unfold gateways. rewrite summary_app, !omap_app, omap_bind, omap_triangle.
  replace (omap asGateway (clientItems azs c ws)) with [(region c, clientTgw)].
  2:{ unfold clientItems. omap_items. }
  change (?x :: ?l) with ([x] ++ l). apply app_eq; [reflexivity|].
  rewrite (triangle_ext _ (λ _ _, []) _ (λ _, [])), triangle_nil, app_nil_r.
  - rewrite <- bind_singleton. apply bind_ext_in. intros w _.
    unfold workerAll, workerItems, workerRouteItems, clientRouteItems. omap_items.
  - intros wx wy.
    unfold pairAll, pairItems, pairRouteItems, interRegionItems. omap_items.
  - intros w. reflexivity.
Qed.

Lemma routes_app :
  routes (stacksOf azs c ws)
  = clientRoutes azs c ws ++ (ws ≫= workerRoutes azs c)
    ++ triangle (pairRoutes azs) none ws.
Proof.
  unfold routes. rewrite summary_app, !omap_app, omap_bind, omap_triangle.
  apply app_eq; [|apply app_eq].
  - unfold clientItems, clientRoutes. omap_items.
    apply bind_ext_in. intros w _.
    by apply omap_fmap_some.
  - apply bind_ext_in. intros w _.
    unfold workerAll, workerItems, workerRouteItems, clientRouteItems, workerRoutes.
    omap_items.
  - apply triangle_ext.
    + intros wx wy.
      unfold pairAll, pairItems, pairRouteItems, interRegionItems, pairRoutes.
      omap_items.
    + intros w. reflexivity.
Qed.

End Lists.

(** ** Peering attachments: count, pairs, initiators *)

Lemma fmap_triangle {A B C} (f : B → C) (pair : A → A → list B) (each : A → list B)
    (l : list A) :
  f <$> triangle pair each l = triangle (λ a b, f <$> pair a b) (λ a, f <$> each a) l.
Proof.
  induction l as [|a r IH]; [done|].
  cbn [triangle]. rewrite !fmap_app, IH. f_equal.
  by apply fmap_bind_ext.
Qed.

Lemma length_triangle_single {A B} (g : A → A → B) (l : list A) :
  2 * length (triangle (λ a b, [g a b]) none l) = length l * (length l - 1).
Proof.
  induction l as [|a r IH]; [done|].
  cbn [triangle none]. rewrite bind_singleton, app_nil_l, length_app, length_fmap.
  cbn [length]. nia.
Qed.

Lemma lookup_inj_on {A K} (f : A → K) (l : list A) i j a b :
  NoDup (f <$> l) → l !! i = Some a → l !! j = Some b → f a = f b → i = j.
Proof.
  intros Hnd Hi Hj E.
  apply (NoDup_lookup (f <$> l) i j (f a)); [done| |].
  - by rewrite list_lookup_fmap, Hi.
  - by rewrite list_lookup_fmap, Hj, E.
Qed.

Section Peerings.
Context (azs : string → nat) (c : IClient) (ws : list IWorker).

Lemma peeringAttachments_app :
  peeringAttachments (stacksOf azs c ws)
  = ((λ w : IWorker, (region w, region c)) <$> ws)
    ++ triangle (λ wx wy : IWorker, [(region wx, region wy)]) none ws.
Proof.
  unfold peeringAttachments. rewrite links_app, fmap_app, fmap_triangle.
  apply app_eq; [|reflexivity].
  by apply fmap_fmap_ext.
Qed.

Lemma elem_of_peeringAttachments a b :
  (a, b) ∈ peeringAttachments (stacksOf azs c ws) ↔
    (∃ w : IWorker, w ∈ ws ∧ a = region w ∧ b = region c)
    ∨ (∃ i j (wi wj : IWorker),
         i < j ∧ ws !! i = Some wi ∧ ws !! j = Some wj ∧ a = region wi ∧ b = region wj).
Proof.
  rewrite peeringAttachments_app, elem_of_app, list_elem_of_fmap, elem_of_triangle.
  split.
  - intros [(w & E & Hw)|[(i & j & wi & wj & Hij & Hi & Hj & Hz)|(? & _ & []%elem_of_nil)]].
    + left. exists w. by simplify_eq.
    + right. exists i, j, wi, wj. apply list_elem_of_singleton in Hz. by simplify_eq.
  - intros [(w & Hw & -> & ->)|(i & j & wi & wj & Hij & Hi & Hj & -> & ->)].
    + left. by exists w.
    + right. left. exists i, j, wi, wj. repeat split; try done. by left.
Qed.

Lemma peeringAttachments_length :
  length (peeringAttachments (stacksOf azs c ws))
  = length ws + length ws * (length ws - 1) / 2.
Proof.
  rewrite peeringAttachments_app, length_app, length_fmap. f_equal.
  apply Nat.div_unique_exact; [done|].
  symmetry. apply length_triangle_single.
Qed.

End Peerings.

(** C3. Given one client descriptor and an ordered list of N worker
    descriptors, the application declares exactly N + N(N-1)/2 peering
    attachments. When the region identifiers are pairwise distinct, the
    attachments are pairwise distinct as (creating region, peer region)
    pairs, each joins two distinct participating regions, no two join
    the same unordered pair, and every unordered pair of distinct
    participating regions is joined by one. *)
Theorem C3_one_attachment_per_pair (azs : string → nat) (c : IClient) (ws : list IWorker)
    (stacks : list Stack) :
  app azs c ws = Some stacks →
  let P := peeringAttachments stacks in
  length P = length ws + length ws * (length ws - 1) / 2
  ∧ (NoDup (regions c ws) →
     NoDup P
     ∧ (∀ a b, (a, b) ∈ P →
          a ≠ b ∧ a ∈ regions c ws ∧ b ∈ regions c ws ∧ (b, a) ∉ P)
     ∧ (∀ a b, a ∈ regions c ws → b ∈ regions c ws → a ≠ b →
          (a, b) ∈ P ∨ (b, a) ∈ P)).
Proof.
  intros ->%app_some P. split; [apply peeringAttachments_length|].
  intros Hnd. unfold regions in Hnd. apply NoDup_cons in Hnd as [Hc Hws].
  assert (Hclient : ∀ w : IWorker, w ∈ ws → region w ≠ region c).
  { intros w Hw E. apply Hc. rewrite <- E.
    apply list_elem_of_fmap. by exists w. }
  assert (Hlk : ∀ i (w : IWorker), ws !! i = Some w → w ∈ ws).
  { intros i w. apply list_elem_of_lookup_2. }
  split; [|split].
  - unfold P. rewrite peeringAttachments_app. apply NoDup_app. split; [|split].
    + apply NoDup_fmap_2_strong; [|by apply NoDup_fmap_1 in Hws].
      intros x y [i Hi]%list_elem_of_lookup [j Hj]%list_elem_of_lookup E.
      injection E as E.
      assert (i = j) by (by eapply (lookup_inj_on (λ w : IWorker, region w))).
      congruence.
    + intros z (w & -> & Hw)%list_elem_of_fmap Hz.
      apply elem_of_triangle in Hz
        as [(i & j & wi & wj & _ & _ & Hj & Hz)|(? & _ & []%elem_of_nil)].
      apply list_elem_of_singleton in Hz. injection Hz as _ E.
      by apply (Hclient wj); [eapply Hlk|].
    + apply NoDup_triangle.
      * intros; apply NoDup_singleton.
      * intros; constructor.
      * intros i j i' j' a b a' b' z _ _ Hi Hj Hi' Hj'
          ->%list_elem_of_singleton E%list_elem_of_singleton.
        injection E as E1 E2. split.
        -- by eapply (lookup_inj_on (λ w : IWorker, region w)).
        -- by eapply (lookup_inj_on (λ w : IWorker, region w)).
      * intros ? ? ? ? ? _ _ []%elem_of_nil.
      * intros ? ? ? ? _ _ _ _ []%elem_of_nil.
      * by apply NoDup_fmap_1 in Hws.
  - intros a b Hab. unfold P in *.
    apply elem_of_peeringAttachments in Hab
      as [(w & Hw & -> & ->)|(i & j & wi & wj & Hij & Hi & Hj & -> & ->)].
    + split; [by apply Hclient|]. split; [|split].
      * right. apply list_elem_of_fmap. by exists w.
      * left.
      * intros [(w' & Hw' & E & _)|(i & j & wi & wj & _ & Hi & _ & E & _)]
          %elem_of_peeringAttachments.
        -- by apply (Hclient w').
        -- by apply (Hclient wi); [eapply Hlk|].
    + split; [|split; [|split]].
      * intros E.
        assert (i = j) by (by eapply (lookup_inj_on (λ w : IWorker, region w))). lia.
      * right. apply list_elem_of_fmap. exists wi. split; [done|by eapply Hlk].
      * right. apply list_elem_of_fmap. exists wj. split; [done|by eapply Hlk].
      * intros [(w' & Hw' & _ & E)|(i' & j' & wi' & wj' & Hij' & Hi' & Hj' & E1 & E2)]
          %elem_of_peeringAttachments.
        -- by apply (Hclient wi); [eapply Hlk|].
        -- assert (j = i') by (by eapply (lookup_inj_on (λ w : IWorker, region w))).
           assert (i = j') by (by eapply (lookup_inj_on (λ w : IWorker, region w))).
           lia.
  - intros a b Ha Hb Hab. unfold P. rewrite !elem_of_peeringAttachments.
    apply elem_of_cons in Ha as [->|(wa & -> & Hwa)%list_elem_of_fmap];
      apply elem_of_cons in Hb as [->|(wb & -> & Hwb)%list_elem_of_fmap].
    + done.
    + right. left. by exists wb.
    + left. left. by exists wa.
    + apply list_elem_of_lookup in Hwa as [i Hi].
      apply list_elem_of_lookup in Hwb as [j Hj].
      destruct (lt_eq_lt_dec i j) as [[Hlt|Heq]|Hgt].
      * left. right. by exists i, j, wa, wb.
      * subst j. rewrite Hi in Hj. by simplify_eq.
      * right. right. by exists j, i, wb, wa.
Qed.

Lemma C3_witness :
  length (peeringAttachments shipped) = 3
  ∧ NoDup (peeringAttachments shipped).
Proof.
  destruct (C3_one_attachment_per_pair defaultAzs client workers shipped eq_refl)
    as [Hlen Hpairs].
  split; [exact Hlen|]. apply Hpairs.
  refine (bool_decide_unpack _ _). vm_compute. exact I.
Defined.

(** C4. The initiator of every peering attachment is fixed by position.
    The links of the application are exactly these: for every worker, a
    link created in the worker's region by the worker's own stack, whose
    peer is the client's region, whose peer gateway is read from the
    client's gateway parameter in the client's region, and whose accept
    call (the one call the custom resource of the creating stack makes
    for this attachment when it is created) is made in the client's
    region; and for all workers at indices
    i < j, a link created in the region of worker i, whose peer is the
    region of worker j, whose peer gateway is read from the gateway
    parameter of worker j in its region, and whose accept call is made
    in the region of worker j. The parameters read are the ones under
    which the client and worker j publish their own gateway. *)
Theorem C4_initiator_by_position (azs : string → nat) (c : IClient) (ws : list IWorker)
    (a : list Stack) :
  app azs c ws = Some a →
  (∀ l, l ∈ links a ↔
     (∃ w : IWorker, w ∈ ws ∧
        l = {| createdIn := region w;
               linkStack := "Worker-Region-" +:+ region w;
               peerRegion := region c;
               peerGateway := Some (region c, "tgw-param-" +:+ region c);
               acceptedIn := [region c] |})
     ∨ (∃ i j (wi wj : IWorker),
          i < j ∧ ws !! i = Some wi ∧ ws !! j = Some wj ∧
          l = {| createdIn := region wi;
                 linkStack :=
                   "TGW-Peer-Region-" +:+ region wi +:+ "-to-" +:+ region wj;
                 peerRegion := region wj;
                 peerGateway := Some (region wj, "tgw-param-" +:+ region wj);
                 acceptedIn := [region wj] |}))
  ∧ ((region c, "tgw-param-" +:+ region c), ref ("Client-Region", "TGW")) ∈ published a
  ∧ (∀ w : IWorker, w ∈ ws →
       ((region w, "tgw-param-" +:+ region w),
        ref ("Worker-Region-" +:+ region w, "TGW")) ∈ published a).
Proof.
  intros ->%app_some. split; [|split].
  - intros l. rewrite links_app, elem_of_app, list_elem_of_fmap, elem_of_triangle.
    split.
    + intros [(w & -> & Hw)|[(i & j & wi & wj & Hij & Hi & Hj & Hz)|(? & _ & []%elem_of_nil)]].
      * left. by exists w.
      * right. exists i, j, wi, wj. apply list_elem_of_singleton in Hz. by subst.
    + intros [(w & Hw & ->)|(i & j & wi & wj & Hij & Hi & Hj & ->)].
      * left. by exists w.
      * right. left. exists i, j, wi, wj. repeat split; try done. by left.
  - rewrite published_app. apply elem_of_app. left. left.
  - intros w Hw. rewrite published_app. apply elem_of_app. right.
    apply elem_of_app. left. apply list_elem_of_bind. exists w. split; [left|done].
Qed.

Lemma C4_witness :
  {| createdIn := "us-east-1";
     linkStack := "TGW-Peer-Region-us-east-1-to-us-west-2";
     peerRegion := "us-west-2";
     peerGateway := Some ("us-west-2", "tgw-param-us-west-2");
     acceptedIn := ["us-west-2"] |} ∈ links shipped.
Proof.
  apply (C4_initiator_by_position defaultAzs client workers shipped eq_refl).
  right. eexists 0, 1, _, _. split; [lia|]. split; [reflexivity|].
  split; reflexivity.
Defined.

(** ** Parameter keys *)

Lemma append_self (s t : string) : s +:+ t = s → t = "".
Proof.
  induction s as [|a s IH]; [done|]. cbn. intros E. injection E as E. by apply IH.
Qed.

Lemma elem_eq_on {A K} (f : A → K) (l : list A) a b :
  NoDup (f <$> l) → a ∈ l → b ∈ l → f a = f b → a = b.
Proof.
  intros Hnd [i Hi]%list_elem_of_lookup [j Hj]%list_elem_of_lookup E.
  assert (i = j) by (by eapply (lookup_inj_on f)). congruence.
Qed.

(** Membership in an explicit list, case by case. *)
Ltac inv_elem H :=
  repeat first
    [ apply elem_of_nil in H; destruct H
    | apply elem_of_cons in H as [H|H] ].

Lemma append_inv_l (s t u : string) : s +:+ t = s +:+ u → t = u.
Proof.
  induction s as [|a s IH]; [done|]. cbn. intros E. injection E as E. by apply IH.
Qed.

Lemma append_cons (a : ascii) (s t : string) : String a s +:+ t = String a (s +:+ t).
Proof. reflexivity. Qed.

Lemma append_nil_r (s : string) : s +:+ "" = s.
Proof. induction s as [|a s IH]; [done|]. by rewrite append_cons, IH. Qed.




(** Pairwise distinct regions give every parameter its own (region, key)
    slot of the exchange. *)
Lemma published_slots (azs : string → nat) (c : IClient) (ws : list IWorker) :
  NoDup (regions c ws) → NoDup (published (stacksOf azs c ws)).*1.
Proof.
  intros Hnd. unfold regions in Hnd. apply NoDup_cons in Hnd as [Hc Hws].
  assert (Hclient : ∀ w : IWorker, w ∈ ws → region w ≠ region c).
  { intros w Hw E. apply Hc. rewrite <- E. apply list_elem_of_fmap. by exists w. }
  assert (Hlk : ∀ i (w : IWorker), ws !! i = Some w → w ∈ ws).
  { intros i w. apply list_elem_of_lookup_2. }
  assert (Hinj : ∀ i j (a b : IWorker),
             ws !! i = Some a → ws !! j = Some b → region a = region b → i = j).
  { intros. by eapply (lookup_inj_on (λ w : IWorker, region w)). }
  rewrite published_app, !fmap_app, fmap_triangle.
  rewrite (fmap_bind_ext _ _ (λ w : IWorker, (workerKeys w).*1)) by done.
  unfold clientKeys, workerKeys, pairKeys, syncKeys, gatewayKey, clientLinkKey,
    pairLinkKey.
  apply NoDup_app. split; [|split].
  - cbn. repeat (apply NoDup_cons; split;
                 [rewrite ?not_elem_of_cons; repeat split;
                  try apply not_elem_of_nil; intros E; by simplify_eq/=|]).
    constructor.
  - intros z Hz [Hw|Ht]%elem_of_app.
    + apply list_elem_of_bind in Hw as (w & Hw & Hin).
      cbn in Hz, Hw. inv_elem Hz; inv_elem Hw; subst z;
        injection Hw as Hw _; by apply (Hclient w).
    + apply elem_of_triangle in Ht
        as [(i & j & wi & wj & _ & Hi & _ & Hz')|(w & Hw & Hz')];
        cbn in Hz, Hz'; inv_elem Hz; inv_elem Hz'; subst z;
        injection Hz' as Hz' _;
        first [by apply (Hclient wi); [eapply Hlk|] | by apply (Hclient w)].
  - apply NoDup_app. split; [|split].
    + apply NoDup_bind.
      * intros w1 w2 z H1 H2 Hz1 Hz2.
        apply (elem_eq_on (λ w : IWorker, region w) ws); try done.
        cbn in Hz1, Hz2. inv_elem Hz1; inv_elem Hz2; subst z; by injection Hz2.
      * intros w _. cbn.
        repeat (apply NoDup_cons; split;
                [rewrite ?not_elem_of_cons; repeat split;
                 try apply not_elem_of_nil; intros E; by simplify_eq/=|]).
        constructor.
      * by apply NoDup_fmap_1 in Hws.
    + intros z (w & Hz & Hw)%list_elem_of_bind Ht.
      apply elem_of_triangle in Ht
        as [(i & j & wi & wj & _ & Hi & _ & Hz')|(w' & Hw' & Hz')];
        cbn in Hz, Hz'; inv_elem Hz; inv_elem Hz'; subst z; simplify_eq/=.
      match goal with
      | E1 : ?r = ?s, E2 : ?r = ?s +:+ _ |- _ =>
          rewrite E1 in E2; symmetry in E2; apply append_self in E2; discriminate E2
      end.
    + apply NoDup_triangle.
      * intros; apply NoDup_singleton.
      * intros w _. cbn.
        repeat (apply NoDup_cons; split;
                [rewrite ?not_elem_of_cons; repeat split;
                 try apply not_elem_of_nil; intros E; by simplify_eq/=|]).
        constructor.
      * intros i j i' j' a b a' b' z _ _ Hi Hj Hi' Hj' Hz Hz'.
        cbn in Hz, Hz'. inv_elem Hz; inv_elem Hz'; subst z.
        injection Hz' as E1 E2. split; [by eapply Hinj|].
        rewrite E1 in E2. cbn in E2. simplify_eq.
        by eapply Hinj.
      * intros i i' a a' z Hi Hi' Hz Hz'.
        cbn in Hz, Hz'. inv_elem Hz; inv_elem Hz'; subst z;
          injection Hz' as E1 _; by eapply Hinj.
      * intros a b a' z _ _ _ Hz Hz'.
        cbn in Hz, Hz'. inv_elem Hz; inv_elem Hz'; subst z; by simplify_eq/=.
      * by apply NoDup_fmap_1 in Hws.
Qed.



(** ** Route entries *)

Section RouteKeys.
Context (azs : string → nat) (c : IClient) (ws : list IWorker).

Lemma routeKeys_app :
  routeKeys (stacksOf azs c ws)
  = (routeKey <$> clientRoutes azs c ws)
    ++ (ws ≫= λ w, routeKey <$> workerRoutes azs c w)
    ++ triangle (λ wx wy, routeKey <$> pairRoutes azs wx wy) none ws.
Proof.
  unfold routeKeys. rewrite routes_app, !fmap_app, fmap_triangle.
  apply app_eq; [reflexivity|]. apply app_eq; [|reflexivity].
  by apply fmap_bind_ext.
Qed.

Lemma elem_of_clientRouteKeys z :
  z ∈ routeKey <$> clientRoutes azs c ws ↔
    ∃ (w : IWorker) i, w ∈ ws ∧ i < azs (region c) ∧ z = (SubnetTable clientVpc i, cidr w).
Proof.
  unfold clientRoutes. rewrite list_elem_of_fmap. split.
  - intros (r & -> & (w & (i & -> & Hi%elem_of_seq)%list_elem_of_fmap & Hw)%list_elem_of_bind).
    exists w, i. repeat split; [done|lia].
  - intros (w & i & Hw & Hi & ->).
    exists (mkSubnetRoute clientVpc (cidr w) (ref clientTgw) None i). split; [done|].
    apply list_elem_of_bind. exists w. split; [|done].
    apply list_elem_of_fmap. exists i. split; [done|]. apply elem_of_seq. lia.
Qed.

Lemma elem_of_workerRouteKeys (w : IWorker) z :
  z ∈ routeKey <$> workerRoutes azs c w ↔
    (∃ i, i < azs (region w) ∧ z = (SubnetTable (workerVpc w) i, cidr c))
    ∨ z = (GatewayTable (ref (workerTgw w)), cidr c)
    ∨ z = (GatewayTable (ref clientTgw), cidr w).
Proof.
  unfold workerRoutes. rewrite fmap_app, elem_of_app.
  cbn [fmap list_fmap]. rewrite list_elem_of_fmap, !elem_of_cons, elem_of_nil. split.
  - intros [(r & -> & (i & -> & Hi%elem_of_seq)%list_elem_of_fmap)|[->|[->|[]]]].
    + left. exists i. split; [lia|done].
    + right. by left.
    + right. by right.
  - intros [(i & Hi & ->)|[->| ->]].
    + left. exists (mkSubnetRoute (workerVpc w) (cidr c) (ref (workerTgw w)) None i).
      split; [done|]. apply list_elem_of_fmap. exists i. split; [done|].
      apply elem_of_seq. lia.
    + right. by left.
    + right. right. by left.
Qed.

Lemma elem_of_pairRouteKeys (wx wy : IWorker) z :
  z ∈ routeKey <$> pairRoutes azs wx wy ↔
    (∃ i, i < azs (region wx) ∧ z = (SubnetTable (workerVpc wx) i, cidr wy))
    ∨ z = (GatewayTable (ref (workerTgw wx)), cidr wy)
    ∨ z = (GatewayTable (ref (workerTgw wy)), cidr wx)
    ∨ (∃ i, i < azs (region wy) ∧ z = (SubnetTable (workerVpc wy) i, cidr wx)).
Proof.
  unfold pairRoutes. rewrite !fmap_app, !elem_of_app.
  cbn [fmap list_fmap]. rewrite !list_elem_of_fmap, !elem_of_cons, elem_of_nil. split.
  - intros [(r & -> & (i & -> & Hi%elem_of_seq)%list_elem_of_fmap)
           |[[->|[->|[]]]|(r & -> & (i & -> & Hi%elem_of_seq)%list_elem_of_fmap)]].
    + left. exists i. split; [lia|done].
    + right. by left.
    + right. right. by left.
    + right. right. right. exists i. split; [lia|done].
  - intros [(i & Hi & ->)|[->|[->|(i & Hi & ->)]]].
    + left. eexists (mkSubnetRoute _ _ _ _ i).
      split; [done|]. apply list_elem_of_fmap. exists i. split; [done|].
      apply elem_of_seq. lia.
    + right. left. by left.
    + right. left. right. by left.
    + right. right. eexists (mkSubnetRoute _ _ _ _ i).
      split; [done|]. apply list_elem_of_fmap. exists i. split; [done|].
      apply elem_of_seq. lia.
Qed.

Lemma NoDup_subnet_keys (vpc : Path) (d : string) (g : Value) k n :
  NoDup (routeKey <$> (mkSubnetRoute vpc d g k <$> seq 0 n)).
Proof.
  rewrite <- list_fmap_compose. apply NoDup_fmap_2; [|apply NoDup_seq].
  intros i j E. by injection E.
Qed.

End RouteKeys.

(** C6. For every configuration with pairwise distinct region
    identifiers and pairwise distinct address blocks, no two route
    entries of the application share their (route table, destination
    block); the tables are those of the private subnets of the regional
    networks and the default tables of the gateways. *)
Theorem C6_one_route_per_table_and_destination
    (azs : string → nat) (c : IClient) (ws : list IWorker) (a : list Stack) :
  app azs c ws = Some a →
  NoDup (regions c ws) → NoDup (cidrs c ws) →
  NoDup (routeKeys a)
  ∧ (∀ z, z ∈ routeKeys a →
       (∃ vpc i, z.1 = SubnetTable vpc i) ∨ (∃ tgw, z.1 = GatewayTable (ref tgw))).
Proof.
  intros ->%app_some Hr Hb. unfold regions in Hr. unfold cidrs in Hb.
  apply NoDup_cons in Hr as [Hrc Hrw]. apply NoDup_cons in Hb as [Hbc Hbw].
  assert (Hbclient : ∀ i (w : IWorker), ws !! i = Some w → cidr w ≠ cidr c).
  { intros i w Hw E. apply Hbc. rewrite <- E. apply list_elem_of_fmap.
    exists w. split; [done|]. by eapply list_elem_of_lookup_2. }
  assert (Hri : ∀ i j (a b : IWorker),
             ws !! i = Some a → ws !! j = Some b → region a = region b → i = j).
  { intros. by eapply (lookup_inj_on (λ w : IWorker, region w)). }
  assert (Hbi : ∀ i j (a b : IWorker),
             ws !! i = Some a → ws !! j = Some b → cidr a = cidr b → i = j).
  { intros. by eapply (lookup_inj_on (λ w : IWorker, cidr w)). }
  assert (Hws : NoDup ws) by (by apply NoDup_fmap_1 in Hrw).
  split.
  - rewrite routeKeys_app. apply NoDup_app. split; [|split].
    + unfold clientRoutes. rewrite (fmap_bind_ext _ _ _ _ (λ _, eq_refl)).
      apply NoDup_bind; [|intros; apply NoDup_subnet_keys|done].
      intros w1 w2 z [i1 H1]%list_elem_of_lookup [i2 H2]%list_elem_of_lookup
        (r1 & -> & (j1 & -> & _)%list_elem_of_fmap)%list_elem_of_fmap
        (r2 & E & (j2 & -> & _)%list_elem_of_fmap)%list_elem_of_fmap.
      injection E as _ E. assert (i1 = i2) by eauto. congruence.
    + intros z (w & i & [iw Hw]%list_elem_of_lookup & _ & ->)%elem_of_clientRouteKeys
        [Hz|Hz]%elem_of_app.
      * apply list_elem_of_bind in Hz as (w' & Hz & [iw' Hw']%list_elem_of_lookup).
        apply elem_of_workerRouteKeys in Hz as [(i' & _ & E)|[E|E]]; simplify_eq/=.
      * apply elem_of_triangle in Hz
          as [(ix & iy & wx & wy & _ & _ & _ & Hz)|(? & _ & []%elem_of_nil)].
        apply elem_of_pairRouteKeys in Hz
          as [(i' & _ & E)|[E|[E|(i' & _ & E)]]]; simplify_eq/=.
    + apply NoDup_app. split; [|split].
      * apply NoDup_bind; [| |done].
        -- intros w1 w2 z [i1 H1]%list_elem_of_lookup [i2 H2]%list_elem_of_lookup
             Hz1 Hz2.
           assert (i1 = i2); [|congruence].
           apply elem_of_workerRouteKeys in Hz1 as [(j1 & _ & E1)|[E1|E1]];
             apply elem_of_workerRouteKeys in Hz2 as [(j2 & _ & E2)|[E2|E2]];
             simplify_eq/=; eauto.
        -- intros w [i Hw]%list_elem_of_lookup. unfold workerRoutes.
           rewrite fmap_app. apply NoDup_app. split; [apply NoDup_subnet_keys|]. split.
           ++ intros z (r & -> & (j & -> & _)%list_elem_of_fmap)%list_elem_of_fmap Hz.
              cbn in Hz. inv_elem Hz; simplify_eq/=.
           ++ cbn. apply NoDup_cons. split; [|apply NoDup_singleton].
              intros Hz. inv_elem Hz. simplify_eq/=.
      * intros z (w & Hz & [iw Hw]%list_elem_of_lookup)%list_elem_of_bind Ht.
        apply elem_of_triangle in Ht
          as [(ix & iy & wx & wy & _ & Hx & Hy & Hz')|(? & _ & []%elem_of_nil)].
        apply elem_of_workerRouteKeys in Hz as [(j1 & _ & E1)|[E1|E1]];
          apply elem_of_pairRouteKeys in Hz'
            as [(j2 & _ & E2)|[E2|[E2|(j2 & _ & E2)]]];
          simplify_eq/=;
          first [ by eapply (Hbclient ix) | by eapply (Hbclient iy) ].
      * apply NoDup_triangle; [| | | | |done].
        -- intros ix iy wx wy Hlt Hx Hy.
           unfold pairRoutes. rewrite !fmap_app.
           apply NoDup_app. split; [apply NoDup_subnet_keys|]. split.
           ++ intros z (r & -> & (j & -> & _)%list_elem_of_fmap)%list_elem_of_fmap
                [Hz|(r' & E & (j' & -> & _)%list_elem_of_fmap)%list_elem_of_fmap]
                %elem_of_app.
              ** cbn in Hz. inv_elem Hz; simplify_eq/=.
              ** simplify_eq/=. assert (ix = iy) by eauto. lia.
           ++ apply NoDup_app. split; [|split; [|apply NoDup_subnet_keys]].
              ** cbn. apply NoDup_cons. split; [|apply NoDup_singleton].
                 intros Hz. inv_elem Hz. simplify_eq/=.
                 assert (ix = iy) by eauto. lia.
              ** intros z Hz (r & E & (j' & -> & _)%list_elem_of_fmap)%list_elem_of_fmap.
                 cbn in Hz. inv_elem Hz; simplify_eq/=.
        -- intros; constructor.
        -- intros i j i' j' a b a' b' z Hij Hij' Hi Hj Hi' Hj' Hz Hz'.
           apply elem_of_pairRouteKeys in Hz
             as [(k1 & _ & E1)|[E1|[E1|(k1 & _ & E1)]]];
             apply elem_of_pairRouteKeys in Hz'
               as [(k2 & _ & E2)|[E2|[E2|(k2 & _ & E2)]]];
             simplify_eq/=;
             first
               [ split; by eauto
               | assert (i = j') by eauto; assert (j = i') by eauto; lia ].
        -- intros ? ? ? ? ? _ _ []%elem_of_nil.
        -- intros ? ? ? ? _ _ _ _ []%elem_of_nil.
  - intros z. rewrite routeKeys_app, !elem_of_app.
    intros [Hz|[Hz|Hz]].
    + apply elem_of_clientRouteKeys in Hz as (w & i & _ & _ & ->). left. by eexists _, _.
    + apply list_elem_of_bind in Hz as (w & Hz & _).
      apply elem_of_workerRouteKeys in Hz as [(i & _ & ->)|[-> | ->]];
        first [left; by eexists _, _|right; by eexists].
    + apply elem_of_triangle in Hz
        as [(ix & iy & wx & wy & _ & _ & _ & Hz)|(? & _ & []%elem_of_nil)].
      apply elem_of_pairRouteKeys in Hz as [(i & _ & ->)|[-> |[-> |(i & _ & ->)]]];
        first [left; by eexists _, _|right; by eexists].
Qed.

Lemma C6_witness : NoDup (routeKeys shipped).
Proof.
  apply (C6_one_route_per_table_and_destination defaultAzs client workers shipped eq_refl);
    refine (bool_decide_unpack _ _); vm_compute; exact I.
Defined.

(** ** Gateways *)

Lemma triangle_split {A B} (pair : A → A → list B) (each : A → list B) (l : list A)
    i j a b :
  i < j → l !! i = Some a → l !! j = Some b →
  ∃ pre post, triangle pair each l = pre ++ pair a b ++ post.
Proof.
  revert i j. induction l as [|a0 r IH]; intros i j Hij Hi Hj; [by rewrite lookup_nil in Hi|].
  destruct j as [|j]; [lia|]. cbn in Hj. cbn [triangle]. destruct i as [|i].
  - cbn in Hi. injection Hi as ->.
    apply list_elem_of_lookup_2, list_elem_of_split in Hj as (r1 & r2 & ->).
    exists (r1 ≫= pair a), ((r2 ≫= pair a) ++ each a ++ triangle pair each (r1 ++ b :: r2)).
    rewrite bind_app. cbn [mbind list_bind]. by rewrite <- !app_assoc.
  - cbn in Hi. destruct (IH i j) as (pre & post & ->); [lia|done|done|].
    exists ((r ≫= pair a0) ++ each a0 ++ pre), post. by rewrite <- !app_assoc.
Qed.

Section Gateways.
Context (azs : string → nat) (c : IClient) (ws : list IWorker).

Let clientStack := ClientRegion.new azs "Client-Region" (region c) (cidr c) ws.

(** The stacks of the application, loop by loop. *)
Lemma app_triangle :
  stacksOf azs c ws
  = [ClientRegion.stack clientStack] ++ (ws ≫= workerStacks azs c clientStack)
    ++ triangle (pairStacksOf azs c clientStack) (syncStackOf azs c clientStack) ws.
Proof.
  unfold stacksOf, clientStack. apply app_eq; [reflexivity|]. apply app_eq; [reflexivity|].
  rewrite <- triangle_index. apply bind_ext_in. intros x Hx.
  apply elem_of_seq in Hx.
  destruct (lookup_lt_is_Some_2 ws x) as [wx Hwx]; [lia|].
  rewrite slice_index. apply app_eq.
  - apply bind_ext_in. intros y Hy. apply elem_of_seq in Hy.
    destruct (lookup_lt_is_Some_2 ws y) as [wy Hwy]; [lia|].
    rewrite (pairStacks_lookup azs c ws x y wx wy Hwx Hwy).
    unfold atPair. by rewrite Hwx, Hwy.
  - unfold syncStackAt, atIndex. by rewrite list_lookup_fmap, Hwx.
Qed.

Lemma attachments_app :
  attachments (stacksOf azs c ws)
  = (region c, (ref clientTgw, vpcId clientVpc))
    :: ((λ w : IWorker, (region w, (ref (workerTgw w), vpcId (workerVpc w)))) <$> ws).
Proof.
  unfold attachments. rewrite summary_app, !omap_app, omap_bind, omap_triangle.
  replace (omap asAttachment (clientItems azs c ws))
    with [(region c, (ref clientTgw, vpcId clientVpc))].
  2:{ unfold clientItems. omap_items. }
  change (?x :: ?l) with ([x] ++ l). apply app_eq; [reflexivity|].
  rewrite (triangle_ext _ (λ _ _, []) _ (λ _, [])), triangle_nil, app_nil_r.
  - rewrite <- bind_singleton. apply bind_ext_in. intros w _.
    unfold workerAll, workerItems, workerRouteItems, clientRouteItems. omap_items.
  - intros wx wy.
    unfold pairAll, pairItems, pairRouteItems, interRegionItems. omap_items.
  - intros w. reflexivity.
Qed.

Lemma vpcAttachments_app :
  vpcAttachments (stacksOf azs c ws)
  = (region c, (subnetId clientVpc <$> seq 0 (azs (region c)), ref clientTgw, vpcId clientVpc))
    :: ((λ w : IWorker,
           (region w, (subnetId (workerVpc w) <$> seq 0 (azs (region w)),
                       ref (workerTgw w), vpcId (workerVpc w)))) <$> ws).
Proof.
  unfold vpcAttachments. rewrite summary_app, !omap_app, omap_bind, omap_triangle.
  replace (omap asVpcAttachment (clientItems azs c ws))
    with [(region c, (subnetId clientVpc <$> seq 0 (azs (region c)), ref clientTgw,
                      vpcId clientVpc))].
  2:{ unfold clientItems. omap_items. }
  change (?x :: ?l) with ([x] ++ l). apply app_eq; [reflexivity|].
  rewrite (triangle_ext _ (λ _ _, []) _ (λ _, [])), triangle_nil, app_nil_r.
  - rewrite <- bind_singleton. apply bind_ext_in. intros w _.
    unfold workerAll, workerItems, workerRouteItems, clientRouteItems. omap_items.
  - intros wx wy.
    unfold pairAll, pairItems, pairRouteItems, interRegionItems. omap_items.
  - intros w. reflexivity.
Qed.

Lemma networks_app :
  networks (stacksOf azs c ws)
  = (clientVpc, cidr c) :: ((λ w : IWorker, (workerVpc w, cidr w)) <$> ws).
Proof.
  unfold networks. rewrite summary_app, !omap_app, omap_bind, omap_triangle.
  replace (omap asNetwork (clientItems azs c ws)) with [(clientVpc, cidr c)].
  2:{ unfold clientItems. omap_items. }
  change (?x :: ?l) with ([x] ++ l). apply app_eq; [reflexivity|].
  rewrite (triangle_ext _ (λ _ _, []) _ (λ _, [])), triangle_nil, app_nil_r.
  - rewrite <- bind_singleton. apply bind_ext_in. intros w _.
    unfold workerAll, workerItems, workerRouteItems, clientRouteItems. omap_items.
  - intros wx wy.
    unfold pairAll, pairItems, pairRouteItems, interRegionItems. omap_items.
  - intros w. reflexivity.
Qed.

Lemma summary_link_stack (wx wy : IWorker) :
  stackSummary (linkStackOf azs wx wy) = pairItems azs wx wy.
Proof.
  unfold stackSummary, pairItems, linkStackOf.
  cbn [WorkerToWorkerTGW.stack WorkerToWorkerTGW.new constructs].
  unfold WorkerToWorkerTGW.acceptRequest.
  split_items.
  case_decide as E; [apply (inj _) in E; rewrite E|]; reflexivity.
Qed.

Lemma link_stack_first (wx wy : IWorker) :
  ∃ rest, pairStacksOf azs c clientStack wx wy = linkStackOf azs wx wy :: rest.
Proof. by eexists. Qed.

Lemma summary_app_list (l k : list Stack) : summary (l ++ k) = summary l ++ summary k.
Proof. unfold summary. apply bind_app. Qed.

Lemma published_bootstrap :
  omap asPublish
    (summary ([ClientRegion.stack clientStack] ++ (ws ≫= workerStacks azs c clientStack)))
  = clientKeys c ++ (ws ≫= workerKeys).
Proof.
  rewrite summary_app_list, omap_app. apply app_eq.
  - unfold summary. cbn [mbind list_bind]. rewrite app_nil_r.
    unfold clientStack. rewrite summary_client.
    unfold clientItems. omap_items.
  - unfold summary. rewrite bind_bind, omap_bind. apply bind_ext_in. intros w _.
    unfold clientStack. rewrite summary_worker.
    unfold workerAll, workerItems, workerRouteItems, clientRouteItems. omap_items.
Qed.

End Gateways.

(** C9. For every configuration with pairwise distinct region
    identifiers, the application creates exactly one gateway per
    participating region (N+1 in all): the regions of its gateways, in
    creation order, are the client's region followed by the workers'
    regions, and so are the regions of its non-peering attachments.
    Each gateway is created by the stack that creates the network of its
    region, which attaches that network, through all its private
    subnets, to the gateway with the only non-peering attachment of the
    region, and publishes the gateway's reference under the key
    [tgw-param-<region>] in that region. A stack that links two workers
    creates no gateway; it fetches two gateway parameters, each
    published by a stack the program creates before it.

    The link stack does not declare the stack that publishes the second
    of these parameters among its dependencies, though. At the shipped
    configuration [lateTargetSchedule] orders all twelve stacks so that
    each comes after the stacks it depends on; in it the link stack
    fetches the gateway parameter of the second worker before that
    parameter is published and fails, and the two route stacks of the
    link are blocked. *)
Theorem C9_one_gateway_per_region :
  (∀ (azs : string → nat) (c : IClient) (ws : list IWorker) (a : list Stack),
     app azs c ws = Some a →
     NoDup (regions c ws) →
     (gateways a).*1 = regions c ws
     ∧ length (gateways a) = S (length ws)
     ∧ (∀ r g g', (r, g) ∈ gateways a → (r, g') ∈ gateways a → g = g')
     ∧ (vpcAttachments a).*1 = regions c ws
     ∧ (∀ r g, (r, g) ∈ gateways a →
          ∃ vpc block,
            (vpc, block) ∈ networks a ∧ vpc.1 = g.1
            ∧ (∀ x, (r, x) ∈ vpcAttachments a ↔
                      x = (subnetId vpc <$> seq 0 (azs r), ref g, vpcId vpc))
            ∧ ((r, "tgw-param-" +:+ r), ref g) ∈ published a)
     ∧ (∀ i j (wi wj : IWorker),
          i < j → ws !! i = Some wi → ws !! j = Some wj →
          let s := linkStackOf azs wi wj in
          omap asGateway (stackSummary s) = []
          ∧ omap asFetch (stackSummary s)
            = [ (sid s, (region wj, "tgw-param-" +:+ region wj));
                (sid s, (region wi, "tgw-param-" +:+ region wi)) ]
          ∧ ∃ pre post,
              a = pre ++ s :: post
              ∧ (region wj, "tgw-param-" +:+ region wj) ∈ (published pre).*1
              ∧ (region wi, "tgw-param-" +:+ region wi) ∈ (published pre).*1))
  ∧ app defaultAzs client workers = Some shipped
  ∧ lateTargetSchedule ≡ₚ shipped
  ∧ respectsDeps [] lateTargetSchedule
  ∧ report (deploy emptyCloud lateTargetSchedule)
    = [ ("Client-Region", Completed);
        ("Worker-Region-us-east-1", Completed);
        ("TGW-Peer-Region-us-east-1-to-us-west-2",
         Failed (ParameterNotFound "us-west-2" "tgw-param-us-west-2"));
        ("Worker-Region-TGW-Route-us-east-1-to-us-west-2", Blocked);
        ("Worker-Region-TGW-Route-us-east-1", Completed);
        ("Client-Region-TGW-Route-us-east-1", Completed);
        ("Worker-Region-us-west-2", Completed);
        ("Worker-Region-TGW-Route-us-west-2", Completed);
        ("Client-Region-TGW-Route-us-west-2", Completed);
        ("Inter-Region-TGW-Route-us-west-2-to-us-east-1", Blocked);
        ("ZyncLustreToOpenSearch-us-east-1", Completed);
        ("ZyncLustreToOpenSearch-us-west-2", Completed) ].
Proof.
  split.
  2:{ split; [reflexivity|]. split; [decide_now|]. split; [decide_now|].
      by vm_compute. }
  intros azs c ws a ->%app_some Hnd.
  assert (Hreg : (gateways (stacksOf azs c ws)).*1 = regions c ws).
  { rewrite gateways_app. cbn [fmap list_fmap fst]. unfold regions. f_equal.
    rewrite <- list_fmap_compose. done. }
  assert (Hatt : (vpcAttachments (stacksOf azs c ws)).*1 = regions c ws).
  { rewrite vpcAttachments_app. cbn [fmap list_fmap fst]. unfold regions. f_equal.
    rewrite <- list_fmap_compose. done. }
  unfold regions in Hnd. pose proof Hnd as Hnd'. apply NoDup_cons in Hnd as [Hc Hws].
  assert (Hclient : ∀ w : IWorker, w ∈ ws → region w ≠ region c).
  { intros w Hw E. apply Hc. rewrite <- E. apply list_elem_of_fmap. by exists w. }
  split; [exact Hreg|]. clear Hreg Hnd'. split; [|split; [|split; [exact Hatt|split]]].
  - rewrite gateways_app. cbn [length]. by rewrite length_fmap.
  - intros r g g' Hg Hg'. rewrite gateways_app in Hg, Hg'.
    apply elem_of_cons in Hg as [Hg|(w & Hg & Hw)%list_elem_of_fmap];
      apply elem_of_cons in Hg' as [Hg'|(w' & Hg' & Hw')%list_elem_of_fmap];
      simplify_eq/=; try done.
    + by destruct (Hclient w').
    + by destruct (Hclient w).
    + by rewrite (elem_eq_on (λ w : IWorker, region w) ws w w').
  - intros r g Hg. rewrite gateways_app in Hg.
    apply elem_of_cons in Hg as [Hg|(w & Hg & Hw)%list_elem_of_fmap]; simplify_eq;
      rewrite networks_app, vpcAttachments_app, published_app.
    + exists clientVpc, (cidr c). split; [left|]. split; [done|]. split.
      * intros x. rewrite elem_of_cons, list_elem_of_fmap. split.
        -- intros [E|(w & E & Hw)]; simplify_eq; [done|]. by destruct (Hclient w).
        -- intros ->. by left.
      * apply elem_of_app. left. left.
    + exists (workerVpc w), (cidr w). split; [|split; [done|split]].
      * right. apply list_elem_of_fmap. by exists w.
      * intros x. rewrite elem_of_cons, list_elem_of_fmap. split.
        -- intros [E|(w' & E & Hw')]; simplify_eq; [by destruct (Hclient w)|].
           by rewrite (elem_eq_on (λ w : IWorker, region w) ws w w').
        -- intros ->. right. by exists w.
      * apply elem_of_app. right. apply elem_of_app. left.
        apply list_elem_of_bind. exists w. split; [left|done].
  - intros i j wi wj Hij Hi Hj. cbv zeta. rewrite summary_link_stack.
    split; [unfold pairItems; omap_items|]. split; [unfold pairItems; omap_items|].
    rewrite app_triangle.
    set (cs := ClientRegion.new azs "Client-Region" (region c) (cidr c) ws).
    destruct (triangle_split (pairStacksOf azs c cs) (syncStackOf azs c cs)
                ws i j wi wj Hij Hi Hj) as (pre & post & E).
    rewrite E. clear E.
    destruct (link_stack_first azs c ws wi wj) as [rest E].
    fold cs in E. rewrite E. clear E.
    exists (([ClientRegion.stack cs] ++ (ws ≫= workerStacks azs c cs)) ++ pre),
      (rest ++ post).
    split; [rewrite <- !app_assoc; reflexivity|].
    unfold published. rewrite summary_app_list, omap_app.
    unfold cs. rewrite published_bootstrap, !fmap_app.
    split; apply elem_of_app; left; apply elem_of_app; right;
      apply list_elem_of_fmap; eexists (_, _); (split; [reflexivity|]);
      apply list_elem_of_bind.
    + exists wj. split; [left|by eapply list_elem_of_lookup_2].
    + exists wi. split; [left|by eapply list_elem_of_lookup_2].
Qed.

Lemma C9_witness :
  (gateways shipped).*1 = ["eu-west-2"; "us-east-1"; "us-west-2"]
  ∧ (vpcAttachments shipped).*1 = ["eu-west-2"; "us-east-1"; "us-west-2"].
Proof.
  destruct (proj1 C9_one_gateway_per_region defaultAzs client workers shipped eq_refl)
    as (Hg & _ & _ & Ha & _).
  - refine (bool_decide_unpack _ _). vm_compute. exact I.
  - split; [exact Hg|exact Ha].
Defined.

(** ** The shipped configuration *)

Lemma routes_at_level (l : Level) (its : list Item) :
  omap (asRouteAt l) its = omap (atLevel l) (omap asRoute its).
Proof.
  induction its as [|it its IH]; [done|].
  destruct it; cbn; try exact IH.
  unfold atLevel. destruct (decide _); cbn; by rewrite IH.
Qed.

Lemma exchange_default (azs : string → nat) :
  exchangeOf (stacksOf azs client workers)
  = list_to_map (clientKeys client ++ (workers ≫= workerKeys)
                 ++ triangle pairKeys (syncKeys client) workers).
Proof. unfold exchangeOf. by rewrite published_app. Qed.

(** C8. In the shipped configuration (client 10.0.0.0/16, worker A
    10.1.0.0/16, worker B 10.2.0.0/16), whatever the number of private
    subnets per region, exactly three peering attachments are created
    (A to client, B to client, A to B); exactly six gateway-level route
    entries are created, one on each side of each attachment, each with
    the peer's block as destination and that pair's attachment as
    target; and the subnet-level route entries are one per private
    subnet on each side of each pair. *)
Theorem C8_default_scenario (azs : string → nat) :
  ∃ a, app azs client workers = Some a ∧
  let A : Path := ("Worker-Region-us-east-1", "Peering Connection") in
  let B : Path := ("Worker-Region-us-west-2", "Peering Connection") in
  let AB : Path := ("TGW-Peer-Region-us-east-1-to-us-west-2", "Peering Connection") in
  let tgwC : Path := ("Client-Region", "TGW") in
  let tgwA : Path := ("Worker-Region-us-east-1", "TGW") in
  let tgwB : Path := ("Worker-Region-us-west-2", "TGW") in
  let vpcC : Path := ("Client-Region", "Scheduler VPC") in
  let vpcA : Path := ("Worker-Region-us-east-1", "Worker VPC") in
  let vpcB : Path := ("Worker-Region-us-west-2", "Worker VPC") in
  peeringAttachments a
  = [ ("us-east-1", "eu-west-2"); ("us-west-2", "eu-west-2"); ("us-east-1", "us-west-2") ]
  ∧ linkStack <$> links a = [ A.1; B.1; AB.1 ]
  ∧ (λ r, (table r, destination r, resolvedVia a r)) <$> gatewayRoutes a
    = [ (GatewayTable (ref tgwA), "10.0.0.0/16", attrTransitGatewayAttachmentId A);
        (GatewayTable (ref tgwC), "10.1.0.0/16", attrTransitGatewayAttachmentId A);
        (GatewayTable (ref tgwB), "10.0.0.0/16", attrTransitGatewayAttachmentId B);
        (GatewayTable (ref tgwC), "10.2.0.0/16", attrTransitGatewayAttachmentId B);
        (GatewayTable (ref tgwA), "10.2.0.0/16", attrTransitGatewayAttachmentId AB);
        (GatewayTable (ref tgwB), "10.1.0.0/16", attrTransitGatewayAttachmentId AB) ]
  ∧ (λ r, (table r, destination r)) <$> subnetRoutes a
    = ((λ i, (SubnetTable vpcC i, "10.1.0.0/16")) <$> seq 0 (azs "eu-west-2"))
      ++ ((λ i, (SubnetTable vpcC i, "10.2.0.0/16")) <$> seq 0 (azs "eu-west-2"))
      ++ ((λ i, (SubnetTable vpcA i, "10.0.0.0/16")) <$> seq 0 (azs "us-east-1"))
      ++ ((λ i, (SubnetTable vpcB i, "10.0.0.0/16")) <$> seq 0 (azs "us-west-2"))
      ++ ((λ i, (SubnetTable vpcA i, "10.2.0.0/16")) <$> seq 0 (azs "us-east-1"))
      ++ ((λ i, (SubnetTable vpcB i, "10.1.0.0/16")) <$> seq 0 (azs "us-west-2")).
Proof.
  exists (stacksOf azs client workers). split.
  { apply app_returns.
    - intros w Hw. inv_elem Hw; subst w; by eexists.
    - decide_now. }
  cbv zeta. split; [|split; [|split]].
  - rewrite peeringAttachments_app. reflexivity.
  - rewrite links_app. reflexivity.
  - unfold gatewayRoutes, resolvedVia. rewrite exchange_default.
    rewrite routes_at_level. fold (routes (stacksOf azs client workers)).
    rewrite routes_app.
    unfold clientRoutes, workerRoutes, pairRoutes, workers.
    cbn [mbind list_bind triangle none].
    rewrite ?app_nil_r, ?omap_app.
    rewrite !(omap_fmap_none (atLevel GatewayLevel)) by done.
    vm_compute. reflexivity.
  - unfold subnetRoutes.
    rewrite routes_at_level. fold (routes (stacksOf azs client workers)).
    rewrite routes_app.
    unfold clientRoutes, workerRoutes, pairRoutes, workers.
    cbn [mbind list_bind triangle none].
    rewrite ?app_nil_r, ?omap_app.
    repeat (erewrite (omap_fmap_some (atLevel SubnetLevel)) by (intros; reflexivity)).
    cbn [omap list_omap]. rewrite ?app_nil_r, ?app_nil_l, !fmap_app, <- ?app_assoc.
    rewrite <- !list_fmap_compose. reflexivity.
Qed.

(** ** Build order *)

(** A set of stacks that contains the dependencies of [x] and of each of
    its members contains everything [x] requires. *)
Lemma requires_closed (a : list Stack) (S : list string) (x : string) :
  Forall (λ s, sid s = x ∨ sid s ∈ S → Forall (λ d, d ∈ S) (stackDeps s)) a →
  ∀ y, Requires a x y → y ∈ S.
Proof.
  intros Hcl y Hreq. rewrite Forall_forall in Hcl.
  assert (G : ∀ x' y', Requires a x' y' → x' = x ∨ x' ∈ S → y' ∈ S).
  { clear y Hreq. intros x' y' Hreq.
    induction Hreq as [s d Hs Hd|x1 y1 z1 _ IH1 _ IH2]; intros Hx.
    - specialize (Hcl s Hs Hx). rewrite Forall_forall in Hcl. by apply Hcl.
    - apply IH2. right. by apply IH1. }
  apply (G x y Hreq). by left.
Qed.

(** The path the client links take: a worker's stack declares its
    dependency on the client's stack. *)
Lemma worker_stack_declares_client (azs : string → nat) (c : IClient) (ws : list IWorker)
    (w : IWorker) :
  w ∈ ws →
  ∃ s, s ∈ stacksOf azs c ws ∧ sid s = "Worker-Region-" +:+ region w
       ∧ dependencies s = ["Client-Region"].
Proof.
  intros Hw.
  exists (WorkerRegion.stack
            (newWorker azs c
               (ClientRegion.new azs "Client-Region" (region c) (cidr c) ws) w)).
  split; [|split; reflexivity].
  rewrite app_triangle. apply elem_of_app. right. apply elem_of_app. left.
  apply list_elem_of_bind. exists w. split; [left|done].
Qed.

(** C1, at the shipped configuration. The link between the two workers
    is created by the stack [TGW-Peer-Region-us-east-1-to-us-west-2],
    which fetches the gateway reference that only the stack
    [Worker-Region-us-west-2] publishes, yet does not require that stack:
    its dependencies stop at the first worker's stack and, through it,
    the client's. So not every link comes after the bootstrap of both
    its regions, and the declared dependencies allow a schedule in which
    the link stack runs before the second worker's stack and fails on
    its fetch. The worker stacks, by contrast, do require the client's
    stack. *)
Theorem C1_target_bootstrap_not_required :
  let a := shipped in
  let link := "TGW-Peer-Region-us-east-1-to-us-west-2" in
  let target := "Worker-Region-us-west-2" in
  let key := ("us-west-2", "tgw-param-us-west-2") in
  app defaultAzs client workers = Some a
  ∧ (link, key) ∈ fetches a
  ∧ (∀ s, s ∈ a → key ∈ (omap asPublish (stackSummary s)).*1 → sid s = target)
  ∧ Requires a "Worker-Region-us-east-1" "Client-Region"
  ∧ Requires a "Worker-Region-us-west-2" "Client-Region"
  ∧ Requires a link "Worker-Region-us-east-1"
  ∧ ¬ Requires a link target
  ∧ ¬ linksAfterBootstraps a
  ∧ (∀ s, s ∈ earlyLinkSchedule → s ∈ a)
  ∧ respectsDeps [] earlyLinkSchedule
  ∧ report (deploy emptyCloud earlyLinkSchedule)
    = [ ("Client-Region", Completed);
        ("Worker-Region-us-east-1", Completed);
        (link, Failed (ParameterNotFound "us-west-2" "tgw-param-us-west-2")) ]
  ∧ Forall (λ o, o.2 = Completed) (report (deploy emptyCloud a)).
Proof.
  cbv zeta.
  assert (Hno : ¬ Requires shipped
                  "TGW-Peer-Region-us-east-1-to-us-west-2" "Worker-Region-us-west-2").
  { intros H.
    apply (requires_closed _ ["Worker-Region-us-east-1"; "Client-Region"]) in H.
    - inv_elem H; discriminate H.
    - decide_now. }
  assert (Hdirect : ∀ x d,
            (∃ s, s ∈ shipped ∧ sid s = x ∧ d ∈ stackDeps s) →
            Requires shipped x d).
  { intros x d (s & Hs & <- & Hd). by constructor. }
  split; [reflexivity|]. split; [decide_now|]. split.
  { rewrite <- Forall_forall. decide_now. }
  split.
  { apply Hdirect. eexists.
    split; [apply list_elem_of_lookup; exists 1; reflexivity|].
    split; [reflexivity|decide_now]. }
  split.
  { apply Hdirect. eexists.
    split; [apply list_elem_of_lookup; exists 4; reflexivity|].
    split; [reflexivity|decide_now]. }
  split.
  { apply Hdirect. eexists.
    split; [apply list_elem_of_lookup; exists 7; reflexivity|].
    split; [reflexivity|decide_now]. }
  split; [exact Hno|]. split.
  { intros H.
    destruct (H {| createdIn := "us-east-1";
                   linkStack := "TGW-Peer-Region-us-east-1-to-us-west-2";
                   peerRegion := "us-west-2";
                   peerGateway := Some ("us-west-2", "tgw-param-us-west-2");
                   acceptedIn := ["us-west-2"] |}
                "us-west-2" ("Worker-Region-us-west-2", "TGW")) as [E|R].
    - decide_now.
    - by right.
    - decide_now.
    - discriminate E.
    - by apply Hno. }
  split.
  { rewrite <- Forall_forall. decide_now. }
  split; [decide_now|]. split; [by vm_compute|]. decide_now.
Qed.

(** ** Routes and the handshake *)

Section Ordering.
Context (azs : string → nat) (c : IClient) (ws : list IWorker).

Let CS := ClientRegion.new azs "Client-Region" (region c) (cidr c) ws.

Lemma elem_of_app_stacks s :
  s ∈ stacksOf azs c ws →
  s = ClientRegion.stack CS
  ∨ (∃ w, w ∈ ws ∧ s ∈ workerStacks azs c CS w)
  ∨ (∃ i j wi wj, i < j ∧ ws !! i = Some wi ∧ ws !! j = Some wj
                  ∧ s ∈ pairStacksOf azs c CS wi wj)
  ∨ (∃ w, w ∈ ws ∧ s ∈ syncStackOf azs c CS w).
Proof.
  rewrite app_triangle. fold CS.
  intros [Hs|[Hs|Hs]%elem_of_app]%elem_of_app.
  - left. by apply list_elem_of_singleton in Hs.
  - right. left. apply list_elem_of_bind in Hs as (w & Hs & Hw). by exists w.
  - apply elem_of_triangle in Hs as [(i & j & wi & wj & H)|(w & Hw & Hs)].
    + right. right. left. by exists i, j, wi, wj.
    + right. right. right. by exists w.
Qed.

Lemma worker_stack_in_app (w : IWorker) : w ∈ ws → workerStackOf azs c ws w ∈ stacksOf azs c ws.
Proof.
  intros Hw. rewrite app_triangle. apply elem_of_app. right. apply elem_of_app. left.
  apply list_elem_of_bind. exists w. split; [left|done].
Qed.

Lemma link_stack_in_app i j (wi wj : IWorker) :
  i < j → ws !! i = Some wi → ws !! j = Some wj → linkStackOf azs wi wj ∈ stacksOf azs c ws.
Proof.
  intros Hij Hi Hj. rewrite app_triangle. apply elem_of_app. right. apply elem_of_app.
  right. apply elem_of_triangle. left. exists i, j, wi, wj. repeat split; try done. left.
Qed.

Lemma worker_accept (w : IWorker) r1 r2 :
  w ∈ ws →
  (region w = r1 ∧ region c = r2) ∨ (region w = r2 ∧ region c = r1) →
  acceptStackFor (stacksOf azs c ws) r1 r2 (workerStackOf azs c ws w).
Proof.
  intros Hw Hr. split; [by apply worker_stack_in_app|].
  exists (mk "Accept Request"
            (AcceptTGWRequestClient
               (attrTransitGatewayAttachmentId (workerId w, "Peering Connection"))
               (region c))).
  split; [|exact Hr].
  cbn [workerStackOf newWorker workerAddDependency WorkerRegion.stack WorkerRegion.new
       addDependency constructs].
  unfold WorkerRegion.setupEnvironment, WorkerRegion.acceptRequest.
  do 4 right. left.
Qed.

Lemma link_accept i j (wi wj : IWorker) r1 r2 :
  i < j → ws !! i = Some wi → ws !! j = Some wj →
  (region wi = r1 ∧ region wj = r2) ∨ (region wi = r2 ∧ region wj = r1) →
  acceptStackFor (stacksOf azs c ws) r1 r2 (linkStackOf azs wi wj).
Proof.
  intros Hij Hi Hj Hr. split; [by eapply link_stack_in_app|].
  exists (mk "Accept Request"
            (AcceptTGWRequestClient
               (attrTransitGatewayAttachmentId (pairId wi wj, "Peering Connection"))
               (region wj))).
  split; [|exact Hr].
  cbn [linkStackOf WorkerToWorkerTGW.stack WorkerToWorkerTGW.new constructs].
  unfold WorkerToWorkerTGW.acceptRequest.
  do 4 right. left.
Qed.

End Ordering.

(** Membership in the constructs of a stack, case by case. *)
Ltac inv_constructs H :=
  repeat first
    [ apply elem_of_nil in H; destruct H
    | apply elem_of_cons in H as [H|H]
    | apply elem_of_app in H as [H|H]
    | let x := fresh "x" in let Hx := fresh "Hx" in
      apply list_elem_of_fmap in H as (x & H & Hx)
    | let x := fresh "x" in let Hx := fresh "Hx" in
      apply list_elem_of_bind in H as (x & H & Hx) ].

(** C2, as stated, fails at the shipped configuration: the
    client's stack creates its subnet-level routes toward the first
    worker's block although it does not require the stack that accepts
    the link with that worker. *)
Lemma C2_client_routes_not_after_accept :
  ∃ a, app defaultAzs client workers = Some a
       ∧ ¬ routesAfterAccept a (nodes client workers).
Proof.
  exists shipped. split; [reflexivity|]. intros H.
  assert (∃ s k t acc (n : IWorker),
            shipped !! 0 = Some s ∧ constructs s !! 4 = Some k
            ∧ shipped !! 1 = Some t
            ∧ constructs t !! 4 = Some acc ∧ workers !! 0 = Some n)
    as (s & k & t & acc & n & Hs & Hk & Ht & Hacc & Hn).
  { do 5 eexists. repeat split; reflexivity. }
  assert (Hsa : s ∈ shipped) by (by eapply list_elem_of_lookup_2).
  assert (Hks : k ∈ constructs s) by (by eapply list_elem_of_lookup_2).
  assert (Hta : t ∈ shipped) by (by eapply list_elem_of_lookup_2).
  assert (Hat : acc ∈ constructs t) by (by eapply list_elem_of_lookup_2).
  assert (Hnn : asClient n ∈ nodes client workers).
  { right. apply list_elem_of_fmap. exists n. split; [done|].
    by eapply list_elem_of_lookup_2. }
  vm_compute in Hs, Ht, Hn. simplify_eq. vm_compute in Hk, Hacc. simplify_eq.
  destruct (H _ _ _ _ _ Hsa Hks Hta Hat Hnn) as [[E _]|R].
  - reflexivity.
  - right. split; reflexivity.
  - discriminate E.
  - apply (requires_closed _ []) in R; [by apply elem_of_nil in R|]. decide_now.
Qed.

Lemma constructDeps_subset (s : Stack) (k : Construct) (d : string) :
  d ∈ constructDeps s k → d ∈ dependsOn k ++ (constructPaths k).*2.
Proof.
  unfold constructDeps. rewrite !elem_of_app, !list_elem_of_fmap.
  intros [H|(p & -> & Hp%list_elem_of_filter)]; [by left|].
  right. exists p. split; [done|]. by destruct Hp.
Qed.

(** C2, amended. Every gateway-level route entry, on either side of a
    pair, lives in a stack that declares a dependency on the stack
    making that pair's accept call. A subnet-level route entry is in
    one of three positions: in a stack that declares such a dependency
    (the target side of a link between workers); or in the stack that
    creates the link, depending there on the peering attachment, that
    is on the request, and not on the accept call (the initiator side,
    both toward the client and toward a worker); or in the client's
    stack, which depends on nothing and on which the stack making the
    accept call depends (the client side). *)
Theorem C2_route_ordering (azs : string → nat) (c : IClient) (ws : list IWorker)
    (a : list Stack) (s : Stack) (k : Construct) :
  app azs c ws = Some a →
  s ∈ a → k ∈ constructs s →
  (∀ rt d att, resource k = CfnTransitGatewayRoute rt d att →
     ∃ n, n ∈ nodes c ws ∧ d = cidr n ∧ afterAcceptStack a s n)
  ∧ (∀ rt d g, resource k = CfnRoute rt d g →
       ∃ n, n ∈ nodes c ws ∧ d = cidr n
            ∧ (afterAcceptStack a s n
               ∨ afterRequestOnly s k n
               ∨ beforeHandshake a s n)).
Proof.
  intros ->%app_some Hs Hk.
  assert (Hnode : ∀ w : IWorker, w ∈ ws → asClient w ∈ nodes c ws).
  { intros w Hw. right. apply list_elem_of_fmap. by exists w. }
  assert (Hlk : ∀ i (w : IWorker), ws !! i = Some w → w ∈ ws).
  { intros i w. apply list_elem_of_lookup_2. }
  apply elem_of_app_stacks in Hs
    as [->|[(w & Hw & Hs)|[(i & j & wi & wj & Hij & Hi & Hj & Hs)|(w & Hw & Hs)]]].
  - (* the client's stack *)
    cbn [ClientRegion.stack ClientRegion.new constructs] in Hk.
    unfold ClientRegion.setupEnvironment, ClientRegion.setupOpenSearch in Hk.
    inv_constructs Hk; subst k; (split; intros ? ? ? E; [discriminate E|]);
      try discriminate E.
    injection E as _ <- _.
    exists x. split; [by apply Hnode|]. split; [done|]. right. right.
    split; [done|]. exists (workerStackOf azs c ws x).
    split; [apply worker_accept; [done|by right]|]. by left.
  - (* a worker's stack and the two stacks routing its client link *)
    unfold workerStacks in Hs. inv_constructs Hs; subst s.
    + cbn [newWorker workerAddDependency WorkerRegion.stack WorkerRegion.new
           addDependency constructs] in Hk.
      unfold WorkerRegion.setupEnvironment, WorkerRegion.acceptRequest,
        WorkerRegion.setupRegionalLustre in Hk.
      inv_constructs Hk; subst k; (split; intros ? ? ? E; [discriminate E|]);
        try discriminate E.
      injection E as _ <- _.
      exists c. split; [left|]. split; [done|]. right. left.
      eexists (addDependsOn (mk "Peering Connection" _) "TGW"), _, _,
        (mk "Accept Request" _).
      split; [do 3 right; left|]. split; [reflexivity|]. split; [reflexivity|].
      split; [do 4 right; left|]. split; [by left|].
      intros Hd%constructDeps_subset. cbn in Hd. inv_elem Hd; discriminate Hd.
    + cbn [WorkerRegionTransitGatewayRoute.new addDependency constructs] in Hk.
      inv_constructs Hk; subst k; (split; intros ? ? ? E; [|discriminate E]);
        try discriminate E.
      injection E as _ <- _.
      exists c. split; [left|]. split; [done|].
      exists (workerStackOf azs c ws w).
      split; [apply worker_accept; [done|by left]|]. by left.
    + cbn [ClientToWorkerTransitGatewayRoute.new addDependency constructs] in Hk.
      inv_constructs Hk; subst k; (split; intros ? ? ? E; [|discriminate E]);
        try discriminate E.
      injection E as _ <- _.
      exists w. split; [by apply Hnode|]. split; [done|].
      exists (workerStackOf azs c ws w).
      split; [apply worker_accept; [done|by right]|]. by left.
  - (* the three stacks of a pair of workers *)
    unfold pairStacksOf in Hs. inv_constructs Hs; subst s.
    + cbn [WorkerToWorkerTGW.stack WorkerToWorkerTGW.new constructs] in Hk.
      unfold WorkerToWorkerTGW.acceptRequest in Hk.
      inv_constructs Hk; subst k; (split; intros ? ? ? E; [discriminate E|]);
        try discriminate E.
      injection E as _ <- _.
      exists wj. split; [by eapply Hnode, Hlk|]. split; [done|]. right. left.
      eexists (mk "Peering Connection" _), _, _, (mk "Accept Request" _).
      split; [do 2 right; left|]. split; [reflexivity|]. split; [reflexivity|].
      split; [do 4 right; left|]. split; [by left|].
      intros Hd%constructDeps_subset. cbn in Hd. inv_elem Hd; discriminate Hd.
    + cbn [WorkerRegionTransitGatewayRoute.new addDependency constructs] in Hk.
      inv_constructs Hk; subst k; (split; intros ? ? ? E; [|discriminate E]);
        try discriminate E.
      injection E as _ <- _.
      exists wj. split; [by eapply Hnode, Hlk|]. split; [done|].
      exists (linkStackOf azs wi wj).
      split; [eapply link_accept; [done..|by left]|]. by left.
    + cbn [InterRegionTransitGatewayRoute.new addDependency constructs] in Hk.
      inv_constructs Hk; subst k; split; intros ? ? ? E; try discriminate E;
        injection E as _ <- _;
        (exists wi; split; [by eapply Hnode, Hlk|]; split; [done|]);
        [|left];
        (exists (linkStackOf azs wi wj);
         split; [eapply link_accept; [done..|by right]|]; by left).
  - (* the stack that closes the iteration *)
    unfold syncStackOf in Hs. inv_constructs Hs; subst s.
    cbn [syncStackWith constructs] in Hk.
    unfold SyncLustreToOpenSearch.updates in Hk.
    inv_constructs Hk; subst k; split; intros ? ? ? E; discriminate E.
Qed.

Lemma C2_witness :
  ∃ s k, shipped !! 2 = Some s
         ∧ constructs s !! 1 = Some k
         ∧ ∀ rt d att, resource k = CfnTransitGatewayRoute rt d att →
             ∃ n, n ∈ nodes client workers ∧ d = cidr n
                  ∧ afterAcceptStack shipped s n.
Proof.
  eexists _, _. split; [reflexivity|]. split; [reflexivity|].
  apply (C2_route_ordering defaultAzs client workers shipped).
  - reflexivity.
  - apply list_elem_of_lookup. by exists 2.
  - apply list_elem_of_lookup. by exists 1.
Defined.

(** ** Fetching before publishing *)









(** * Further properties of the code *)

(** ** Strings *)

Lemma string_length_app (s t : string) :
  String.length (s +:+ t) = String.length s + String.length t.
Proof. induction s as [|a s IH]; [done|]. rewrite append_cons. cbn. by rewrite IH. Qed.

(** ** The routes of the mesh *)

Lemma sites_lookup_client (c : IClient) (ws : list IWorker) :
  sites c ws !! 0 = Some (clientSite c).
Proof. reflexivity. Qed.

Lemma sites_lookup_worker (c : IClient) (ws : list IWorker) i n :
  sites c ws !! S i = Some n ↔ ∃ w : IWorker, ws !! i = Some w ∧ n = workerSite w.
Proof.
  change (sites c ws !! S i) with ((workerSite <$> ws) !! i).
  rewrite list_lookup_fmap. split.
  - destruct (ws !! i) as [w|] eqn:E; [|done]. intros [= <-]. by exists w.
  - intros (w & -> & ->). done.
Qed.

(** X1. The stacks of an application route a full mesh, and nothing else:
    the table of every private subnet of every site, and the default
    table of every site's gateway, has a route entry toward the block of
    every other site; and every route entry of the application is one of
    these. The sites are the gateways and the networks the application
    creates, the client's first. *)
Theorem routes_full_mesh (azs : string → nat) (c : IClient) (ws : list IWorker)
    (a : list Stack) :
  app azs c ws = Some a →
  (λ s, (region (node s), gateway s)) <$> sites c ws = gateways a
  ∧ (λ s, (network s, cidr (node s))) <$> sites c ws = networks a
  ∧ ∀ z, z ∈ routeKeys a ↔
      ∃ p q n m,
        p ≠ q ∧ sites c ws !! p = Some n ∧ sites c ws !! q = Some m
        ∧ (z = (GatewayTable (ref (gateway n)), cidr (node m))
           ∨ ∃ i, i < azs (region (node n))
                  ∧ z = (SubnetTable (network n) i, cidr (node m))).
Proof.
  intros ->%app_some. split; [|split].
  - rewrite gateways_app. cbn [sites fmap list_fmap]. f_equal.
    by rewrite <- list_fmap_compose.
  - rewrite networks_app. cbn [sites fmap list_fmap]. f_equal.
    by rewrite <- list_fmap_compose.
  - intros z. rewrite routeKeys_app, !elem_of_app, list_elem_of_bind, elem_of_triangle.
    rewrite elem_of_clientRouteKeys. split.
    + intros [(w & i & [j Hj]%list_elem_of_lookup & Hi & ->)
             |[(w & Hz & [j Hj]%list_elem_of_lookup)
              |[(i & j & wi & wj & Hij & Hi & Hj & Hz)|(? & _ & []%elem_of_nil)]]].
      * exists 0, (S j), (clientSite c), (workerSite w).
        split; [done|]. split; [done|].
        split; [apply sites_lookup_worker; by exists w|].
        right. by exists i.
      * apply elem_of_workerRouteKeys in Hz as [(i & Hi & ->)|[-> | ->]].
        -- exists (S j), 0, (workerSite w), (clientSite c).
           split; [done|]. split; [apply sites_lookup_worker; by exists w|].
           split; [done|]. right. by exists i.
        -- exists (S j), 0, (workerSite w), (clientSite c).
           split; [done|]. split; [apply sites_lookup_worker; by exists w|].
           split; [done|]. by left.
        -- exists 0, (S j), (clientSite c), (workerSite w).
           split; [done|]. split; [done|].
           split; [apply sites_lookup_worker; by exists w|]. by left.
      * apply elem_of_pairRouteKeys in Hz
          as [(k & Hk & ->)|[-> |[-> |(k & Hk & ->)]]].
        -- exists (S i), (S j), (workerSite wi), (workerSite wj).
           split; [lia|]. split; [apply sites_lookup_worker; by exists wi|].
           split; [apply sites_lookup_worker; by exists wj|]. right. by exists k.
        -- exists (S i), (S j), (workerSite wi), (workerSite wj).
           split; [lia|]. split; [apply sites_lookup_worker; by exists wi|].
           split; [apply sites_lookup_worker; by exists wj|]. by left.
        -- exists (S j), (S i), (workerSite wj), (workerSite wi).
           split; [lia|]. split; [apply sites_lookup_worker; by exists wj|].
           split; [apply sites_lookup_worker; by exists wi|]. by left.
        -- exists (S j), (S i), (workerSite wj), (workerSite wi).
           split; [lia|]. split; [apply sites_lookup_worker; by exists wj|].
           split; [apply sites_lookup_worker; by exists wi|]. right. by exists k.
    + intros (p & q & n & m & Hpq & Hp & Hq & Hz).
      destruct p as [|i], q as [|j]; [done| | |].
      * injection Hp as <-. apply sites_lookup_worker in Hq as (w & Hw & ->).
        apply list_elem_of_lookup_2 in Hw.
        destruct Hz as [-> |(i & Hi & ->)].
        -- right. left. exists w. split; [|done].
           apply elem_of_workerRouteKeys. by do 2 right.
        -- left. by exists w, i.
      * injection Hq as <-. apply sites_lookup_worker in Hp as (w & Hw & ->).
        apply list_elem_of_lookup_2 in Hw.
        right. left. exists w. split; [|done]. apply elem_of_workerRouteKeys.
        destruct Hz as [-> |(k & Hk & ->)]; [by right; left|left; by exists k].
      * apply sites_lookup_worker in Hp as (wi & Hi & ->).
        apply sites_lookup_worker in Hq as (wj & Hj & ->).
        right. right. left.
        destruct (decide (i < j)) as [Hlt|Hge].
        -- exists i, j, wi, wj. split; [done|]. split; [done|]. split; [done|].
           apply elem_of_pairRouteKeys.
           destruct Hz as [-> |(k & Hk & ->)]; [by right; left|left; by exists k].
        -- exists j, i, wj, wi. split; [lia|]. split; [done|]. split; [done|].
           apply elem_of_pairRouteKeys.
           destruct Hz as [-> |(k & Hk & ->)];
             [by right; right; left|do 3 right; by exists k].
Qed.

Lemma routes_full_mesh_witness :
  (GatewayTable (ref ("Worker-Region-us-east-1", "TGW")), "10.2.0.0/16") ∈ routeKeys shipped.
Proof.
  apply (routes_full_mesh defaultAzs client workers shipped eq_refl).
  eexists 1, 2, _, _. split; [done|]. split; [reflexivity|]. split; [reflexivity|].
  by left.
Defined.

(** ** Counting the routes *)

Lemma length_bind_sum {A B} (f : A → list B) (g : A → nat) (l : list A) :
  (∀ x, length (f x) = g x) → length (l ≫= f) = sum_list (g <$> l).
Proof.
  intros Hf. induction l as [|x l IH]; [done|].
  cbn. by rewrite length_app, Hf, IH.
Qed.

Lemma length_triangle_sum {A B C} (f : C → nat) (pair : A → A → list B)
    (each : A → list B) (pair' : A → A → list C) (each' : A → list C) (l : list A) :
  (∀ a b, length (pair a b) = sum_list (f <$> pair' a b)) →
  (∀ a, length (each a) = sum_list (f <$> each' a)) →
  length (triangle pair each l) = sum_list (f <$> triangle pair' each' l).
Proof.
  intros Hp He. induction l as [|a r IH]; [done|].
  cbn [triangle]. rewrite !length_app, !fmap_app, !sum_list_with_app, He, IH.
  f_equal. clear IH. induction r as [|b r IH]; [done|].
  cbn. by rewrite length_app, fmap_app, sum_list_with_app, Hp, IH.
Qed.

Lemma omap_atLevel_subnet l vpc d g k (n : nat) :
  omap (atLevel l) (mkSubnetRoute vpc d g k <$> seq 0 n)
  = if decide (l = SubnetLevel) then mkSubnetRoute vpc d g k <$> seq 0 n else [].
Proof.
  destruct l; cbn.
  - apply omap_fmap_some. intros. reflexivity.
  - apply omap_fmap_none. intros. reflexivity.
Qed.

Lemma omap_atLevel_gateways t d v k t' d' v' k' :
  omap (atLevel SubnetLevel) [mkGatewayRoute t d v k; mkGatewayRoute t' d' v' k'] = [].
Proof. reflexivity. Qed.

(** X2. Every link is routed on both of its sides: the application has
    twice as many gateway-level route entries as links, and its
    subnet-level route entries are, link by link, one per private subnet
    of the region that creates the link and one per private subnet of
    the peer region. *)
Theorem route_counts (azs : string → nat) (c : IClient) (ws : list IWorker)
    (a : list Stack) :
  app azs c ws = Some a →
  length (gatewayRoutes a) = 2 * length (links a)
  ∧ length (subnetRoutes a)
    = sum_list ((λ l, azs (createdIn l) + azs (peerRegion l)) <$> links a).
Proof.
  intros ->%app_some. unfold gatewayRoutes, subnetRoutes.
  rewrite !routes_at_level. fold (routes (stacksOf azs c ws)).
  rewrite routes_app, links_app, !omap_app, !omap_bind, !omap_triangle.
  unfold clientRoutes. rewrite !omap_bind.
  rewrite !length_app, fmap_app, sum_list_with_app, length_fmap.
  split.
  - rewrite (length_bind_sum _ (λ _, 0)), (length_bind_sum _ (λ _, 2)).
    2:{ intros w. unfold workerRoutes. rewrite omap_app, omap_atLevel_subnet.
        reflexivity. }
    2:{ intros w. by rewrite omap_atLevel_subnet. }
    rewrite (length_triangle_sum (λ _ : Link, 2) _ _
               (λ wx wy : IWorker, [pairLink wx wy]) none).
    2:{ intros wx wy. unfold pairRoutes. rewrite !omap_app, !omap_atLevel_subnet.
        reflexivity. }
    2:{ intros w. reflexivity. }
    rewrite !sum_list_fmap_const. lia.
  - rewrite (length_triangle_sum (λ l : Link, azs (createdIn l) + azs (peerRegion l)) _ _
               (λ wx wy : IWorker, [pairLink wx wy]) none).
    2:{ intros wx wy. unfold pairRoutes.
        rewrite !omap_app, !omap_atLevel_subnet, omap_atLevel_gateways, !length_app.
        rewrite !(decide_True (P := SubnetLevel = SubnetLevel)) by done.
        rewrite !length_fmap, !length_seq. cbn. lia. }
    2:{ intros w. reflexivity. }
    rewrite Nat.add_assoc. f_equal.
    rewrite (length_bind_sum _ (λ _, azs (region c))),
      (length_bind_sum _ (λ w : IWorker, azs (region w))).
    2:{ intros w. unfold workerRoutes.
        rewrite omap_app, omap_atLevel_subnet, omap_atLevel_gateways, length_app.
        rewrite decide_True by done.
        by rewrite length_fmap, length_seq, Nat.add_0_r. }
    2:{ intros w. rewrite omap_atLevel_subnet, decide_True by done.
        by rewrite length_fmap, length_seq. }
    rewrite <- list_fmap_compose.
    clear. induction ws as [|w ws IH]; [done|]. cbn in *. lia.
Qed.

Lemma route_counts_witness :
  length (gatewayRoutes shipped) = 6 ∧ length (subnetRoutes shipped) = 12.
Proof.
  exact (route_counts defaultAzs client workers shipped eq_refl).
Defined.

(** ** What the routes go through *)

(** A parameter of the application is read back with the value it was
    published with. *)
Lemma exchange_lookup (azs : string → nat) (c : IClient) (ws : list IWorker) k v :
  NoDup (regions c ws) →
  (k, v) ∈ published (stacksOf azs c ws) → exchangeOf (stacksOf azs c ws) !! k = Some v.
Proof.
  intros Hnd Hin. unfold exchangeOf.
  apply elem_of_list_to_map_1; [by apply published_slots|done].
Qed.

Lemma published_worker (azs : string → nat) (c : IClient) (ws : list IWorker)
    (w : IWorker) z :
  w ∈ ws → z ∈ workerKeys w → z ∈ published (stacksOf azs c ws).
Proof.
  intros Hw Hz. rewrite published_app. apply elem_of_app. right.
  apply elem_of_app. left. apply list_elem_of_bind. by exists w.
Qed.

Lemma published_pair (azs : string → nat) (c : IClient) (ws : list IWorker)
    i j (wi wj : IWorker) z :
  i < j → ws !! i = Some wi → ws !! j = Some wj →
  z ∈ pairKeys wi wj → z ∈ published (stacksOf azs c ws).
Proof.
  intros Hij Hi Hj Hz. rewrite published_app. apply elem_of_app. right.
  apply elem_of_app. right. apply elem_of_triangle. left. by exists i, j, wi, wj.
Qed.

Lemma elem_of_routes_at (azs : string → nat) (c : IClient) (ws : list IWorker) l r :
  r ∈ omap (asRouteAt l) (summary (stacksOf azs c ws)) ↔
    level r = l
    ∧ (r ∈ clientRoutes azs c ws
       ∨ (∃ w, w ∈ ws ∧ r ∈ workerRoutes azs c w)
       ∨ ∃ i j wi wj, i < j ∧ ws !! i = Some wi ∧ ws !! j = Some wj
                      ∧ r ∈ pairRoutes azs wi wj).
Proof.
  rewrite routes_at_level. fold (routes (stacksOf azs c ws)).
  rewrite routes_app, list_elem_of_omap. split.
  - intros (y & Hy & Hl). unfold atLevel in Hl.
    destruct (decide (level y = l)) as [E|]; [|done]. injection Hl as <-.
    split; [done|].
    rewrite !elem_of_app, list_elem_of_bind, elem_of_triangle in Hy.
    destruct Hy as [Hy|[(w & Hy & Hw)|[Hy|(? & _ & []%elem_of_nil)]]]; eauto.
  - intros [Hl Hr]. exists r. split.
    + rewrite !elem_of_app, list_elem_of_bind, elem_of_triangle.
      destruct Hr as [Hr|[(w & Hw & Hr)|Hr]]; eauto.
    + unfold atLevel. by rewrite decide_True.
Qed.

(** X3. Every gateway-level route entry sends the block of another site
    through the peering attachment that joins the two sites: the entry
    is in the default table of the gateway of a site [n], covers the
    block of a different site [m], and what it goes through, once the
    parameter it may be read from is resolved, is the attachment id of a
    peering attachment created in the region of one of the two sites
    and pointing at the region of the other. *)
Theorem gateway_routes_via_link (azs : string → nat) (c : IClient) (ws : list IWorker)
    (a : list Stack) :
  app azs c ws = Some a →
  NoDup (regions c ws) →
  ∀ r, r ∈ gatewayRoutes a →
    ∃ p q n m s k,
      p ≠ q ∧ sites c ws !! p = Some n ∧ sites c ws !! q = Some m
      ∧ table r = GatewayTable (ref (gateway n))
      ∧ destination r = cidr (node m)
      ∧ s ∈ a ∧ k ∈ constructs s ∧ isPeering k
      ∧ resolvedVia a r = attrTransitGatewayAttachmentId (sid s, cid k)
      ∧ ((env_region s = region (node n) ∧ peerOf k = region (node m))
         ∨ (env_region s = region (node m) ∧ peerOf k = region (node n))).
Proof.
  intros ->%app_some Hnd r Hr.
  apply elem_of_routes_at in Hr
    as [Hl [Hr|[(w & Hw & Hr)|(i & j & wi & wj & Hij & Hi & Hj & Hr)]]].
  - unfold clientRoutes in Hr. inv_constructs Hr. by subst r.
  - pose proof Hw as [jw Hjw]%list_elem_of_lookup.
    pose proof (worker_stack_in_app azs c ws w Hw) as Hs.
    unfold workerRoutes in Hr. inv_constructs Hr; subst r; try discriminate Hl.
    + exists (S jw), 0, (workerSite w), (clientSite c), (workerStackOf azs c ws w),
        (addDependsOn
           (mk "Peering Connection"
              (CfnTransitGatewayPeeringAttachment (region c)
                 (getParameterValue (workerId w, "TGW Param")) (ref (workerTgw w))))
           "TGW").
      split; [done|]. split; [apply sites_lookup_worker; by exists w|].
      split; [done|]. split; [done|]. split; [done|]. split; [done|].
      split; [do 3 right; left|]. split; [exact I|]. split; [done|]. by left.
    + exists 0, (S jw), (clientSite c), (workerSite w), (workerStackOf azs c ws w),
        (addDependsOn
           (mk "Peering Connection"
              (CfnTransitGatewayPeeringAttachment (region c)
                 (getParameterValue (workerId w, "TGW Param")) (ref (workerTgw w))))
           "TGW").
      split; [done|]. split; [done|].
      split; [apply sites_lookup_worker; by exists w|].
      split; [done|]. split; [done|]. split; [done|].
      split; [do 3 right; left|]. split; [exact I|]. split; [|by right].
      unfold resolvedVia. cbn [viaKey mkGatewayRoute].
      erewrite exchange_lookup; [reflexivity|done|].
      apply (published_worker azs c ws w); [done|]. right. left.
  - pose proof (link_stack_in_app azs c ws i j wi wj Hij Hi Hj) as Hs.
    unfold pairRoutes in Hr. inv_constructs Hr; subst r; try discriminate Hl.
    + exists (S i), (S j), (workerSite wi), (workerSite wj), (linkStackOf azs wi wj),
        (mk "Peering Connection"
           (CfnTransitGatewayPeeringAttachment (region wj)
              (getParameterValue (pairId wi wj, "TGW Param - " +:+ region wj))
              (getParameterValue (pairId wi wj, "TGW Param - " +:+ region wi)))).
      split; [lia|]. split; [apply sites_lookup_worker; by exists wi|].
      split; [apply sites_lookup_worker; by exists wj|].
      split; [done|]. split; [done|]. split; [done|].
      split; [do 2 right; left|]. split; [exact I|]. split; [done|]. by left.
    + exists (S j), (S i), (workerSite wj), (workerSite wi), (linkStackOf azs wi wj),
        (mk "Peering Connection"
           (CfnTransitGatewayPeeringAttachment (region wj)
              (getParameterValue (pairId wi wj, "TGW Param - " +:+ region wj))
              (getParameterValue (pairId wi wj, "TGW Param - " +:+ region wi)))).
      split; [lia|]. split; [apply sites_lookup_worker; by exists wj|].
      split; [apply sites_lookup_worker; by exists wi|].
      split; [done|]. split; [done|]. split; [done|].
      split; [do 2 right; left|]. split; [exact I|]. split; [|by right].
      unfold resolvedVia. cbn [viaKey mkGatewayRoute].
      erewrite exchange_lookup; [reflexivity|done|].
      apply (published_pair azs c ws i j wi wj); [done..|]. left.
Qed.

Lemma gateway_routes_witness :
  let a := shipped in
  ∃ r, gatewayRoutes a !! 1 = Some r
       ∧ ∃ s k, s ∈ a ∧ k ∈ constructs s ∧ isPeering k
                ∧ resolvedVia a r = attrTransitGatewayAttachmentId (sid s, cid k).
Proof.
  intros a. eexists. split; [reflexivity|].
  edestruct (gateway_routes_via_link defaultAzs client workers shipped eq_refl)
    as (p & q & n & m & s & k & _ & _ & _ & _ & _ & Hs & Hk & Hp & Hv & _).
  - refine (bool_decide_unpack _ _). vm_compute. exact I.
  - apply list_elem_of_lookup. exists 1. reflexivity.
  - exists s, k. split; [exact Hs|]. split; [exact Hk|]. split; [exact Hp|exact Hv].
Defined.

(** X4. Every subnet-level route entry sends the block of another site to
    the gateway of its own site: the entry is in the table of a private
    subnet of the network of a site [n], covers the block of a
    different site [m], and what it goes through, once the parameter it
    may be read from is resolved, is the gateway of [n], the one the
    network of [n] is attached to. *)
Theorem subnet_routes_via_own_gateway (azs : string → nat) (c : IClient)
    (ws : list IWorker) (a : list Stack) :
  app azs c ws = Some a →
  NoDup (regions c ws) →
  ∀ r, r ∈ subnetRoutes a →
    ∃ p q n m i,
      p ≠ q ∧ sites c ws !! p = Some n ∧ sites c ws !! q = Some m
      ∧ table r = SubnetTable (network n) i ∧ i < azs (region (node n))
      ∧ destination r = cidr (node m)
      ∧ resolvedVia a r = ref (gateway n)
      ∧ (region (node n), (ref (gateway n), vpcId (network n))) ∈ attachments a.
Proof.
  intros ->%app_some Hnd r Hr.
  assert (Hatt : ∀ w : IWorker, w ∈ ws →
            (region w, (ref (workerTgw w), vpcId (workerVpc w)))
            ∈ attachments (stacksOf azs c ws)).
  { intros w Hw. rewrite attachments_app. right. apply list_elem_of_fmap. by exists w. }
  apply elem_of_routes_at in Hr
    as [Hl [Hr|[(w & Hw & Hr)|(i & j & wi & wj & Hij & Hi & Hj & Hr)]]].
  - unfold clientRoutes in Hr. apply list_elem_of_bind in Hr as (w & Hr & Hw).
    pose proof Hw as [jw Hjw]%list_elem_of_lookup.
    apply list_elem_of_fmap in Hr as (k & -> & Hk%elem_of_seq).
    exists 0, (S jw), (clientSite c), (workerSite w), k.
    split; [done|]. split; [done|]. split; [apply sites_lookup_worker; by exists w|].
    split; [done|]. split; [cbn; lia|]. split; [done|]. split; [done|].
    rewrite attachments_app. left.
  - pose proof Hw as [jw Hjw]%list_elem_of_lookup.
    unfold workerRoutes in Hr. apply elem_of_app in Hr as [Hr|Hr].
    + apply list_elem_of_fmap in Hr as (k & -> & Hk%elem_of_seq).
      exists (S jw), 0, (workerSite w), (clientSite c), k.
      split; [done|]. split; [apply sites_lookup_worker; by exists w|].
      split; [done|]. split; [done|]. split; [cbn; lia|]. split; [done|].
      split; [done|]. by apply Hatt.
    + inv_elem Hr; subst r; discriminate Hl.
  - pose proof (list_elem_of_lookup_2 _ _ _ Hi) as Hwi.
    pose proof (list_elem_of_lookup_2 _ _ _ Hj) as Hwj.
    unfold pairRoutes in Hr. rewrite !elem_of_app in Hr.
    destruct Hr as [Hr|[Hr|Hr]].
    + apply list_elem_of_fmap in Hr as (k & -> & Hk%elem_of_seq).
      exists (S i), (S j), (workerSite wi), (workerSite wj), k.
      split; [lia|]. split; [apply sites_lookup_worker; by exists wi|].
      split; [apply sites_lookup_worker; by exists wj|].
      split; [done|]. split; [cbn; lia|]. split; [done|].
      split; [|by apply Hatt].
      unfold resolvedVia. cbn [viaKey mkSubnetRoute].
      erewrite exchange_lookup; [reflexivity|done|].
      apply (published_worker azs c ws wi); [done|]. left.
    + inv_elem Hr; subst r; discriminate Hl.
    + apply list_elem_of_fmap in Hr as (k & -> & Hk%elem_of_seq).
      exists (S j), (S i), (workerSite wj), (workerSite wi), k.
      split; [lia|]. split; [apply sites_lookup_worker; by exists wj|].
      split; [apply sites_lookup_worker; by exists wi|].
      split; [done|]. split; [cbn; lia|]. split; [done|].
      split; [done|]. by apply Hatt.
Qed.

Lemma subnet_routes_witness :
  let a := shipped in
  ∃ r, subnetRoutes a !! 8 = Some r
       ∧ ∃ n, n ∈ sites client workers ∧ resolvedVia a r = ref (gateway n).
Proof.
  intros a. eexists. split; [reflexivity|].
  edestruct (subnet_routes_via_own_gateway defaultAzs client workers shipped eq_refl)
    as (p & q & n & m & i & _ & Hp & _ & _ & _ & _ & Hv & _).
  - refine (bool_decide_unpack _ _). vm_compute. exact I.
  - apply list_elem_of_lookup. exists 8. reflexivity.
  - exists n. split; [by eapply list_elem_of_lookup_2|exact Hv].
Defined.

(** ** Looking up the default table of a gateway *)

(** X15. Every lookup of the default route table of a gateway describes
    the gateway of a site, is made by a stack of the region of that
    site, and calls [describeTransitGateways] once, in that region, with
    the reference of that gateway. *)
Theorem table_lookups_in_gateway_region (azs : string → nat) (c : IClient)
    (ws : list IWorker) (a : list Stack) (s : Stack) (k : Construct) (v : Value)
    (r : string) :
  app azs c ws = Some a →
  s ∈ a → k ∈ constructs s → resource k = TransitGatewayRouteTable v r →
  ∃ n, n ∈ sites c ws
       ∧ v = ref (gateway n) ∧ r = region (node n) ∧ env_region s = r
       ∧ (region (node n), gateway n) ∈ gateways a
       ∧ customResource (resource k) ≫= createCall
         = Some {| service := "EC2"; action := "describeTransitGateways";
                   parameters := [("TransitGatewayIds", ref (gateway n))];
                   callRegion := region (node n);
                   physicalResourceId := "TransitGateways-AssociationDefaultRouteTableId";
                   ignoreErrorCodesMatching := None |}.
Proof.
  intros ->%app_some Hs Hk E.
  assert (Hsite : ∀ w : IWorker, w ∈ ws → workerSite w ∈ sites c ws).
  { intros w Hw. right. apply list_elem_of_fmap. by exists w. }
  assert (Hgw : ∀ w : IWorker, w ∈ ws →
            (region w, workerTgw w) ∈ gateways (stacksOf azs c ws)).
  { intros w Hw. rewrite gateways_app. right. apply list_elem_of_fmap. by exists w. }
  apply elem_of_app_stacks in Hs
    as [->|[(w & Hw & Hs)|[(i & j & wi & wj & Hij & Hi & Hj & Hs)|(w & Hw & Hs)]]].
  - cbn [constructs ClientRegion.stack ClientRegion.new] in Hk.
    unfold ClientRegion.setupEnvironment, ClientRegion.setupOpenSearch in Hk.
    inv_constructs Hk; subst k; discriminate E.
  - unfold workerStacks in Hs. inv_constructs Hs; subst s.
    + cbn [constructs newWorker workerAddDependency addDependency
           WorkerRegion.stack WorkerRegion.new] in Hk.
      unfold WorkerRegion.setupEnvironment, WorkerRegion.acceptRequest,
        WorkerRegion.setupRegionalLustre in Hk.
      inv_constructs Hk; subst k; discriminate E.
    + cbn [constructs addDependency WorkerRegionTransitGatewayRoute.new] in Hk.
      inv_constructs Hk; subst k; try discriminate E.
      rewrite E. injection E as <- <-. exists (workerSite w).
      split; [by apply Hsite|]. repeat split; try done. by apply Hgw.
    + cbn [constructs addDependency ClientToWorkerTransitGatewayRoute.new] in Hk.
      inv_constructs Hk; subst k; try discriminate E.
      rewrite E. injection E as <- <-. exists (clientSite c).
      split; [left|]. repeat split; try done. rewrite gateways_app. left.
  - pose proof (list_elem_of_lookup_2 _ _ _ Hi) as Hwi.
    pose proof (list_elem_of_lookup_2 _ _ _ Hj) as Hwj.
    unfold pairStacksOf in Hs. inv_constructs Hs; subst s.
    + cbn [constructs WorkerToWorkerTGW.stack WorkerToWorkerTGW.new] in Hk.
      unfold WorkerToWorkerTGW.acceptRequest in Hk.
      inv_constructs Hk; subst k; discriminate E.
    + cbn [constructs addDependency WorkerRegionTransitGatewayRoute.new] in Hk.
      inv_constructs Hk; subst k; try discriminate E.
      rewrite E. injection E as <- <-. exists (workerSite wi).
      split; [by apply Hsite|]. repeat split; try done. by apply Hgw.
    + cbn [constructs addDependency InterRegionTransitGatewayRoute.new] in Hk.
      inv_constructs Hk; subst k; try discriminate E.
      rewrite E. injection E as <- <-. exists (workerSite wj).
      split; [by apply Hsite|]. repeat split; try done. by apply Hgw.
  - unfold syncStackOf in Hs. inv_constructs Hs; subst s.
    cbn [constructs syncStackWith] in Hk.
    unfold SyncLustreToOpenSearch.updates in Hk.
    inv_constructs Hk; subst k; discriminate E.
Qed.

Lemma table_lookups_witness :
  let a := shipped in
  ∃ s k, a !! 3 = Some s ∧ constructs s !! 0 = Some k
         ∧ ∃ n, n ∈ sites client workers
                ∧ env_region s = region (node n)
                ∧ (region (node n), gateway n) ∈ gateways a.
Proof.
  intros a. eexists _, _. split; [reflexivity|]. split; [reflexivity|].
  edestruct (table_lookups_in_gateway_region defaultAzs client workers shipped)
    as (n & Hn & _ & Hr & He & Hg & _).
  - reflexivity.
  - apply list_elem_of_lookup. exists 3. reflexivity.
  - apply list_elem_of_lookup. exists 0. reflexivity.
  - reflexivity.
  - exists n. split; [exact Hn|]. split; [|exact Hg]. rewrite <- Hr. exact He.
Defined.

(** ** References between stacks *)

Lemma elem_of_stackReferences (s : Stack) (d : string) :
  d ∈ stackReferences s ↔
    d ≠ sid s ∧ ∃ k p, k ∈ constructs s ∧ p ∈ constructPaths k ∧ p.1 = d.
Proof.
  unfold stackReferences. rewrite list_elem_of_filter, list_elem_of_fmap.
  split.
  - intros [Hne (p & -> & (k & Hp & Hk)%list_elem_of_bind)]. eauto 6.
  - intros [Hne (k & p & Hk & Hp & <-)]. split; [done|].
    exists p. split; [done|]. apply list_elem_of_bind. eauto.
Qed.

(** The paths a construct refers to, case by case. *)
Ltac inv_paths Hp :=
  let v := fresh "v" in
  let Hv := fresh "Hv" in
  unfold constructPaths in Hp;
  cbn [resource addDependsOn mk resourceValues] in Hp;
  apply list_elem_of_bind in Hp as (v & Hp & Hv);
  unfold subnetIds in Hv;
  inv_constructs Hv; subst; cbn in Hp; inv_elem Hp; subst.

(** The stacks a stack refers to, case by case: [H] becomes the
    equation that names the stack referred to. *)
Ltac inv_refs H :=
  let Hne := fresh "Hne" in
  let k := fresh "k" in
  let p := fresh "p" in
  let Hk := fresh "Hk" in
  let Hp := fresh "Hp" in
  apply elem_of_stackReferences in H as (Hne & k & p & Hk & Hp & H);
  cbn [constructs ClientRegion.stack ClientRegion.new WorkerRegion.stack WorkerRegion.new
       newWorker workerAddDependency addDependency
       WorkerRegionTransitGatewayRoute.new ClientToWorkerTransitGatewayRoute.new
       WorkerToWorkerTGW.stack WorkerToWorkerTGW.new InterRegionTransitGatewayRoute.new
       syncStackWith linkStackOf workerStackOf] in Hk;
  unfold ClientRegion.setupEnvironment, ClientRegion.setupOpenSearch,
    WorkerRegion.setupEnvironment, WorkerRegion.acceptRequest,
    WorkerRegion.setupRegionalLustre, WorkerToWorkerTGW.acceptRequest,
    SyncLustreToOpenSearch.updates in Hk;
  inv_constructs Hk; subst k; inv_paths Hp;
  cbn [fst sid ClientRegion.stack ClientRegion.new WorkerRegion.stack WorkerRegion.new
       newWorker workerAddDependency addDependency vpcPath newVpc
       WorkerRegion.vpc WorkerRegion.tgw WorkerRegion.attachmentID WorkerRegion.lustre
       WorkerRegionTransitGatewayRoute.new ClientToWorkerTransitGatewayRoute.new
       WorkerToWorkerTGW.stack WorkerToWorkerTGW.new WorkerToWorkerTGW.attachmentID
       InterRegionTransitGatewayRoute.new syncStackWith
       ClientRegion.clientTGW ClientRegion.vpc] in *.

Section References.
Context (azs : string → nat) (c : IClient) (ws : list IWorker).

Let CS := ClientRegion.new azs "Client-Region" (region c) (cidr c) ws.

Lemma client_stack_in_app : ClientRegion.stack CS ∈ stacksOf azs c ws.
Proof. rewrite app_triangle. left. Qed.

(** Picks the stack a reference names: the client's stack, a worker's
    stack or a link stack. *)
Ltac name_stack :=
  first
    [ refine (ex_intro _ (ClientRegion.stack CS)
                (conj client_stack_in_app (conj eq_refl eq_refl)))
    | refine (ex_intro _ (workerStackOf azs c ws _) (conj _ (conj eq_refl eq_refl)));
      apply worker_stack_in_app; assumption
    | refine (ex_intro _ (linkStackOf azs _ _) (conj _ (conj eq_refl eq_refl)));
      eapply link_stack_in_app; eassumption ].

(** X5. A stack reads the attributes of the constructs of another stack
    only when the two stacks are deployed to the same region: every
    reference between stacks names a stack of the application that has
    the region of the referring stack. What crosses regions goes through
    parameters. *)
Theorem references_stay_in_region (a : list Stack) (s : Stack) (d : string) :
  app azs c ws = Some a →
  s ∈ a → d ∈ stackReferences s →
  ∃ t, t ∈ a ∧ sid t = d ∧ env_region t = env_region s.
Proof.
  intros ->%app_some Hs Hd.
  apply elem_of_app_stacks in Hs
    as [->|[(w & Hw & Hs)|[(i & j & wi & wj & Hij & Hi & Hj & Hs)|(w & Hw & Hs)]]].
  - inv_refs Hd; done.
  - unfold workerStacks in Hs. inv_constructs Hs; subst s; inv_refs Hd;
      first [done | name_stack].
  - pose proof (list_elem_of_lookup_2 _ _ _ Hi) as Hwi.
    pose proof (list_elem_of_lookup_2 _ _ _ Hj) as Hwj.
    unfold pairStacksOf in Hs. inv_constructs Hs; subst s; inv_refs Hd;
      first [done | name_stack].
  - unfold syncStackOf in Hs. inv_constructs Hs; subst s; inv_refs Hd;
      first [done | name_stack].
Qed.

End References.

Lemma references_witness :
  let a := shipped in
  ∃ s, a !! 2 = Some s
       ∧ ∃ t, t ∈ a ∧ sid t = "Worker-Region-us-east-1" ∧ env_region t = env_region s.
Proof.
  intros a. eexists. split; [reflexivity|].
  eapply (references_stay_in_region defaultAzs client workers shipped).
  - reflexivity.
  - apply list_elem_of_lookup. exists 2. reflexivity.
  - refine (bool_decide_unpack _ _). vm_compute. exact I.
Defined.

(** ** The creation order as a deployment order *)

Lemma respectsDeps_mono (l : list Stack) : ∀ seen seen',
  seen ⊆ seen' → respectsDeps seen l → respectsDeps seen' l.
Proof.
  induction l as [|s l IH]; intros seen seen' Hsub; [done|].
  cbn [respectsDeps]. intros [Hd Hl]. split.
  - eapply Forall_impl; [exact Hd|]. intros d. apply Hsub.
  - eapply IH; [|exact Hl]. intros x [Hx|Hx]%elem_of_app; apply elem_of_app; auto.
Qed.

Lemma respectsDeps_app (l1 l2 : list Stack) : ∀ seen,
  respectsDeps seen (l1 ++ l2)
  ↔ respectsDeps seen l1 ∧ respectsDeps (seen ++ (sid <$> l1)) l2.
Proof.
  induction l1 as [|s l1 IH]; intros seen.
  - cbn. rewrite app_nil_r. tauto.
  - change (respectsDeps seen ((s :: l1) ++ l2))
      with (Forall (λ d, d ∈ seen) (stackDeps s)
            ∧ respectsDeps (seen ++ [sid s]) (l1 ++ l2)).
    change (respectsDeps seen (s :: l1))
      with (Forall (λ d, d ∈ seen) (stackDeps s) ∧ respectsDeps (seen ++ [sid s]) l1).
    rewrite IH. change (sid <$> s :: l1) with ([sid s] ++ (sid <$> l1)).
    rewrite (assoc_L (++)). tauto.
Qed.

Lemma respectsDeps_bind {A} (f : A → list Stack) (S : list string) (l : list A) :
  (∀ x seen, x ∈ l → S ⊆ seen → respectsDeps seen (f x)) →
  ∀ seen, S ⊆ seen → respectsDeps seen (l ≫= f).
Proof.
  induction l as [|x l IH]; intros Hf seen Hsub; [done|].
  cbn [mbind list_bind]. apply respectsDeps_app. split.
  - apply Hf; [left|done].
  - apply IH.
    + intros y seen' Hy. apply Hf. by right.
    + intros d Hd. apply elem_of_app. left. by apply Hsub.
Qed.

Lemma respectsDeps_triangle {A} (pair : A → A → list Stack) (each : A → list Stack)
    (S : list string) (l : list A) :
  (∀ x y seen, x ∈ l → y ∈ l → S ⊆ seen → respectsDeps seen (pair x y)) →
  (∀ x seen, x ∈ l → S ⊆ seen → respectsDeps seen (each x)) →
  ∀ seen, S ⊆ seen → respectsDeps seen (triangle pair each l).
Proof.
  induction l as [|x l IH]; intros Hp He seen Hsub; [done|].
  cbn [triangle]. apply respectsDeps_app. split; [|apply respectsDeps_app; split].
  - apply (respectsDeps_bind _ S); [|done].
    intros y seen' Hy. apply Hp; [left|by right].
  - apply He; [left|]. intros d Hd. apply elem_of_app. left. by apply Hsub.
  - apply IH.
    + intros y z seen' Hy Hz. apply Hp; by right.
    + intros y seen' Hy. apply He; by right.
    + intros d Hd. apply elem_of_app. left. apply elem_of_app. left. by apply Hsub.
Qed.

Lemma respectsDeps_lookup (l : list Stack) : ∀ seen i s d,
  respectsDeps seen l → l !! i = Some s → d ∈ stackDeps s →
  d ∈ seen ∨ ∃ j t, j < i ∧ l !! j = Some t ∧ sid t = d.
Proof.
  induction l as [|s0 l IH]; intros seen i s d Hl Hi Hd; [done|].
  destruct Hl as [H0 Hl]. destruct i as [|i].
  - injection Hi as <-. left. rewrite Forall_forall in H0. by apply H0.
  - destruct (IH _ i s d Hl Hi Hd) as [[Hs| ->%list_elem_of_singleton]%elem_of_app
                                      |(j & t & Hj & Ht & E)].
    + by left.
    + right. exists 0, s0. split; [lia|done].
    + right. exists (S j), t. split; [lia|done].
Qed.

Section CreationOrder.
Context (azs : string → nat) (c : IClient) (ws : list IWorker).

Let CS := ClientRegion.new azs "Client-Region" (region c) (cidr c) ws.

(** The dependencies of a stack, declared or by reference, case by
    case. *)
Ltac inv_deps H :=
  unfold stackDeps in H; apply elem_of_app in H as [H|H];
  [ cbn in H; inv_elem H; subst | inv_refs H ].

Ltac all_deps :=
  apply Forall_forall;
  let d := fresh "d" in
  let Hd := fresh "Hd" in
  intros d Hd; inv_deps Hd;
  try done.

Lemma order_worker (w : IWorker) seen :
  ["Client-Region"] ⊆ seen → respectsDeps seen (workerStacks azs c CS w).
Proof.
  intros Hsub. assert (Hc : "Client-Region" ∈ seen) by (apply Hsub; left).
  unfold workerStacks. cbn [respectsDeps].
  repeat split; all_deps; rewrite ?elem_of_app, ?list_elem_of_singleton; auto.
Qed.

Lemma order_pair (wx wy : IWorker) seen :
  [workerId wx; workerId wy] ⊆ seen →
  respectsDeps seen (pairStacksOf azs c CS wx wy).
Proof.
  intros Hsub.
  assert (Hx : workerId wx ∈ seen) by (apply Hsub; left).
  assert (Hy : workerId wy ∈ seen) by (apply Hsub; right; left).
  unfold pairStacksOf. cbn [respectsDeps].
  repeat split; all_deps; rewrite ?elem_of_app, ?list_elem_of_singleton; auto.
Qed.

Lemma order_sync (w : IWorker) seen :
  [workerId w] ⊆ seen → respectsDeps seen (syncStackOf azs c CS w).
Proof.
  intros Hsub. assert (Hx : workerId w ∈ seen) by (apply Hsub; left).
  unfold syncStackOf. cbn [respectsDeps].
  repeat split; all_deps; auto.
Qed.

Lemma order_app : respectsDeps [] (stacksOf azs c ws).
Proof.
  rewrite app_triangle. fold CS. apply respectsDeps_app. split.
  - cbn [respectsDeps]. repeat split; all_deps.
  - apply respectsDeps_app. split.
    + apply (respectsDeps_bind _ ["Client-Region"]).
      * intros w seen _. apply order_worker.
      * intros d ->%list_elem_of_singleton. left.
    + apply (respectsDeps_triangle _ _ ((λ w : IWorker, workerId w) <$> ws)).
      * intros wx wy seen Hx Hy Hsub. apply order_pair.
        intros d Hd. apply Hsub. inv_elem Hd; subst d;
          apply list_elem_of_fmap; eauto.
      * intros w seen Hw Hsub. apply order_sync.
        intros d ->%list_elem_of_singleton. apply Hsub.
        apply list_elem_of_fmap; eauto.
      * intros d (w & -> & Hw)%list_elem_of_fmap.
        apply elem_of_app. right. apply list_elem_of_fmap.
        exists (WorkerRegion.stack (newWorker azs c CS w)). split; [done|].
        apply list_elem_of_bind. exists w. split; [left|done].
Qed.

End CreationOrder.

(** X6. In the order in which the program creates them, every stack comes
    after all the stacks it depends on, by declaration or by reference:
    for every configuration the creation order is an order in which the
    stacks can be deployed, and every dependency names a stack of the
    application. *)
Theorem creation_order_respects_dependencies
    (azs : string → nat) (c : IClient) (ws : list IWorker) (a : list Stack) :
  app azs c ws = Some a →
  respectsDeps [] a
  ∧ ∀ i s d, a !! i = Some s → d ∈ stackDeps s →
      ∃ j t, j < i ∧ a !! j = Some t ∧ sid t = d.
Proof.
  intros ->%app_some.
  split; [apply order_app|]. intros i s d Hi Hd.
  destruct (respectsDeps_lookup (stacksOf azs c ws) [] i s d (order_app azs c ws) Hi Hd)
    as [[]%elem_of_nil|H]; exact H.
Qed.

Lemma creation_order_witness : respectsDeps [] shipped.
Proof.
  exact (proj1 (creation_order_respects_dependencies defaultAzs client workers shipped
                  eq_refl)).
Defined.

(** ** The dependency graph has no cycle *)

Lemma requires_earlier (a : list Stack) (x y : string) :
  NoDup (sid <$> a) → respectsDeps [] a → Requires a x y →
  ∃ i j s t, j < i ∧ a !! i = Some s ∧ a !! j = Some t ∧ sid s = x ∧ sid t = y.
Proof.
  intros Hnd Hord Hreq.
  induction Hreq as [s d [i Hi]%list_elem_of_lookup Hd|x y z _ IH1 _ IH2].
  - destruct (respectsDeps_lookup a [] i s d Hord Hi Hd)
      as [[]%elem_of_nil|(j & t & Hj & Ht & E)].
    by exists i, j, s, t.
  - destruct IH1 as (i & j & s & t & Hji & Hi & Hj & Hs & Ht).
    destruct IH2 as (i' & j' & s' & t' & Hji' & Hi' & Hj' & Hs' & Ht').
    assert (j = i').
    { apply (NoDup_lookup (sid <$> a) j i' y); [done| |].
      - by rewrite list_lookup_fmap, Hj, <- Ht.
      - by rewrite list_lookup_fmap, Hi', <- Hs'. }
    subst i'. exists i, j', s, t'. split; [lia|done].
Qed.

(** X7. When the ids of the stacks are pairwise distinct, a stack requires,
    directly or through other stacks, only stacks the program creates
    before it; so no stack requires itself and the declared dependencies
    contain no cycle. *)
Theorem dependencies_acyclic (azs : string → nat) (c : IClient) (ws : list IWorker)
    (a : list Stack) :
  app azs c ws = Some a →
  NoDup (sid <$> a) →
  (∀ x y, Requires a x y →
     ∃ i j s t, j < i ∧ a !! i = Some s ∧ a !! j = Some t ∧ sid s = x ∧ sid t = y)
  ∧ (∀ x, ¬ Requires a x x).
Proof.
  intros Ha%app_some Hnd.
  assert (H : ∀ x y, Requires a x y →
            ∃ i j s t, j < i ∧ a !! i = Some s ∧ a !! j = Some t ∧ sid s = x ∧ sid t = y).
  { intros x y. apply requires_earlier; [done|].
    rewrite Ha. apply order_app. }
  split; [exact H|]. intros x Hx.
  destruct (H x x Hx) as (i & j & s & t & Hji & Hi & Hj & Hs & Ht).
  assert (i = j); [|lia].
  apply (NoDup_lookup (sid <$> a) i j x); [done| |].
  - by rewrite list_lookup_fmap, Hi, <- Hs.
  - by rewrite list_lookup_fmap, Hj, <- Ht.
Qed.

Lemma dependencies_acyclic_witness :
  ¬ Requires shipped "Client-Region" "Client-Region".
Proof.
  apply (dependencies_acyclic defaultAzs client workers shipped eq_refl).
  refine (bool_decide_unpack _ _). vm_compute. exact I.
Defined.

(** ** Who publishes what a stack fetches *)

Section Producers.
Context (azs : string → nat) (c : IClient) (ws : list IWorker).

Let CS := ClientRegion.new azs "Client-Region" (region c) (cidr c) ws.

Lemma client_publishes name v :
  mk name.1 (StringParameter (name.2 +:+ region c) v)
  ∈ [ mk "TGW Param" (StringParameter ("tgw-param-" +:+ region c) (ref clientTgw));
      mk "PrivateNP Param"
        (StringParameter ("privatenp-hostedid-param-" +:+ region c)
           (Attr ("Client-Region", "local-dask") "namespaceHostedZoneId"));
      mk "OpenSearch ARN"
        (StringParameter ("client-opensearch-arn-" +:+ region c)
           (Attr ("Client-Region", "OpenSearch Domain") "domainArn")) ] →
  publishes (ClientRegion.stack CS) (region c) (name.2 +:+ region c).
Proof.
  intros Hin. split; [done|].
  exists (mk name.1 (StringParameter (name.2 +:+ region c) v)), v. split; [|done].
  cbn [constructs ClientRegion.stack ClientRegion.new CS].
  unfold ClientRegion.setupEnvironment, ClientRegion.setupOpenSearch.
  rewrite !elem_of_app. inv_elem Hin; rewrite Hin.
  - left. left. do 2 right. left.
  - left. right. right. right. left.
  - right. do 2 right. left.
Qed.

Lemma worker_requires_client (w : IWorker) :
  w ∈ ws → Requires (stacksOf azs c ws) (workerId w) "Client-Region".
Proof.
  intros Hw.
  apply (requires_direct _ (workerStackOf azs c ws w)); [by apply worker_stack_in_app|].
  apply elem_of_app. left. left.
Qed.

Lemma worker_publishes (w : IWorker) name v :
  mk name.1 (StringParameter name.2 v)
  ∈ [ mk ("TGW Param - " +:+ region w)
        (StringParameter ("tgw-param-" +:+ region w) (ref (workerTgw w)));
      mk "TGW Attach Param"
        (StringParameter ("tgw-attachmentid-" +:+ region w)
           (attrTransitGatewayAttachmentId (workerPeering w))) ] →
  publishes (workerStackOf azs c ws w) (region w) name.2.
Proof.
  intros Hin. split; [done|].
  exists (mk name.1 (StringParameter name.2 v)), v. split; [|done].
  cbn [constructs workerStackOf newWorker workerAddDependency addDependency
       WorkerRegion.stack WorkerRegion.new].
  unfold WorkerRegion.setupEnvironment, WorkerRegion.acceptRequest.
  rewrite !elem_of_app. inv_elem Hin; rewrite Hin.
  - left. left. right. left.
  - left. right. right. left. do 2 right. left.
Qed.

(** X8. Every parameter a stack fetches is published, in the region the
    fetch queries, by a stack of the application that the fetching stack
    requires through its dependencies, with one exception: the stack
    that links two workers fetches the gateway of the target worker,
    which the target worker's stack publishes, without requiring that
    stack. The dependency of a link stack on the stack of its own worker
    comes only from the route tables of the worker's private subnets,
    hence the condition that every worker network has one. *)
Theorem fetched_parameters_have_producers (a : list Stack) (s : Stack) (k : Construct)
    (name r : string) :
  app azs c ws = Some a →
  (∀ w : IWorker, w ∈ ws → 0 < azs (region w)) →
  s ∈ a → k ∈ constructs s → resource k = SSMParameterReader name r →
  ∃ t, t ∈ a ∧ publishes t r name
       ∧ (Requires a (sid s) (sid t)
          ∨ ∃ i j (wi wj : IWorker),
              i < j ∧ ws !! i = Some wi ∧ ws !! j = Some wj
              ∧ s = linkStackOf azs wi wj ∧ t = workerStackOf azs c ws wj
              ∧ name = "tgw-param-" +:+ region wj ∧ r = region wj).
Proof.
  intros ->%app_some Hazs Hs Hk E. pose proof Hs as Hin.
  apply elem_of_app_stacks in Hs
    as [->|[(w & Hw & Hs)|[(i & j & wi & wj & Hij & Hi & Hj & Hs)|(w & Hw & Hs)]]].
  - cbn [constructs ClientRegion.stack ClientRegion.new] in Hk.
    unfold ClientRegion.setupEnvironment, ClientRegion.setupOpenSearch in Hk.
    inv_constructs Hk; subst k; discriminate E.
  - unfold workerStacks in Hs. inv_constructs Hs; subst s.
    + cbn [constructs newWorker workerAddDependency addDependency
           WorkerRegion.stack WorkerRegion.new] in Hk.
      unfold WorkerRegion.setupEnvironment, WorkerRegion.acceptRequest,
        WorkerRegion.setupRegionalLustre in Hk.
      inv_constructs Hk; subst k; try discriminate E; injection E as <- <-;
        exists (ClientRegion.stack CS);
        (split; [apply client_stack_in_app|]);
        (split; [|left; by apply worker_requires_client]).
      * apply (client_publishes ("TGW Param", "tgw-param-") (ref clientTgw)). left.
      * apply (client_publishes ("PrivateNP Param", "privatenp-hostedid-param-")
                 (Attr ("Client-Region", "local-dask") "namespaceHostedZoneId")).
        right. left.
    + cbn [constructs addDependency WorkerRegionTransitGatewayRoute.new] in Hk.
      inv_constructs Hk; subst k; discriminate E.
    + cbn [constructs addDependency ClientToWorkerTransitGatewayRoute.new] in Hk.
      inv_constructs Hk; subst k; try discriminate E. injection E as <- <-.
      exists (workerStackOf azs c ws w).
      split; [by apply worker_stack_in_app|]. split.
      * apply (worker_publishes w ("TGW Attach Param", "tgw-attachmentid-" +:+ region w)
                 (attrTransitGatewayAttachmentId (workerPeering w))).
        right. left.
      * left. apply requires_direct; [done|]. apply elem_of_app. left. left.
  - pose proof (list_elem_of_lookup_2 _ _ _ Hi) as Hwi.
    pose proof (list_elem_of_lookup_2 _ _ _ Hj) as Hwj.
    unfold pairStacksOf in Hs. inv_constructs Hs; subst s.
    + cbn [constructs WorkerToWorkerTGW.stack WorkerToWorkerTGW.new] in Hk.
      unfold WorkerToWorkerTGW.acceptRequest in Hk.
      inv_constructs Hk; subst k; try discriminate E; injection E as <- <-.
      * exists (workerStackOf azs c ws wj).
        split; [by apply worker_stack_in_app|]. split.
        -- apply (worker_publishes wj
                    ("TGW Param - " +:+ region wj, "tgw-param-" +:+ region wj)
                    (ref (workerTgw wj))). left.
        -- right. by exists i, j, wi, wj.
      * exists (workerStackOf azs c ws wi).
        split; [by apply worker_stack_in_app|]. split.
        -- apply (worker_publishes wi
                    ("TGW Param - " +:+ region wi, "tgw-param-" +:+ region wi)
                    (ref (workerTgw wi))). left.
        -- left. apply requires_direct; [done|]. apply elem_of_app. right.
           apply elem_of_stackReferences. split; [done|].
           exists (addDependsOn
                     (mk ("Subnet to TGW - " +:+ subnetName (workerVpc wi) 0)
                        (CfnRoute (routeTableId (workerVpc wi) 0) (cidr wj)
                           (getParameterValue
                              (pairId wi wj, "TGW Param - " +:+ region wi))))
                     "Peering Connection"),
             (workerVpc wi).
           split; [|split; [left|done]].
           cbn [constructs WorkerToWorkerTGW.stack WorkerToWorkerTGW.new].
           apply elem_of_app. right. apply elem_of_app. right.
           apply list_elem_of_fmap. exists 0. split; [done|].
           apply elem_of_seq. specialize (Hazs wi Hwi). cbn. lia.
    + cbn [constructs addDependency WorkerRegionTransitGatewayRoute.new] in Hk.
      inv_constructs Hk; subst k; discriminate E.
    + cbn [constructs addDependency InterRegionTransitGatewayRoute.new] in Hk.
      inv_constructs Hk; subst k; try discriminate E. injection E as <- <-.
      exists (linkStackOf azs wi wj).
      split; [by eapply link_stack_in_app|]. split.
      * split; [done|].
        exists (mk ("Peering ID - " +:+ region wj)
                  (StringParameter
                     ("tgw-attachmentid-" +:+ region wi +:+ "-" +:+ region wj)
                     (attrTransitGatewayAttachmentId (pairPeering wi wj)))),
          (attrTransitGatewayAttachmentId (pairPeering wi wj)).
        split; [|done]. do 3 right. left.
      * left. apply requires_direct; [done|]. apply elem_of_app. left. left.
  - unfold syncStackOf in Hs. inv_constructs Hs; subst s.
    cbn [constructs syncStackWith] in Hk.
    unfold SyncLustreToOpenSearch.updates in Hk.
    inv_constructs Hk; subst k; try discriminate E. injection E as <- <-.
    exists (ClientRegion.stack CS). split; [apply client_stack_in_app|]. split.
    + apply (client_publishes ("OpenSearch ARN", "client-opensearch-arn-")
               (Attr ("Client-Region", "OpenSearch Domain") "domainArn")).
      do 2 right. left.
    + left. apply (requires_trans _ _ (workerId w)); [|by apply worker_requires_client].
      apply requires_direct; [done|]. apply elem_of_app. right.
      apply elem_of_stackReferences. split; [done|].
      exists (mk "AutoScaling Group"
                (Elided "AutoScalingGroup"
                   [vpcId (workerVpc w);
                    Attr (workerId w, "Lustre File System") "dnsName";
                    Attr (workerId w, "Lustre File System") "mountName"])),
        (workerVpc w).
      split; [left|]. split; [left|done].
Qed.

(** Positions in a list built from blocks. *)
Lemma before_app {A} (l1 l2 : list A) (x y : A) :
  x ∈ l1 → y ∈ l2 →
  ∃ i j, j < i ∧ (l1 ++ l2) !! i = Some y ∧ (l1 ++ l2) !! j = Some x.
Proof.
  intros [j Hj]%list_elem_of_lookup [i Hi]%list_elem_of_lookup.
  pose proof (lookup_lt_Some _ _ _ Hj) as Hlt.
  exists (length l1 + i), j. split; [lia|]. split.
  - by rewrite lookup_app_r, Nat.add_comm, Nat.add_sub by lia.
  - by rewrite lookup_app_l.
Qed.

Lemma before_within {A} (l pre blk post : list A) (x y : A) i' j' :
  l = pre ++ blk ++ post → j' < i' → blk !! j' = Some x → blk !! i' = Some y →
  ∃ i j, j < i ∧ l !! i = Some y ∧ l !! j = Some x.
Proof.
  intros -> Hlt Hj Hi.
  pose proof (lookup_lt_Some _ _ _ Hj). pose proof (lookup_lt_Some _ _ _ Hi).
  exists (length pre + i'), (length pre + j'). split; [lia|]. split.
  - rewrite lookup_app_r by lia. rewrite lookup_app_l by lia.
    by replace (length pre + i' - length pre) with i' by lia.
  - rewrite lookup_app_r by lia. rewrite lookup_app_l by lia.
    by replace (length pre + j' - length pre) with j' by lia.
Qed.

Lemma bind_split {A B} (f : A → list B) (l : list A) (x : A) :
  x ∈ l → ∃ pre post, l ≫= f = pre ++ f x ++ post.
Proof.
  intros (l1 & l2 & ->)%list_elem_of_split.
  exists (l1 ≫= f), (l2 ≫= f). by rewrite bind_app, bind_cons.
Qed.

(** X16. Every parameter a stack fetches is published, in the region
    the fetch queries, by a stack that the program creates before the
    fetching stack: deployed in creation order, no fetch comes before
    the publish it reads. *)
Theorem fetched_parameters_published_earlier (a : list Stack) (s : Stack)
    (k : Construct) (name r : string) :
  app azs c ws = Some a →
  s ∈ a → k ∈ constructs s → resource k = SSMParameterReader name r →
  ∃ i j t, j < i ∧ a !! i = Some s ∧ a !! j = Some t ∧ publishes t r name.
Proof.
  intros ->%app_some Hs Hk E.
  set (WB := ws ≫= workerStacks azs c CS).
  set (TB := triangle (pairStacksOf azs c CS) (syncStackOf azs c CS) ws).
  assert (Ha : stacksOf azs c ws = [ClientRegion.stack CS] ++ WB ++ TB)
    by apply app_triangle.
  assert (Hclient : ∀ s', s' ∈ WB ++ TB → ∀ name',
            publishes (ClientRegion.stack CS) r name' → name' = name →
            s' = s →
            ∃ i j t, j < i ∧ stacksOf azs c ws !! i = Some s ∧ stacksOf azs c ws !! j = Some t
                     ∧ publishes t r name).
  { intros s' Hs' name' Hp <- ->.
    destruct (before_app [ClientRegion.stack CS] (WB ++ TB) (ClientRegion.stack CS) s)
      as (i & j & Hij & Hi & Hj); [left|done|].
    exists i, j, (ClientRegion.stack CS). rewrite Ha. done. }
  assert (Hworker : ∀ w : IWorker, w ∈ ws → s ∈ TB →
            publishes (workerStackOf azs c ws w) r name →
            ∃ i j t, j < i ∧ stacksOf azs c ws !! i = Some s ∧ stacksOf azs c ws !! j = Some t
                     ∧ publishes t r name).
  { intros w Hw Hs' Hp.
    destruct (before_app ([ClientRegion.stack CS] ++ WB) TB
                (workerStackOf azs c ws w) s) as (i & j & Hij & Hi & Hj); [|done|].
    - apply elem_of_app. right. apply list_elem_of_bind. exists w. split; [left|done].
    - exists i, j, (workerStackOf azs c ws w). rewrite Ha, (assoc_L (++)). done. }
  pose proof Hs as Hin.
  apply elem_of_app_stacks in Hs
    as [->|[(w & Hw & Hs)|[(i & j & wi & wj & Hij & Hi & Hj & Hs)|(w & Hw & Hs)]]].
  - cbn [constructs ClientRegion.stack ClientRegion.new] in Hk.
    unfold ClientRegion.setupEnvironment, ClientRegion.setupOpenSearch in Hk.
    inv_constructs Hk; subst k; discriminate E.
  - assert (HsWB : s ∈ WB ++ TB).
    { apply elem_of_app. left. apply list_elem_of_bind. by exists w. }
    unfold workerStacks in Hs. inv_constructs Hs; subst s.
    + cbn [constructs newWorker workerAddDependency addDependency
           WorkerRegion.stack WorkerRegion.new] in Hk.
      unfold WorkerRegion.setupEnvironment, WorkerRegion.acceptRequest,
        WorkerRegion.setupRegionalLustre in Hk.
      inv_constructs Hk; subst k; try discriminate E; injection E as <- <-.
      * eapply (Hclient _ HsWB); [|reflexivity|reflexivity].
        apply (client_publishes ("TGW Param", "tgw-param-") (ref clientTgw)). left.
      * eapply (Hclient _ HsWB); [|reflexivity|reflexivity].
        apply (client_publishes ("PrivateNP Param", "privatenp-hostedid-param-")
                 (Attr ("Client-Region", "local-dask") "namespaceHostedZoneId")).
        right. left.
    + cbn [constructs addDependency WorkerRegionTransitGatewayRoute.new] in Hk.
      inv_constructs Hk; subst k; discriminate E.
    + cbn [constructs addDependency ClientToWorkerTransitGatewayRoute.new] in Hk.
      inv_constructs Hk; subst k; try discriminate E. injection E as <- <-.
      destruct (bind_split (workerStacks azs c CS) ws w Hw) as (pre & post & Hsplit).
      match goal with
      | |- ∃ i j t, _ ∧ _ !! i = Some ?s ∧ _ =>
          destruct (before_within (stacksOf azs c ws) ([ClientRegion.stack CS] ++ pre)
                      (workerStacks azs c CS w) (post ++ TB)
                      (workerStackOf azs c ws w) s 2 0)
            as (i' & j' & Hlt & Hi' & Hj'); [|lia|reflexivity|reflexivity|]
      end.
      * rewrite Ha. unfold WB. rewrite Hsplit, <- !(assoc_L (++)). done.
      * exists i', j', (workerStackOf azs c ws w). split; [done|]. split; [done|].
        split; [done|].
        apply (worker_publishes w ("TGW Attach Param", "tgw-attachmentid-" +:+ region w)
                 (attrTransitGatewayAttachmentId (workerPeering w))).
        right. left.
  - pose proof (list_elem_of_lookup_2 _ _ _ Hi) as Hwi.
    pose proof (list_elem_of_lookup_2 _ _ _ Hj) as Hwj.
    assert (HsTB : s ∈ TB).
    { apply elem_of_triangle. left. by exists i, j, wi, wj. }
    unfold pairStacksOf in Hs. inv_constructs Hs; subst s.
    + cbn [constructs WorkerToWorkerTGW.stack WorkerToWorkerTGW.new] in Hk.
      unfold WorkerToWorkerTGW.acceptRequest in Hk.
      inv_constructs Hk; subst k; try discriminate E; injection E as <- <-.
      * apply (Hworker wj Hwj HsTB).
        apply (worker_publishes wj
                 ("TGW Param - " +:+ region wj, "tgw-param-" +:+ region wj)
                 (ref (workerTgw wj))). left.
      * apply (Hworker wi Hwi HsTB).
        apply (worker_publishes wi
                 ("TGW Param - " +:+ region wi, "tgw-param-" +:+ region wi)
                 (ref (workerTgw wi))). left.
    + cbn [constructs addDependency WorkerRegionTransitGatewayRoute.new] in Hk.
      inv_constructs Hk; subst k; discriminate E.
    + cbn [constructs addDependency InterRegionTransitGatewayRoute.new] in Hk.
      inv_constructs Hk; subst k; try discriminate E. injection E as <- <-.
      destruct (triangle_split (pairStacksOf azs c CS) (syncStackOf azs c CS) ws
                  i j wi wj Hij Hi Hj) as (pre & post & Hsplit).
      match goal with
      | |- ∃ i j t, _ ∧ _ !! i = Some ?s ∧ _ =>
          destruct (before_within (stacksOf azs c ws) ([ClientRegion.stack CS] ++ WB ++ pre)
                      (pairStacksOf azs c CS wi wj) post
                      (linkStackOf azs wi wj) s 2 0)
            as (i' & j' & Hlt & Hi' & Hj'); [|lia|reflexivity|reflexivity|]
      end.
      * rewrite Ha. unfold TB. rewrite Hsplit, <- !(assoc_L (++)). done.
      * exists i', j', (linkStackOf azs wi wj). split; [done|]. split; [done|].
        split; [done|]. split; [done|].
        exists (mk ("Peering ID - " +:+ region wj)
                  (StringParameter
                     ("tgw-attachmentid-" +:+ region wi +:+ "-" +:+ region wj)
                     (attrTransitGatewayAttachmentId (pairPeering wi wj)))),
          (attrTransitGatewayAttachmentId (pairPeering wi wj)).
        split; [|done]. do 3 right. left.
  - assert (HsTB : s ∈ WB ++ TB).
    { apply elem_of_app. right. apply elem_of_triangle. right. by exists w. }
    unfold syncStackOf in Hs. inv_constructs Hs; subst s.
    cbn [constructs syncStackWith] in Hk.
    unfold SyncLustreToOpenSearch.updates in Hk.
    inv_constructs Hk; subst k; try discriminate E. injection E as <- <-.
    eapply (Hclient _ HsTB); [|reflexivity|reflexivity].
    apply (client_publishes ("OpenSearch ARN", "client-opensearch-arn-")
             (Attr ("Client-Region", "OpenSearch Domain") "domainArn")).
    do 2 right. left.
Qed.

End Producers.

Lemma fetched_parameters_witness :
  let a := shipped in
  ∃ s, a !! 9 = Some s
       ∧ ∃ t, t ∈ a
              ∧ publishes t "us-east-1" "tgw-attachmentid-us-east-1-us-west-2"
              ∧ (Requires a (sid s) (sid t)
                 ∨ ∃ i j (wi wj : IWorker),
                     i < j ∧ workers !! i = Some wi ∧ workers !! j = Some wj
                     ∧ s = linkStackOf defaultAzs wi wj
                     ∧ t = workerStackOf defaultAzs client workers wj
                     ∧ "tgw-attachmentid-us-east-1-us-west-2" = "tgw-param-" +:+ region wj
                     ∧ "us-east-1" = region wj).
Proof.
  intros a. eexists. split; [reflexivity|].
  eapply (fetched_parameters_have_producers defaultAzs client workers shipped).
  - reflexivity.
  - intros w _. unfold defaultAzs. lia.
  - apply list_elem_of_lookup. exists 9. reflexivity.
  - apply list_elem_of_lookup. exists 1. reflexivity.
  - reflexivity.
Defined.

(** ** What a link between two workers waits for *)

Section LinkStack.
Context (azs : string → nat) (c : IClient) (ws : list IWorker).

Let CS := ClientRegion.new azs "Client-Region" (region c) (cidr c) ws.

Lemma deps_client d : d ∉ stackDeps (ClientRegion.stack CS).
Proof.
  intros Hd. unfold stackDeps in Hd. apply elem_of_app in Hd as [Hd|Hd].
  - by apply elem_of_nil in Hd.
  - unfold CS in Hd. inv_refs Hd; done.
Qed.

Lemma deps_worker (w : IWorker) d :
  d ∈ stackDeps (workerStackOf azs c ws w) → d = "Client-Region".
Proof.
  intros Hd. unfold stackDeps in Hd. apply elem_of_app in Hd as [Hd|Hd].
  - cbn in Hd. by inv_elem Hd.
  - inv_refs Hd; done.
Qed.

Lemma deps_link (wi wj : IWorker) d :
  d ∈ stackDeps (linkStackOf azs wi wj) ↔ d = workerId wi ∧ 0 < azs (region wi).
Proof.
  split.
  - intros Hd. unfold stackDeps in Hd. apply elem_of_app in Hd as [Hd|Hd].
    + by apply elem_of_nil in Hd.
    + inv_refs Hd; try done.
      match goal with
      | H : _ ∈ privateSubnets _ |- _ => cbn in H; apply elem_of_seq in H
      end.
      split; [done|lia].
  - intros [-> Hz]. apply elem_of_app. right.
    apply elem_of_stackReferences. split; [done|].
    exists (addDependsOn
              (mk ("Subnet to TGW - " +:+ subnetName (workerVpc wi) 0)
                 (CfnRoute (routeTableId (workerVpc wi) 0) (cidr wj)
                    (getParameterValue (pairId wi wj, "TGW Param - " +:+ region wi))))
              "Peering Connection"),
      (workerVpc wi).
    split; [|split; [left|done]].
    cbn [constructs linkStackOf WorkerToWorkerTGW.stack WorkerToWorkerTGW.new].
    apply elem_of_app. right. apply elem_of_app. right.
    apply list_elem_of_fmap. exists 0. split; [done|].
    apply elem_of_seq. cbn. lia.
Qed.

(** X9. The stack that links the workers [wi] and [wj] depends on one stack
    at most, the stack of the initiator [wi], and on that one only
    through the route tables of the private subnets of its network. When
    the ids of the stacks are pairwise distinct, all it requires, through
    any chain of dependencies, is the initiator's stack and the client's
    stack: for workers of different regions it never requires the stack
    of the target [wj], whose gateway parameter it fetches. *)
Theorem link_stack_requires (a : list Stack) (i j : nat) (wi wj : IWorker) :
  app azs c ws = Some a →
  NoDup (sid <$> a) →
  i < j → ws !! i = Some wi → ws !! j = Some wj →
  let link := linkStackOf azs wi wj in
  (∀ d, d ∈ stackDeps link ↔ d = workerId wi ∧ 0 < azs (region wi))
  ∧ (∀ y, Requires a (sid link) y → y = workerId wi ∨ y = "Client-Region")
  ∧ (region wi ≠ region wj → ¬ Requires a (sid link) (workerId wj))
  ∧ ∃ k, k ∈ constructs link
         ∧ resource k = SSMParameterReader ("tgw-param-" +:+ region wj) (region wj).
Proof.
  intros ->%app_some Hnd Hij Hi Hj link.
  pose proof (list_elem_of_lookup_2 _ _ _ Hi) as Hwi.
  assert (Hreq : ∀ y, Requires (stacksOf azs c ws) (sid link) y →
                   y ∈ [workerId wi; "Client-Region"]).
  { apply requires_closed. apply Forall_forall. intros s Hs Hsid.
    apply Forall_forall. intros d Hd.
    assert (Hcases : s = link ∨ s = workerStackOf azs c ws wi ∨ s = ClientRegion.stack CS).
    { destruct Hsid as [E|E].
      - left. apply (elem_eq_on sid (stacksOf azs c ws)); [done..| |done].
        by eapply link_stack_in_app.
      - inv_elem E.
        + right. left. apply (elem_eq_on sid (stacksOf azs c ws)); [done..| |done].
          by apply worker_stack_in_app.
        + right. right. apply (elem_eq_on sid (stacksOf azs c ws)); [done..| |done].
          apply client_stack_in_app. }
    destruct Hcases as [-> |[-> | ->]].
    - apply deps_link in Hd as [-> _]. left.
    - apply deps_worker in Hd as ->. right. left.
    - by apply deps_client in Hd. }
  split; [apply deps_link|]. split; [|split].
  - intros y Hy. specialize (Hreq y Hy). inv_elem Hreq; auto.
  - intros Hne Hy. specialize (Hreq _ Hy). inv_elem Hreq.
    + apply Hne. unfold workerId in Hreq. by simplify_eq.
    + discriminate Hreq.
  - eexists. split; [left|reflexivity].
Qed.

End LinkStack.

Lemma link_stack_witness :
  ¬ Requires shipped
      "TGW-Peer-Region-us-east-1-to-us-west-2" "Worker-Region-us-west-2".
Proof.
  edestruct (link_stack_requires defaultAzs client workers shipped 0 1)
    as (_ & _ & H & _);
    [reflexivity| | |reflexivity|reflexivity|apply H; discriminate].
  - refine (bool_decide_unpack _ _). vm_compute. exact I.
  - lia.
Defined.

Lemma fetched_earlier_witness :
  let a := shipped in
  ∃ i j t, j < i ∧ is_Some (a !! i) ∧ a !! j = Some t
           ∧ publishes t "us-west-2" "tgw-param-us-west-2".
Proof.
  intros a.
  edestruct (fetched_parameters_published_earlier defaultAzs client workers shipped)
    as (i & j & t & Hlt & Hi & Hj & Hp).
  - reflexivity.
  - apply list_elem_of_lookup. exists 7. reflexivity.
  - apply list_elem_of_lookup. exists 0. reflexivity.
  - reflexivity.
  - exists i, j, t. split; [exact Hlt|]. split; [by eexists|]. split; [exact Hj|exact Hp].
Defined.

(** ** The creation order within a stack *)

(** Two ids of different lengths are different. *)
Ltac by_length H :=
  exfalso; cbn in H; unfold workerId, pairId in H;
  apply (f_equal String.length) in H;
  rewrite ?string_length_app in H; cbn [String.length] in H; lia.

Lemma respectsNeeds_mono (s : Stack) (l : list Construct) : ∀ seen seen',
  seen ⊆ seen' → respectsNeeds s seen l → respectsNeeds s seen' l.
Proof.
  induction l as [|k l IH]; intros seen seen' Hsub; [done|].
  cbn [respectsNeeds]. intros [Hd Hl]. split.
  - eapply Forall_impl; [exact Hd|]. intros d. apply Hsub.
  - eapply IH; [|exact Hl]. intros x [Hx|Hx]%elem_of_app; apply elem_of_app; auto.
Qed.

Lemma respectsNeeds_app (s : Stack) (l1 l2 : list Construct) : ∀ seen,
  respectsNeeds s seen (l1 ++ l2)
  ↔ respectsNeeds s seen l1 ∧ respectsNeeds s (seen ++ (cid <$> l1)) l2.
Proof.
  induction l1 as [|k l1 IH]; intros seen.
  - cbn. rewrite app_nil_r. tauto.
  - change (respectsNeeds s seen ((k :: l1) ++ l2))
      with (Forall (λ d, d ∈ seen) (constructDeps s k)
            ∧ respectsNeeds s (seen ++ [cid k]) (l1 ++ l2)).
    change (respectsNeeds s seen (k :: l1))
      with (Forall (λ d, d ∈ seen) (constructDeps s k)
            ∧ respectsNeeds s (seen ++ [cid k]) l1).
    rewrite IH. change (cid <$> k :: l1) with ([cid k] ++ (cid <$> l1)).
    rewrite (assoc_L (++)). tauto.
Qed.

(** Constructs that depend only on constructs already created can be
    created in any order. *)
Lemma respectsNeeds_all (s : Stack) (l : list Construct) : ∀ seen,
  (∀ k d, k ∈ l → d ∈ constructDeps s k → d ∈ seen) → respectsNeeds s seen l.
Proof.
  induction l as [|k l IH]; intros seen Hl; [done|].
  cbn [respectsNeeds]. split.
  - apply Forall_forall. intros d Hd. apply (Hl k); [left|done].
  - apply IH. intros k' d Hk' Hd. apply elem_of_app. left.
    apply (Hl k'); [by right|done].
Qed.

(** The constructs of the same stack a construct depends on, case by
    case. *)
Ltac inv_needs H :=
  let p := fresh "p" in
  let Hsid := fresh "Hsid" in
  unfold constructDeps in H; apply elem_of_app in H as [H|H];
  [ cbn in H; inv_elem H; subst
  | apply list_elem_of_fmap in H as (p & -> & H);
    apply list_elem_of_filter in H as [Hsid H];
    inv_paths H; cbn [snd] ].

Ltac is_seen :=
  cbn [fmap list_fmap cid mk addDependsOn app];
  rewrite ?elem_of_app, ?elem_of_cons; solve [auto 20].

Ltac all_needs :=
  apply Forall_forall;
  let d := fresh "d" in
  let Hd := fresh "Hd" in
  intros d Hd; inv_needs Hd;
  first [done | is_seen
        | match goal with H : _.1 = sid _ |- _ => by_length H end ].

Section WithinStacks.
Context (azs : string → nat) (c : IClient) (ws : list IWorker).

Let CS := ClientRegion.new azs "Client-Region" (region c) (cidr c) ws.

(** Goes through the constructs of a stack segment by segment: the
    explicit lists construct by construct, the constructs made in a loop
    all at once. *)
Ltac needs_segments :=
  rewrite <- ?app_assoc;
  repeat match goal with
         | |- respectsNeeds _ _ (_ ++ _) => apply respectsNeeds_app; split
         | |- respectsNeeds _ _ (_ <$> _) =>
             let k := fresh "k" in
             let d := fresh "d" in
             let Hk := fresh "Hk" in
             let Hd := fresh "Hd" in
             apply respectsNeeds_all; intros k d Hk Hd;
             inv_constructs Hk; subst k; inv_needs Hd;
             first [done | is_seen
                   | match goal with H : _.1 = sid _ |- _ => by_length H end ]
         | |- respectsNeeds _ _ (_ ≫= _) =>
             let k := fresh "k" in
             let d := fresh "d" in
             let Hk := fresh "Hk" in
             let Hd := fresh "Hd" in
             apply respectsNeeds_all; intros k d Hk Hd;
             inv_constructs Hk; subst k; inv_needs Hd;
             first [done | is_seen
                   | match goal with H : _.1 = sid _ |- _ => by_length H end ]
         | |- respectsNeeds _ _ _ => cbn [respectsNeeds]; repeat split; all_needs
         end.

(** X10. In every stack of the application the constructs are created after
    the constructs of the stack they depend on: the targets of
    [addDependsOn] and the constructs whose attributes they read
    precede them in the creation order. *)
Theorem constructs_created_after_their_needs (a : list Stack) (s : Stack) :
  app azs c ws = Some a → s ∈ a → respectsNeeds s [] (constructs s).
Proof.
  intros ->%app_some Hs.
  apply elem_of_app_stacks in Hs
    as [->|[(w & Hw & Hs)|[(i & j & wi & wj & Hij & Hi & Hj & Hs)|(w & Hw & Hs)]]].
  - cbn [constructs ClientRegion.stack ClientRegion.new].
    unfold ClientRegion.setupEnvironment, ClientRegion.setupOpenSearch.
    needs_segments.
  - unfold workerStacks in Hs. inv_constructs Hs; subst s.
    + cbn [constructs newWorker workerAddDependency addDependency
           WorkerRegion.stack WorkerRegion.new].
      unfold WorkerRegion.setupEnvironment, WorkerRegion.acceptRequest,
        WorkerRegion.setupRegionalLustre.
      needs_segments.
    + cbn [constructs addDependency WorkerRegionTransitGatewayRoute.new].
      needs_segments.
    + cbn [constructs addDependency ClientToWorkerTransitGatewayRoute.new].
      needs_segments.
  - unfold pairStacksOf in Hs. inv_constructs Hs; subst s.
    + cbn [constructs WorkerToWorkerTGW.stack WorkerToWorkerTGW.new].
      unfold WorkerToWorkerTGW.acceptRequest.
      needs_segments.
    + cbn [constructs addDependency WorkerRegionTransitGatewayRoute.new].
      needs_segments.
    + cbn [constructs addDependency InterRegionTransitGatewayRoute.new].
      needs_segments.
  - unfold syncStackOf in Hs. inv_constructs Hs; subst s.
    cbn [constructs syncStackWith].
    unfold SyncLustreToOpenSearch.updates.
    needs_segments.
Qed.

End WithinStacks.

Lemma constructs_order_witness :
  ∃ s, shipped !! 1 = Some s ∧ respectsNeeds s [] (constructs s).
Proof.
  eexists. split; [reflexivity|].
  apply (constructs_created_after_their_needs defaultAzs client workers shipped);
    [reflexivity|].
  apply list_elem_of_lookup. exists 1. reflexivity.
Defined.

(** ** Counting the stacks *)

(** X11. The application consists of the client's stack, three stacks for
    every link (for a link with the client the worker's stack and a
    route stack on each side, for a link between workers the stack that
    creates it and a route stack on each side) and one more stack per
    worker. *)
Theorem stack_count (azs : string → nat) (c : IClient) (ws : list IWorker)
    (a : list Stack) :
  app azs c ws = Some a →
  length a = 1 + 3 * length (links a) + length ws.
Proof.
  intros ->%app_some.
  rewrite links_app, app_triangle, !length_app, length_fmap.
  set (CS := ClientRegion.new azs "Client-Region" (region c) (cidr c) ws).
  rewrite (length_bind_sum _ (λ _, 3)) by done.
  rewrite sum_list_fmap_const. cbn [length].
  assert (H : ∀ l : list IWorker,
            length (triangle (pairStacksOf azs c CS) (syncStackOf azs c CS) l)
            = 3 * length (triangle (λ wx wy : IWorker, [pairLink wx wy]) none l)
              + length l); [|rewrite H; lia].
  induction l as [|x l IH]; [done|].
  cbn [triangle none length]. rewrite !length_app, IH. cbn [length].
  rewrite (length_bind_sum _ (λ _, 3)) by done.
  rewrite (length_bind_sum (λ wy : IWorker, [pairLink x wy]) (λ _, 1)) by done.
  rewrite !sum_list_fmap_const.
  change (length (syncStackOf azs c CS x)) with 1.
  change (length (@none IWorker Link x)) with 0. lia.
Qed.

Lemma stack_count_witness :
  length shipped = 1 + 3 * length (links shipped) + length workers.
Proof. exact (stack_count defaultAzs client workers shipped eq_refl). Defined.

(** ** The bucket of a dataset *)

Lemma rev_app_append (s x y : string) :
  String.rev_app s x +:+ y = String.rev_app s (x +:+ y).
Proof.
  revert x. induction s as [|a s IH]; intros x; [done|].
  cbn [String.rev_app]. by rewrite IH.
Qed.

Lemma split_acc_piece (sep : ascii) (s t acc : string) :
  free sep s →
  split_acc sep acc (s +:+ String sep t) = (String.rev acc +:+ s) :: split sep t.
Proof.
  revert acc. induction s as [|a s IH]; intros acc Hs.
  - change ("" +:+ String sep t) with (String sep t). cbn [split_acc].
    rewrite decide_True by done. unfold String.rev. by rewrite rev_app_append.
  - destruct Hs as [Ha Hs]. rewrite append_cons. cbn [split_acc].
    rewrite decide_False by done.
    rewrite IH by done. unfold String.rev. cbn [String.rev_app].
    by rewrite !rev_app_append.
Qed.

Lemma split_acc_last (sep : ascii) (s acc : string) :
  free sep s → split_acc sep acc s = [String.rev acc +:+ s].
Proof.
  revert acc. induction s as [|a s IH]; intros acc Hs.
  - cbn [split_acc]. unfold String.rev. by rewrite rev_app_append.
  - destruct Hs as [Ha Hs]. cbn [split_acc]. rewrite decide_False by done.
    rewrite IH by done. unfold String.rev. cbn [String.rev_app].
    by rewrite !rev_app_append.
Qed.

Lemma split_piece (sep : ascii) (s t : string) :
  free sep s → split sep (s +:+ String sep t) = s :: split sep t.
Proof. intros Hs. unfold split at 1. by rewrite split_acc_piece. Qed.

Lemma split_last (sep : ascii) (s : string) : free sep s → split sep s = [s].
Proof. intros Hs. unfold split. by rewrite split_acc_last. Qed.

Lemma published_sync (azs : string → nat) (c : IClient) (ws : list IWorker) (w : IWorker) z :
  w ∈ ws → z ∈ syncKeys c w → z ∈ published (stacksOf azs c ws).
Proof.
  intros Hw Hz. rewrite published_app. apply elem_of_app. right.
  apply elem_of_app. right. apply elem_of_triangle. right. by exists w.
Qed.

(** X12. The stack that syncs a worker's file system publishes, under the key
    [worker-region-data-bucket-for-dask-worker-<region>] of the worker's
    region, the third piece of the worker's dataset when this is cut at
    every [/]: the bucket of [s3://bucket] and of [s3://bucket/path]. *)
Theorem data_bucket_published (azs : string → nat) (c : IClient) (ws : list IWorker)
    (a : list Stack) (w : IWorker) (scheme empty bucket rest : string) :
  app azs c ws = Some a →
  w ∈ ws →
  free "/" scheme → free "/" empty → free "/" bucket →
  dataset w = scheme +:+ "/" +:+ empty +:+ "/" +:+ bucket +:+ rest →
  rest = "" ∨ (∃ path, rest = "/" +:+ path) →
  ((region w, "worker-region-data-bucket-for-dask-worker-" +:+ region w), Lit bucket)
  ∈ published a.
Proof.
  intros ->%app_some Hw H1 H2 H3 Hd Hrest.
  assert (E : split "/" (dataset w) !! 2 = Some bucket).
  { rewrite Hd.
    change (scheme +:+ "/" +:+ empty +:+ "/" +:+ bucket +:+ rest)
      with (scheme +:+ String "/" (empty +:+ String "/" (bucket +:+ rest))).
    rewrite !split_piece by done.
    destruct Hrest as [->|[path ->]].
    - rewrite append_nil_r. by rewrite split_last.
    - change (bucket +:+ "/" +:+ path) with (bucket +:+ String "/" path).
      by rewrite split_piece. }
  apply (published_sync azs c ws w); [done|]. unfold syncKeys, bucketOf.
  rewrite E. right. left.
Qed.

Lemma data_bucket_witness :
  (("us-west-2", "worker-region-data-bucket-for-dask-worker-us-west-2"), Lit "cmip6-pds")
  ∈ published shipped.
Proof.
  apply (data_bucket_published defaultAzs client workers shipped
           {| asClient := {| region := "us-west-2"; cidr := "10.2.0.0/16" |};
              dataset := "s3://cmip6-pds/CMIP6/ScenarioMIP/MOHC";
              lustreFileSystemPath := "CMIP6/ScenarioMIP/MOHC" |}
           "s3:" "" "cmip6-pds" "/CMIP6/ScenarioMIP/MOHC").
  - reflexivity.
  - right. left.
  - cbn. repeat split; discriminate.
  - exact I.
  - cbn. repeat split; discriminate.
  - reflexivity.
  - right. by exists "CMIP6/ScenarioMIP/MOHC".
Defined.

(** X13. A data set with fewer than two [/] has no third piece:
    [new StringParameter] then throws on the undefined value, and the
    program ends without an application. *)
Theorem data_bucket_undefined (azs : string → nat) (c : IClient) (ws : list IWorker)
    (w : IWorker) (first second : string) :
  w ∈ ws →
  free "/" first → free "/" second →
  dataset w = first ∨ dataset w = first +:+ "/" +:+ second →
  app azs c ws = None.
Proof.
  intros Hw H1 H2 Hd.
  assert (E : split "/" (dataset w) !! 2 = None).
  { destruct Hd as [->| ->].
    - by rewrite split_last.
    - change (first +:+ "/" +:+ second) with (first +:+ String "/" second).
      by rewrite split_piece, split_last. }
  destruct (app azs c ws) as [a|] eqn:Ha; [|reflexivity].
  assert (Hsome : is_Some (app azs c ws)) by (rewrite Ha; eauto).
  destruct (proj1 (proj1 (app_is_some azs c ws) Hsome) w Hw) as [b Hb]. congruence.
Qed.

Lemma data_bucket_undefined_witness :
  let w := {| asClient := {| region := "us-east-1"; cidr := "10.1.0.0/16" |};
              dataset := "era5-pds"; lustreFileSystemPath := "era5-pds" |} in
  app defaultAzs client [w] = None.
Proof.
  intros w. apply (data_bucket_undefined defaultAzs client [w] w "era5-pds" "").
  - left.
  - cbn. repeat split; discriminate.
  - exact I.
  - by left.
Defined.

(** ** The ports of the Dask workers *)

(** X14. The container maps exactly the ports the command gives to the
    workers and to the nannies, these two ranges do not overlap, and the
    worker security group admits exactly the mapped ports; the command
    prints the bounds of the two ranges after [--worker-port] and
    [--nanny-port]. This holds for every number of workers the constant
    [NWORKERS] may be set to, zero included. *)
Theorem worker_ports_consistent (n : Z) :
  (0 ≤ n)%Z →
  (∀ p, p ∈ DaskWorkers.portMappings n ↔
        DaskWorkers.within (DaskWorkers.workerPorts n) p
        ∨ DaskWorkers.within (DaskWorkers.nannyPorts n) p)
  ∧ (∀ p, p ∈ DaskWorkers.portMappings n ↔
          DaskWorkers.within (DaskWorkers.ingressRange n) p)
  ∧ (∀ p, ¬ (DaskWorkers.within (DaskWorkers.workerPorts n) p
             ∧ DaskWorkers.within (DaskWorkers.nannyPorts n) p))
  ∧ NoDup (DaskWorkers.portMappings n)
  ∧ length (DaskWorkers.portMappings n) = Z.to_nat (2 * n)
  ∧ (∀ region threads, ∃ before after,
       DaskWorkers.command region n threads
       = [ "bin/sh"; "-c";
           before +:+ " --worker-port "
           +:+ pretty (DaskWorkers.workerPorts n).1 +:+ ":"
           +:+ pretty (DaskWorkers.workerPorts n).2 +:+ " --nanny-port "
           +:+ pretty (DaskWorkers.nannyPorts n).1 +:+ ":"
           +:+ pretty (DaskWorkers.nannyPorts n).2 +:+ after ]).
Proof.
  intros Hn.
  assert (Hin : ∀ p, p ∈ DaskWorkers.portMappings n ↔ (9000 ≤ p < 9000 + n * 2)%Z).
  { intros p. unfold DaskWorkers.portMappings, DaskWorkers.keys.
    rewrite list_elem_of_fmap. split.
    - intros (x & -> & Hx%elem_of_seqZ). lia.
    - intros Hp. exists (p - 9000)%Z. split; [lia|]. apply elem_of_seqZ. lia. }
  unfold DaskWorkers.within, DaskWorkers.workerPorts, DaskWorkers.nannyPorts,
    DaskWorkers.ingressRange. cbn [fst snd].
  split; [intros p; rewrite Hin; lia|].
  split; [intros p; rewrite Hin; lia|].
  split; [intros p; lia|].
  unfold DaskWorkers.portMappings, DaskWorkers.keys. split; [|split].
  - apply NoDup_fmap_2; [intros x y; lia|]. apply NoDup_seqZ.
  - rewrite length_fmap, length_seqZ. f_equal. lia.
  - intros region threads.
    exists "pip3 install --upgrade xarray[complete] intake_esm s3fs eccodes git+https://github.com/gjoseph92/dask-worker-pools.git@main && dask worker Dask-Scheduler.local-dask:8786",
      (" --resources pool-" +:+ region +:+ "=1 --nworkers " +:+ pretty n
       +:+ " --nthreads " +:+ pretty threads +:+ " --no-dashboard").
    reflexivity.
Qed.

Lemma worker_ports_witness :
  (9019%Z ∈ DaskWorkers.portMappings DaskWorkers.NWORKERS
   ↔ DaskWorkers.within (DaskWorkers.ingressRange DaskWorkers.NWORKERS) 9019%Z)
  ∧ length (DaskWorkers.portMappings DaskWorkers.NWORKERS) = 20.
Proof.
  destruct (worker_ports_consistent DaskWorkers.NWORKERS) as (_ & Hin & _ & _ & Hlen & _).
  - unfold DaskWorkers.NWORKERS. lia.
  - split; [apply Hin|exact Hlen].
Defined.
